(** * Colour picker and hover controller: a shallow embedding

    The development follows the editor's colour-picker widget
    (SaturationBox, Strip, HueStrip, OpacityStrip, the hover and the
    standalone picker with their editor synchronisation), the hover
    controller ModesHoverController and the accessible-view providers
    of the hover.  Each TypeScript class becomes a record of its mutable
    fields and each method a function on that record; what a method
    fires on an emitter or asks of the editor is returned as a list. *)

From Stdlib Require Import String QArith Qminmax Qround Qabs Qpower Lqa Lia Bool List.
Import ListNotations.

Set Implicit Arguments.

(** ** JavaScript numbers

    Values of type [number] are binary64 floating-point numbers.  A
    finite one is the rational it denotes (zero is unsigned); the
    three non-finite results are the infinities and NaN.  The
    operations [-], [*] and [/] round the exact result to the nearest
    binary64 number, ties to the even significand, with the exponent
    range of the format: gradual underflow below 2^-1022 and overflow
    to an infinity from 2^1024 on. *)
Module JS.

Inductive number : Type :=
| Fin (q : Q)
| PosInfinity
| NegInfinity
| NaN.

Definition Qltb (a b : Q) : bool := negb (Qle_bool b a).

Definition infinity (positive : bool) : number :=
  if positive then PosInfinity else NegInfinity.

Definition pow2 (k : Z) : Q := 2 ^ k.

(** The binary exponent of a positive rational: the largest [e] with
    2^e <= x. *)
Definition ilog2 (x : Q) : Z :=
  let e := (Z.log2 (Qnum x) - Z.log2 (Zpos (Qden x)))%Z in
  if Qle_bool (pow2 e) x then e else (e - 1)%Z.

(** The nearest integer, ties to the even one. *)
Definition roundHalfEven (m : Q) : Z :=
  let f := Qfloor m in
  match Qcompare (m - inject_Z f) (1 # 2) with
  | Lt => f
  | Gt => (f + 1)%Z
  | Eq => if Z.even f then f else (f + 1)%Z
  end.

(** The exponent of the spacing of the binary64 numbers around a
    positive [x]: 52 below the exponent of [x], and never below
    -1074. *)
Definition ulpExponent (x : Q) : Z := (Z.max (ilog2 x) (-1022) - 52)%Z.

(** A positive rational rounded to a multiple of the spacing. *)
Definition roundPositive (x : Q) : Q :=
  let k := ulpExponent x in inject_Z (roundHalfEven (x / pow2 k)) * pow2 k.

(** The binary64 number nearest to a rational. *)
Definition round64 (x : Q) : number :=
  let x := Qred x in
  match Qcompare x 0 with
  | Eq => Fin 0
  | Gt => let r := roundPositive x in
          if Qle_bool (pow2 1024) r then PosInfinity else Fin (Qred r)
  | Lt => let r := roundPositive (- x) in
          if Qle_bool (pow2 1024) r then NegInfinity else Fin (Qred (- r))
  end.

(** [x - y] *)
Definition sub (x y : number) : number :=
  match x, y with
  | NaN, _ | _, NaN => NaN
  | Fin a, Fin b => round64 (a - b)
  | Fin _, PosInfinity => NegInfinity
  | Fin _, NegInfinity => PosInfinity
  | PosInfinity, PosInfinity => NaN
  | PosInfinity, _ => PosInfinity
  | NegInfinity, NegInfinity => NaN
  | NegInfinity, _ => NegInfinity
  end.

(** [x * y] *)
Definition mul (x y : number) : number :=
  match x, y with
  | NaN, _ | _, NaN => NaN
  | Fin a, Fin b => round64 (a * b)
  | Fin a, PosInfinity | PosInfinity, Fin a =>
      if Qeq_bool a 0 then NaN else infinity (Qltb 0 a)
  | Fin a, NegInfinity | NegInfinity, Fin a =>
      if Qeq_bool a 0 then NaN else infinity (Qltb a 0)
  | PosInfinity, PosInfinity | NegInfinity, NegInfinity => PosInfinity
  | _, _ => NegInfinity
  end.

(** [x / y]: a finite non-zero value over zero is an infinity of its
    sign, zero over zero is NaN. *)
Definition div (x y : number) : number :=
  match x, y with
  | NaN, _ | _, NaN => NaN
  | Fin a, Fin b =>
      if Qeq_bool b 0
      then (if Qeq_bool a 0 then NaN else infinity (Qltb 0 a))
      else round64 (a / b)
  | Fin _, _ => Fin 0
  | PosInfinity, Fin b => infinity (Qle_bool 0 b)
  | NegInfinity, Fin b => infinity (Qltb b 0)
  | _, _ => NaN
  end.

(** [Math.min] and [Math.max]: NaN as soon as one argument is NaN. *)
Definition Math_min (x y : number) : number :=
  match x, y with
  | NaN, _ | _, NaN => NaN
  | NegInfinity, _ | _, NegInfinity => NegInfinity
  | PosInfinity, z | z, PosInfinity => z
  | Fin a, Fin b => if Qle_bool a b then Fin a else Fin b
  end.

Definition Math_max (x y : number) : number :=
  match x, y with
  | NaN, _ | _, NaN => NaN
  | PosInfinity, _ | _, PosInfinity => PosInfinity
  | NegInfinity, z | z, NegInfinity => z
  | Fin a, Fin b => if Qle_bool a b then Fin b else Fin a
  end.

(** [x === y] on numbers. *)
Definition strict_eq (x y : number) : bool :=
  match x, y with
  | Fin a, Fin b => Qeq_bool a b
  | PosInfinity, PosInfinity | NegInfinity, NegInfinity => true
  | _, _ => false
  end.

(** Equality of numbers up to the equality of rationals. *)
Definition eqn (x y : number) : Prop :=
  match x, y with
  | Fin a, Fin b => a == b
  | PosInfinity, PosInfinity | NegInfinity, NegInfinity | NaN, NaN => True
  | _, _ => False
  end.

(** The number is finite and lies in the closed interval [lo, hi]. *)
Definition between (lo hi : Q) (x : number) : Prop :=
  match x with
  | Fin q => lo <= q /\ q <= hi
  | _ => False
  end.

(** The number is finite and lies in the half-open interval [lo, hi). *)
Definition between_excl (lo hi : Q) (x : number) : Prop :=
  match x with
  | Fin q => lo <= q /\ q < hi
  | _ => False
  end.

End JS.

Import JS.

Arguments JS.round64 : simpl never.

Declare Scope js_scope.
Delimit Scope js_scope with js.
Notation "x - y" := (JS.sub x y) : js_scope.
Notation "x * y" := (JS.mul x y) : js_scope.
Notation "x / y" := (JS.div x y) : js_scope.
Notation "x === y" := (JS.strict_eq x y) (at level 70, no associativity) : js_scope.
Notation "x =n= y" := (JS.eqn x y) (at level 70, no associativity) : js_scope.
Notation "$ q" := (JS.Fin q) (at level 5, q at level 1, format "$ q") : js_scope.

Local Open Scope js_scope.

(** ** Colours and the colour-picker model *)

(** Modelled from the spec: the classes HSVA and Color
    (vs/base/common/color) are outside the excerpt.  The spec has the
    input surfaces read and write normalized coordinates into the
    ColorModel, so a colour is the record of the four HSVA components
    as they were written. *)
Module HSVA.
Record t : Type := mk { h : number; s : number; v : number; a : number }.
End HSVA.

Record Color : Type := mkColor { hsva : HSVA.t }.

(** A text range of the buffer. *)
Record Range : Type := mkRange {
  startLineNumber : nat; startColumn : nat;
  endLineNumber : nat; endColumn : nat
}.

Record ISingleEditOperation : Type := mkEdit {
  edit_range : Range;
  edit_text : string;
  forceMoveMarkers : bool
}.

(** A presentation as a colour provider returns it. *)
Record IColorPresentation : Type := mkPresentation {
  label : string;
  textEdit : option ISingleEditOperation;
  additionalTextEdits : option (list ISingleEditOperation)
}.

(** Modelled from the spec: ColorPickerModel (colorPickerModel.ts) is
    outside the excerpt.  Per the data model of the spec it holds the
    current colour, the ordered presentations and the index of the
    current one. *)
Record ColorPickerModel : Type := mkModel {
  color : Color;
  colorPresentations : list IColorPresentation;
  presentationIndex : nat
}.

Definition set_color (m : ColorPickerModel) (c : Color) : ColorPickerModel :=
  mkModel c (colorPresentations m) (presentationIndex m).

(** ** The body of the picker: what a surface's onDidChange does to the model *)
Module AbstractColorPickerBody.

Definition onDidSaturationValueChange (model : ColorPickerModel) (sv : number * number)
  : ColorPickerModel :=
  let hsva := hsva (color model) in
  set_color model (mkColor (HSVA.mk (HSVA.h hsva) (fst sv) (snd sv) (HSVA.a hsva))).

Definition onDidOpacityChange (model : ColorPickerModel) (a : number) : ColorPickerModel :=
  let hsva := hsva (color model) in
  set_color model (mkColor (HSVA.mk (HSVA.h hsva) (HSVA.s hsva) (HSVA.v hsva) a)).

Definition onDidHueChange (model : ColorPickerModel) (value : number) : ColorPickerModel :=
  let hsva := hsva (color model) in
  let h := ($1 - value) * $360 in
  set_color model
    (mkColor (HSVA.mk (if h === $360 then $0 else h)
                      (HSVA.s hsva) (HSVA.v hsva) (HSVA.a hsva))).

End AbstractColorPickerBody.

(** ** Pointer events and what a surface fires *)

(** The target of a pointer event as the handlers tell it apart: not
    an Element, the handle of the surface (the selection circle of the
    box, the slider of a strip), or another element. *)
Inductive EventTarget : Type := NotElement | Handle | OtherElement.

Record PointerEvent : Type := mkPointerEvent {
  target : EventTarget;
  offsetX : number; offsetY : number;
  pageX : number; pageY : number
}.

(** What a surface fires: [DidChange] on its _onDidChange emitter,
    [ColorFlushed] on its _onColorFlushed emitter. *)
Inductive Fired (A : Type) : Type :=
| DidChange (payload : A)
| ColorFlushed.
Arguments DidChange {A} payload.
Arguments ColorFlushed {A}.

Definition is_flush {A} (f : Fired A) : bool :=
  match f with ColorFlushed => true | DidChange _ => false end.

(** Modelled from the spec: GlobalPointerMoveMonitor is outside the
    excerpt.  Per the spec a pointer-down begins a modal pointer
    capture, every pointer-move while captured reaches the move
    callback, and pointer-up ends the capture.  A monitor keeps the
    page position of the surface read when the drag began. *)
Record GlobalPointerMoveMonitor : Type := mkMonitor {
  origin_left : number;
  origin_top : number;
  isMonitoring : bool
}.

Definition startMonitoring (left top : number) : GlobalPointerMoveMonitor :=
  mkMonitor left top true.

Definition stopMonitoring (m : GlobalPointerMoveMonitor) : GlobalPointerMoveMonitor :=
  mkMonitor (origin_left m) (origin_top m) false.

Definition is_element (t : EventTarget) : bool :=
  match t with NotElement => false | _ => true end.

Definition is_handle (t : EventTarget) : bool :=
  match t with Handle => true | _ => false end.

(** ** SaturationBox *)
Module SaturationBox.

Record t : Type := mk {
  width : number;
  height : number;
  (** the field [monitor] *)
  monitor : option GlobalPointerMoveMonitor;
  (** monitors of earlier pointer-downs that a later pointer-down
      replaced in the field while they were still capturing *)
  replaced : list GlobalPointerMoveMonitor;
  (** pointer-up listeners on the document, not yet fired *)
  pointerUpListeners : nat;
  (** selection.style.left and selection.style.top, in px *)
  selection_left : number;
  selection_top : number;
  (** how many times the canvas was painted *)
  paints : nat
}.

Definition Emitted : Type := Fired (number * number).

Definition paintSelection (b : t) (s v : number) : t :=
  mk (width b) (height b) (monitor b) (replaced b) (pointerUpListeners b)
     (s * width b) (height b - v * height b) (paints b).

Definition paint (b : t) : t :=
  mk (width b) (height b) (monitor b) (replaced b) (pointerUpListeners b)
     (selection_left b) (selection_top b) (S (paints b)).

Definition onDidChangePosition (b : t) (left top : number) : t * list Emitted :=
  let s := Math_max $0 (Math_min $1 (left / width b)) in
  let v := Math_max $0 (Math_min $1 ($1 - top / height b)) in
  (paintSelection b s v, [DidChange (s, v)]).

(** [layout]: the measured offsetWidth and offsetHeight are given. *)
Definition layout (b : t) (offsetWidth offsetHeight : number) (model : ColorPickerModel) : t :=
  let b := mk offsetWidth offsetHeight (monitor b) (replaced b) (pointerUpListeners b)
              (selection_left b) (selection_top b) (paints b) in
  let b := paint b in
  let hsva := hsva (color model) in
  paintSelection b (HSVA.s hsva) (HSVA.v hsva).

(** The constructor, up to the measured size of the node. *)
Definition create (offsetWidth offsetHeight : number) (model : ColorPickerModel) : t :=
  layout (mk $0 $0 None [] 0 $0 $0 0) offsetWidth offsetHeight model.

Definition set_monitor (b : t) (m : option GlobalPointerMoveMonitor)
  (old : list GlobalPointerMoveMonitor) (listeners : nat) : t :=
  mk (width b) (height b) m old listeners (selection_left b) (selection_top b) (paints b).

(** [onPointerDown e]; [origin] is dom.getDomNodePagePosition of the node. *)
Definition onPointerDown (b : t) (e : PointerEvent) (origin : number * number)
  : t * list Emitted :=
  if negb (is_element (target e)) then (b, [])
  else
    let old := match monitor b with Some m => replaced b ++ [m] | None => replaced b end in
    let '(b, out) :=
      if negb (is_handle (target e))
      then onDidChangePosition b (offsetX e) (offsetY e)
      else (b, []) in
    (set_monitor b (Some (startMonitoring (fst origin) (snd origin))) old
                 (S (pointerUpListeners b)), out).

(** The move callback of one capturing monitor. *)
Definition moveCallback (e : PointerEvent) (acc : t * list Emitted)
  (m : GlobalPointerMoveMonitor) : t * list Emitted :=
  if isMonitoring m
  then
    let '(b, out) := onDidChangePosition (fst acc)
                       (pageX e - origin_left m) (pageY e - origin_top m) in
    (b, snd acc ++ out)
  else acc.

(** A pointer-move anywhere: every capturing monitor calls back. *)
Definition onPointerMove (b : t) (e : PointerEvent) : t * list Emitted :=
  let monitors := replaced b ++ match monitor b with Some m => [m] | None => [] end in
  fold_left (moveCallback e) monitors (b, []).

(** A pointer-up on the document: the capture of every monitor ends,
    and every pending listener fires _onColorFlushed, disposes itself,
    stops the monitor of the field and clears the field. *)
Definition onPointerUp (b : t) : t * list Emitted :=
  let b := set_monitor b (option_map stopMonitoring (monitor b)) [] (pointerUpListeners b) in
  match pointerUpListeners b with
  | O => (b, [])
  | S _ => (set_monitor b None [] 0, repeat ColorFlushed (pointerUpListeners b))
  end.

Definition onDidChangeColor (b : t) (color : Color) : t :=
  match monitor b with
  | Some m =>
      if isMonitoring m then b
      else let hsva := hsva color in paintSelection (paint b) (HSVA.s hsva) (HSVA.v hsva)
  | None => let hsva := hsva color in paintSelection (paint b) (HSVA.s hsva) (HSVA.v hsva)
  end.

End SaturationBox.

(** ** Strip, HueStrip and OpacityStrip *)
Module Strip.

(** The two subclasses of the abstract class. *)
Inductive Kind : Type := HueStrip | OpacityStrip.

Record t : Type := mk {
  kind : Kind;
  height : number;
  (** slider.style.top, in px *)
  slider_top : number;
  (** the class 'grabbing' on the node *)
  grabbing : bool;
  (** one entry per pointer-down whose pointer-up listener has not
      fired yet: the monitor created by that pointer-down *)
  drags : list GlobalPointerMoveMonitor;
  (** the colour the overlay gradient was last computed from *)
  overlay : option Color
}.

Definition Emitted : Type := Fired number.

(** [getValue], abstract in Strip, as the subclasses implement it. *)
Definition getValue (k : Kind) (color : Color) : number :=
  match k with
  | HueStrip => $1 - HSVA.h (hsva color) / $360
  | OpacityStrip => HSVA.a (hsva color)
  end.

Definition updateSliderPosition (st : t) (value : number) : t :=
  mk (kind st) (height st) (($1 - value) * height st) (grabbing st) (drags st) (overlay st).

Definition onDidChangeTop (st : t) (top : number) : t * list Emitted :=
  let value := Math_max $0 (Math_min $1 ($1 - top / height st)) in
  (updateSliderPosition st value, [DidChange value]).

(** [onDidChangeColor]: Strip's method, and OpacityStrip's override
    that calls it and then recomputes the overlay. *)
Definition onDidChangeColor (st : t) (color : Color) : t :=
  let value := getValue (kind st) color in
  let st := updateSliderPosition st value in
  match kind st with
  | HueStrip => st
  | OpacityStrip =>
      mk (kind st) (height st) (slider_top st) (grabbing st) (drags st) (Some color)
  end.

(** [layout]: offsetHeight of the node and of the slider are given. *)
Definition layout (st : t) (offsetHeight sliderHeight : number) (model : ColorPickerModel) : t :=
  let st := mk (kind st) (offsetHeight - sliderHeight) (slider_top st) (grabbing st)
               (drags st) (overlay st) in
  updateSliderPosition st (getValue (kind st) (color model)).

(** The constructors, up to the measured heights. *)
Definition create (k : Kind) (offsetHeight sliderHeight : number) (model : ColorPickerModel) : t :=
  let st := layout (mk k $0 $0 false [] None) offsetHeight sliderHeight model in
  match k with
  | HueStrip => st
  | OpacityStrip => onDidChangeColor st (color model)
  end.

Definition set_drags (st : t) (g : bool) (ds : list GlobalPointerMoveMonitor) : t :=
  mk (kind st) (height st) (slider_top st) g ds (overlay st).

Definition onPointerDown (st : t) (e : PointerEvent) (origin : number * number)
  : t * list Emitted :=
  if negb (is_element (target e)) then (st, [])
  else
    let st := set_drags st true (drags st) in
    let '(st, out) :=
      if negb (is_handle (target e))
      then onDidChangeTop st (offsetY e)
      else (st, []) in
    (set_drags st (grabbing st) (drags st ++ [startMonitoring (fst origin) (snd origin)]), out).

Definition moveCallback (e : PointerEvent) (acc : t * list Emitted)
  (m : GlobalPointerMoveMonitor) : t * list Emitted :=
  if isMonitoring m
  then
    let '(st, out) := onDidChangeTop (fst acc) (pageY e - origin_top m) in
    (st, snd acc ++ out)
  else acc.

Definition onPointerMove (st : t) (e : PointerEvent) : t * list Emitted :=
  fold_left (moveCallback e) (drags st) (st, []).

(** A pointer-up on the document: every pending listener fires
    _onColorFlushed, disposes itself, stops its monitor and removes
    the class 'grabbing'. *)
Definition onPointerUp (st : t) : t * list Emitted :=
  match drags st with
  | [] => (st, [])
  | _ :: _ => (set_drags st false [], repeat ColorFlushed (length (drags st)))
  end.

End Strip.

(** ** Pointer gestures on a surface *)

Inductive Gesture : Type :=
| PointerDown (e : PointerEvent) (origin : number * number)
| PointerMove (e : PointerEvent)
| PointerUp.

(** A drag sequence: a pointer-down on an element of the surface (on
    its handle or not), pointer-moves, a pointer-up. *)
Record Drag : Type := mkDrag {
  on_handle : bool;
  down_at : number * number;
  origin_at : number * number;
  moves : list (number * number)
}.

Definition move_event (p : number * number) : Gesture :=
  PointerMove (mkPointerEvent OtherElement $0 $0 (fst p) (snd p)).

Definition drag_events (d : Drag) : list Gesture :=
  PointerDown (mkPointerEvent (if on_handle d then Handle else OtherElement)
                              (fst (down_at d)) (snd (down_at d))
                              (fst (down_at d)) (snd (down_at d)))
              (origin_at d)
  :: map move_event (moves d) ++ [PointerUp].

Definition box_step (b : SaturationBox.t) (g : Gesture)
  : SaturationBox.t * list SaturationBox.Emitted :=
  match g with
  | PointerDown e origin => SaturationBox.onPointerDown b e origin
  | PointerMove e => SaturationBox.onPointerMove b e
  | PointerUp => SaturationBox.onPointerUp b
  end.

Definition strip_step (st : Strip.t) (g : Gesture) : Strip.t * list Strip.Emitted :=
  match g with
  | PointerDown e origin => Strip.onPointerDown st e origin
  | PointerMove e => Strip.onPointerMove st e
  | PointerUp => Strip.onPointerUp st
  end.

(** Runs the gestures in order; the result lists, gesture by gesture,
    what the surface fired. *)
Fixpoint run {S E : Type} (step : S -> Gesture -> S * list E) (s : S) (gs : list Gesture)
  : S * list (list E) :=
  match gs with
  | [] => (s, [])
  | g :: gs' =>
      let '(s1, out) := step s g in
      let '(s2, outs) := run step s1 gs' in
      (s2, out :: outs)
  end.

(** How many times onColorFlushed fired. *)
Definition count_flushes {E} (outs : list (list (Fired E))) : nat :=
  length (filter is_flush (concat outs)).

(** ** Editor synchronisation of the picker *)

(** What a picker asks of its collaborators, in the order of the calls:
    the colour provider, the text model and the editor, the render
    context of the hover. *)
Inductive Call : Type :=
| GetColorPresentations (c : Color) (r : Range)
| SetTrackedRange (r : Range)
| ExecuteEdits (source : string) (edits : list ISingleEditOperation)
| PushUndoStop
| GetTrackedRange
| ContextHide
| EditorFocus.

Definition is_edit (c : Call) : bool :=
  match c with ExecuteEdits _ _ => true | _ => false end.

Definition is_hide (c : Call) : bool :=
  match c with ContextHide => true | _ => false end.

Definition is_undo_stop (c : Call) : bool :=
  match c with PushUndoStop => true | _ => false end.

Definition set_colorPresentations (m : ColorPickerModel) (ps : list IColorPresentation)
  : ColorPickerModel :=
  mkModel (color m) ps (presentationIndex m).

(** Modelled from the spec: the class ColorPickerModel is outside the
    excerpt.  Its getter [presentation] is the entry of
    colorPresentations at presentationIndex, the index that
    selectNextColorPresentation cycles through; there is none when the
    list has no entry at the index, which is why
    ColorPickerHeader.onDidChangePresentation tests the getter before
    it reads the label. *)
Definition presentation (model : ColorPickerModel) : option IColorPresentation :=
  nth_error (colorPresentations model) (presentationIndex model).

(** What a call ends with: a value, or the TypeError of reading a
    property of undefined. *)
Inductive Outcome (A : Type) : Type :=
| Value (a : A)
| TypeError.
Arguments Value {A} a.
Arguments TypeError {A}.

Section AbstractColorPicker.

(** The primary edit of [_updateEditorModel], from the presentation it
    reads off the model. *)
Definition primaryEdit (range : Range) (pr : IColorPresentation) : ISingleEditOperation :=
  match textEdit pr with
  | Some e => e
  | None => mkEdit range (label pr) false
  end.

Definition textEdits (range : Range) (pr : IColorPresentation) : list ISingleEditOperation :=
  primaryEdit range pr ::
  match additionalTextEdits pr with
  | Some more => more
  | None => []
  end.

Section OverPicker.

(** A picker: its state, how a call is recorded in it, and its own
    listener of onDidChangeModelContent. *)
Variable Picker : Type.
Variable record : Call -> Picker -> Picker.
Variable onDidChangeModelContent : Picker -> Picker.

(** Modelled from the spec: the editor and its executeEdits are outside
    the excerpt.  Applying the computed edit itself triggers a
    buffer-change event: the call is recorded and the listener of
    onDidChangeModelContent runs before the call returns. *)
Definition executeEdits (source : string) (edits : list ISingleEditOperation)
  (p : Picker) : Picker :=
  onDidChangeModelContent (record (ExecuteEdits source edits) p).

(** [_updateEditorModel editor range model]; [tracked] is what
    _getTrackedRange answers for the range tracked before the edit.
    The first statement after the empty array reads
    model.presentation.textEdit: without a presentation it throws,
    before anything is asked of the editor. *)
Definition _updateEditorModel (tracked : option Range) (range : Range)
  (model : ColorPickerModel) (p : Picker) : Outcome Range * Picker :=
  match presentation model with
  | None => (TypeError, p)
  | Some pr =>
      let edit := primaryEdit range pr in
      let replaceRange := edit_range edit in
      let p := record (SetTrackedRange replaceRange) p in
      let p := executeEdits "colorpicker" (textEdits range pr) p in
      let p := record PushUndoStop p in
      let p := record GetTrackedRange p in
      (Value (match tracked with Some r => r | None => replaceRange end), p)
  end.

End OverPicker.

(** *** HoverColorPicker *)

Record HoverColorPicker : Type := mkHover {
  (** the variables [range] and [editorUpdatedByColorPicker] that the
      listeners of [_registerListeners] close over *)
  range : Range;
  editorUpdatedByColorPicker : bool;
  hover_model : ColorPickerModel;
  hover_calls : list Call
}.

Definition hover_record (c : Call) (p : HoverColorPicker) : HoverColorPicker :=
  mkHover (range p) (editorUpdatedByColorPicker p) (hover_model p) (hover_calls p ++ [c]).

(** [_hide]: context.hide() then editor.focus(). *)
Definition hover_hide (p : HoverColorPicker) : HoverColorPicker :=
  hover_record EditorFocus (hover_record ContextHide p).

(** The listener of editor.onDidChangeModelContent. *)
Definition hover_onDidChangeModelContent (p : HoverColorPicker) : HoverColorPicker :=
  if editorUpdatedByColorPicker p
  then mkHover (range p) false (hover_model p) (hover_calls p)
  else hover_hide p.

(** [_updateColorPresentations] up to its await: the request. *)
Definition hover_requestPresentations (color : Color) (p : HoverColorPicker)
  : HoverColorPicker :=
  hover_record (GetColorPresentations color (range p)) p.

(** [_updateColorPresentations] after its await: the answer of the
    provider, or [] in its absence, is stored in the model. *)
Definition hover_storePresentations (answer : option (list IColorPresentation))
  (p : HoverColorPicker) : HoverColorPicker :=
  let ps := match answer with Some ps => ps | None => [] end in
  mkHover (range p) (editorUpdatedByColorPicker p)
          (set_colorPresentations (hover_model p) ps) (hover_calls p).

(** The listener of colorModel.onColorFlushed after its await: the
    flag is raised, then [_updateEditorModel] runs and its result is
    assigned to [range]; when it throws the listener ends there, with
    the flag raised and the range as it was. *)
Definition hover_flushedContinues (tracked : option Range) (p : HoverColorPicker)
  : HoverColorPicker :=
  let p := mkHover (range p) true (hover_model p) (hover_calls p) in
  match _updateEditorModel hover_record hover_onDidChangeModelContent
          tracked (range p) (hover_model p) p with
  | (Value r, p) => mkHover r (editorUpdatedByColorPicker p) (hover_model p) (hover_calls p)
  | (TypeError, p) => p
  end.

(** What happens to a hover picker. *)
Inductive HoverEvent : Type :=
(** the model's colour is set and onDidChangeColor fires *)
| ColorChanged (c : Color)
(** model.flushColor(): onColorFlushed fires, carrying the current colour *)
| Flushed
(** a pending getColorPresentations settles *)
| PresentationsArrive (answer : option (list IColorPresentation))
(** a flushed listener resumes after its await *)
| FlushedContinues (tracked : option Range)
(** the buffer is changed by something other than the picker *)
| ExternalContentChange.

Definition hover_step (p : HoverColorPicker) (e : HoverEvent) : HoverColorPicker :=
  match e with
  | ColorChanged c =>
      let p := mkHover (range p) (editorUpdatedByColorPicker p)
                       (set_color (hover_model p) c) (hover_calls p) in
      hover_requestPresentations c p
  | Flushed => hover_requestPresentations (color (hover_model p)) p
  | PresentationsArrive answer => hover_storePresentations answer p
  | FlushedContinues tracked => hover_flushedContinues tracked p
  | ExternalContentChange => hover_onDidChangeModelContent p
  end.

Definition hover_run (p : HoverColorPicker) (es : list HoverEvent) : HoverColorPicker :=
  fold_left hover_step es p.

(** One flushed event handled from the fetch to the end of the edit,
    nothing else happening in between. *)
Definition hover_onColorFlushed (answer : option (list IColorPresentation))
  (tracked : option Range) (p : HoverColorPicker) : HoverColorPicker :=
  hover_run p [Flushed; PresentationsArrive answer; FlushedContinues tracked].

Definition is_external (e : HoverEvent) : bool :=
  match e with ExternalContentChange => true | _ => false end.

(** The picker as [_registerListeners] leaves it. *)
Definition hover_create (colorHover_range : Range) (model : ColorPickerModel)
  : HoverColorPicker :=
  mkHover colorHover_range false model [].

(** Every continuation of a flushed listener among the events finds a
    presentation in the model when it runs. *)
Fixpoint flushesFindPresentation (p : HoverColorPicker) (es : list HoverEvent) : bool :=
  match es with
  | [] => true
  | e :: es' =>
      match e with
      | FlushedContinues _ =>
          match presentation (hover_model p) with Some _ => true | None => false end
      | _ => true
      end
      && flushesFindPresentation (hover_step p e) es'
  end.

(** The calls a step added to the log. *)
Definition new_calls (before after : list Call) : list Call :=
  skipn (length before) after.

(** *** StandaloneColorPicker *)

Record StandaloneColorPicker : Type := mkStandalone {
  _color : option Color;
  (** colorHover.range, which the listeners and updateEditorModel read *)
  standalone_range : Range;
  standalone_model : ColorPickerModel;
  standalone_calls : list Call
}.

Definition standalone_record (c : Call) (p : StandaloneColorPicker) : StandaloneColorPicker :=
  mkStandalone (_color p) (standalone_range p) (standalone_model p) (standalone_calls p ++ [c]).

Definition standalone_hide (p : StandaloneColorPicker) : StandaloneColorPicker :=
  standalone_record EditorFocus (standalone_record ContextHide p).

Definition standalone_requestPresentations (color : Color) (p : StandaloneColorPicker)
  : StandaloneColorPicker :=
  standalone_record (GetColorPresentations color (standalone_range p)) p.

Definition standalone_storePresentations (answer : option (list IColorPresentation))
  (p : StandaloneColorPicker) : StandaloneColorPicker :=
  let ps := match answer with Some ps => ps | None => [] end in
  mkStandalone (_color p) (standalone_range p)
               (set_colorPresentations (standalone_model p) ps) (standalone_calls p).

(** [_registerListeners], run by the constructor. *)
Definition standalone_create (colorHover_range : Range) (model : ColorPickerModel)
  : StandaloneColorPicker :=
  standalone_requestPresentations (color model)
    (mkStandalone (Some (color model)) colorHover_range model []).

(** The listener of colorModel.onColorFlushed. *)
Definition standalone_onColorFlushed (c : Color) (p : StandaloneColorPicker)
  : StandaloneColorPicker :=
  mkStandalone (Some c) (standalone_range p) (standalone_model p) (standalone_calls p).

(** The listener of editor.onDidChangeModelContent. *)
Definition standalone_onDidChangeModelContent (p : StandaloneColorPicker)
  : StandaloneColorPicker :=
  standalone_hide p.

(** The listener of colorModel.onDidChangeColor. *)
Definition standalone_onDidChangeColor (c : Color) (p : StandaloneColorPicker)
  : StandaloneColorPicker :=
  standalone_requestPresentations c p.

(** [updateEditorModel colorHover], run without interruption;
    [hasModel] is editor.hasModel().  The range that
    [_updateEditorModel] returns goes to a local variable, so the
    picker is the same whether it returns or throws, up to the calls
    made. *)
Definition updateEditorModel (hasModel : bool) (answer : option (list IColorPresentation))
  (tracked : option Range) (p : StandaloneColorPicker) : StandaloneColorPicker :=
  if negb hasModel then p
  else
    match _color p with
    | Some c =>
        let p := standalone_requestPresentations c p in
        let p := standalone_storePresentations answer p in
        snd (_updateEditorModel standalone_record standalone_onDidChangeModelContent
               tracked (standalone_range p) (standalone_model p) p)
    | None => p
    end.

Inductive StandaloneEvent : Type :=
| SColorChanged (c : Color)
| SFlushed
| SPresentationsArrive (answer : option (list IColorPresentation))
| SExternalContentChange
| SUpdateEditorModel (hasModel : bool) (answer : option (list IColorPresentation))
                     (tracked : option Range).

Definition standalone_step (p : StandaloneColorPicker) (e : StandaloneEvent)
  : StandaloneColorPicker :=
  match e with
  | SColorChanged c =>
      let p := mkStandalone (_color p) (standalone_range p)
                            (set_color (standalone_model p) c) (standalone_calls p) in
      standalone_onDidChangeColor c p
  | SFlushed => standalone_onColorFlushed (color (standalone_model p)) p
  | SPresentationsArrive answer => standalone_storePresentations answer p
  | SExternalContentChange => standalone_onDidChangeModelContent p
  | SUpdateEditorModel hasModel answer tracked => updateEditorModel hasModel answer tracked p
  end.

Definition standalone_run (p : StandaloneColorPicker) (es : list StandaloneEvent)
  : StandaloneColorPicker :=
  fold_left standalone_step es p.





End AbstractColorPicker.


(** ** The hover controller *)
Module ModesHoverController.

Inductive MouseTargetType : Type :=
| UNKNOWN | TEXTAREA | GUTTER_GLYPH_MARGIN | GUTTER_LINE_NUMBERS
| GUTTER_LINE_DECORATIONS | GUTTER_VIEW_ZONE | CONTENT_TEXT | CONTENT_EMPTY
| CONTENT_VIEW_ZONE | CONTENT_WIDGET | OVERVIEW_RULER | SCROLLBAR
| OVERLAY_WIDGET | OUTSIDE_EDITOR.

(** [target.detail] as the controller compares it: the ID of the
    content hover widget, the ID of the glyph hover widget, the data of
    an empty-content target (whether the mouse is close enough to the
    text of a line for the hover to kick in), or anything else. *)
Inductive TargetDetail : Type :=
| ContentHoverWidgetID
| GlyphHoverWidgetID
| EmptyContentData (closeToText : bool)
| OtherDetail.

Record IEditorMouseEvent : Type := mkMouseEvent {
  targetType : MouseTargetType;
  detail : TargetDetail;
  target_range : option Range;
  (** target.position.lineNumber *)
  target_line : option nat;
  (** the mouse is on a colour decorator of one column *)
  hoverOnColorDecorator : bool;
  (** view?.getSelection()?.isCollapsed *)
  selectionIsCollapsed : option bool
}.

Record IKeyboardEvent : Type := mkKeyEvent {
  isEscape : bool;
  isModifierKey : bool
}.

Record IScrollEvent : Type := mkScrollEvent {
  scrollTopChanged : bool;
  scrollLeftChanged : bool
}.

(** Modelled from the spec: ModesContentHoverWidget is outside the
    excerpt.  The widget is showing or hidden, may hold an open colour
    picker, may be in the middle of a resize, and shows after a delay
    at the range it was last asked to; hiding it closes the picker
    inside it. *)
Record ModesContentHoverWidget : Type := mkContentWidget {
  content_visible : bool;
  colorPickerVisible : bool;
  isResizing : bool;
  showingAt : option Range
}.

(** Modelled from the spec: ModesGlyphHoverWidget is outside the
    excerpt.  The widget is showing or hidden at a line of the glyph
    margin. *)
Record ModesGlyphHoverWidget : Type := mkGlyphWidget {
  glyph_visible : bool;
  glyph_line : option nat
}.

Definition content_hide (w : ModesContentHoverWidget) : ModesContentHoverWidget :=
  mkContentWidget false false (isResizing w) None.

Definition content_startShowingAt (r : Range) (w : ModesContentHoverWidget)
  : ModesContentHoverWidget :=
  mkContentWidget (content_visible w) (colorPickerVisible w) (isResizing w) (Some r).

Definition glyph_hide (w : ModesGlyphHoverWidget) : ModesGlyphHoverWidget :=
  mkGlyphWidget false None.

Definition glyph_startShowingAt (line : nat) (w : ModesGlyphHoverWidget)
  : ModesGlyphHoverWidget :=
  mkGlyphWidget true (Some line).

Record t : Type := mk {
  _contentWidget : option ModesContentHoverWidget;
  _glyphWidget : option ModesGlyphHoverWidget;
  _isMouseDown : bool;
  _hoverClicked : bool;
  _isHoverEnabled : bool;
  _isHoverSticky : bool;
  _isCurrentSticky : bool
}.

(** The constructor; [enabled] and [sticky] are the editor's hover options. *)
Definition create (enabled sticky : bool) : t :=
  mk None None false false enabled sticky false.

(** [this._contentWidget?.isColorPickerVisible()], undefined read as false. *)
Definition contentColorPickerVisible (c : t) : bool :=
  match _contentWidget c with
  | Some w => colorPickerVisible w
  | None => false
  end.

Definition contentIsResizing (c : t) : bool :=
  match _contentWidget c with
  | Some w => isResizing w
  | None => false
  end.

Definition _hideWidgets (c : t) : t :=
  if _isMouseDown c && _hoverClicked c && contentColorPickerVisible c then c
  else
    mk (option_map content_hide (_contentWidget c))
       (option_map glyph_hide (_glyphWidget c))
       (_isMouseDown c) false (_isHoverEnabled c) (_isHoverSticky c) false.

(** The handler [hideWidgetsEventHandler] of [_hookEvents]. *)
Definition hideWidgetsEventHandler (c : t) : t :=
  if negb (_isCurrentSticky c) then _hideWidgets c else c.

Definition _onEditorScrollChanged (c : t) (e : IScrollEvent) : t :=
  if scrollTopChanged e || scrollLeftChanged e then _hideWidgets c else c.

Definition is_content_widget (ty : MouseTargetType) : bool :=
  match ty with CONTENT_WIDGET => true | _ => false end.

Definition is_overlay_widget (ty : MouseTargetType) : bool :=
  match ty with OVERLAY_WIDGET => true | _ => false end.

Definition is_content_hover_id (d : TargetDetail) : bool :=
  match d with ContentHoverWidgetID => true | _ => false end.

Definition is_glyph_hover_id (d : TargetDetail) : bool :=
  match d with GlyphHoverWidgetID => true | _ => false end.

Definition set_mouse (c : t) (down clicked : bool) : t :=
  mk (_contentWidget c) (_glyphWidget c) down clicked
     (_isHoverEnabled c) (_isHoverSticky c) (_isCurrentSticky c).

Definition _onEditorMouseDown (c : t) (e : IEditorMouseEvent) : t :=
  let c := set_mouse c true (_hoverClicked c) in
  if is_content_widget (targetType e) && is_content_hover_id (detail e)
  then set_mouse c (_isMouseDown c) true
  else if is_overlay_widget (targetType e) && is_glyph_hover_id (detail e)
  then c
  else
    let c :=
      if negb (is_overlay_widget (targetType e)) && negb (is_glyph_hover_id (detail e))
      then set_mouse c (_isMouseDown c) false
      else c in
    _hideWidgets c.

Definition _onEditorMouseUp (c : t) (e : IEditorMouseEvent) : t :=
  set_mouse c false (_hoverClicked c).

Definition _initContentWidget (c : t) : t :=
  mk (Some (mkContentWidget false false false None)) (_glyphWidget c)
     (_isMouseDown c) (_hoverClicked c) (_isHoverEnabled c) (_isHoverSticky c)
     (_isCurrentSticky c).

Definition set_widgets (c : t) (cw : option ModesContentHoverWidget)
  (gw : option ModesGlyphHoverWidget) : t :=
  mk cw gw (_isMouseDown c) (_hoverClicked c) (_isHoverEnabled c) (_isHoverSticky c)
     (_isCurrentSticky c).

(** The range the hover is shown at: shifted by one column on a colour
    decorator. *)
Definition showAtRange (e : IEditorMouseEvent) (r : Range) : Range :=
  if hoverOnColorDecorator e
  then mkRange (startLineNumber r) (startColumn r + 1) (endLineNumber r) (endColumn r + 1)
  else r.

Definition selection_not_collapsed (e : IEditorMouseEvent) : bool :=
  negb (match selectionIsCollapsed e with Some b => b | None => false end).

Definition _onEditorMouseMove (c : t) (e : IEditorMouseEvent) : t :=
  let onContentHover := is_content_widget (targetType e) && is_content_hover_id (detail e) in
  if contentIsResizing c then c
  else if _isMouseDown c && _hoverClicked c then c
  else if _isHoverSticky c && onContentHover then c
  else if _isHoverSticky c && selection_not_collapsed e then c
  else if negb (_isHoverSticky c) && onContentHover && contentColorPickerVisible c then c
  else if _isHoverSticky c && is_overlay_widget (targetType e) && is_glyph_hover_id (detail e)
  then c
  else if _isCurrentSticky c then c
  else
    let ty :=
      match targetType e, detail e with
      | CONTENT_EMPTY, EmptyContentData true => CONTENT_TEXT
      | ty, _ => ty
      end in
    match ty with
    | CONTENT_TEXT =>
        let c := set_widgets c (_contentWidget c) (option_map glyph_hide (_glyphWidget c)) in
        match _isHoverEnabled c, target_range e with
        | true, Some r =>
            let c := match _contentWidget c with Some _ => c | None => _initContentWidget c end in
            set_widgets c (option_map (content_startShowingAt (showAtRange e r)) (_contentWidget c))
                        (_glyphWidget c)
        | _, _ => c
        end
    | GUTTER_GLYPH_MARGIN =>
        let c := set_widgets c (option_map content_hide (_contentWidget c)) (_glyphWidget c) in
        match _isHoverEnabled c, target_line e with
        | true, Some line =>
            let gw := match _glyphWidget c with
                      | Some w => w
                      | None => mkGlyphWidget false None
                      end in
            set_widgets c (_contentWidget c) (Some (glyph_startShowingAt line gw))
        | _, _ => c
        end
    | _ => _hideWidgets c
    end.

Definition _onKeyDown (c : t) (e : IKeyboardEvent) : t :=
  if _isCurrentSticky c && negb (isEscape e) then c
  else if negb (isModifierKey e) then _hideWidgets c
  else c.

Definition _onWidgetBlur (c : t) : t :=
  if _isCurrentSticky c then _hideWidgets c else c.

(** The listener of editor.onMouseLeave registered by [_hookEvents]. *)
Definition onMouseLeave (c : t) : t :=
  if negb (_isCurrentSticky c) && negb (contentIsResizing c)
  then hideWidgetsEventHandler c
  else c.

Definition showContentHover (c : t) (r : Range) (sticky : option bool) : t :=
  let st := match sticky with Some b => b | None => false end in
  let c := mk (_contentWidget c) (_glyphWidget c) (_isMouseDown c) (_hoverClicked c)
              (_isHoverEnabled c) (_isHoverSticky c) st in
  let c := match _contentWidget c with Some _ => c | None => _initContentWidget c end in
  set_widgets c (option_map (content_startShowingAt r) (_contentWidget c)) (_glyphWidget c).

(** Modelled from the spec: the rendering of the content hover is
    outside the excerpt.  Once the participants have answered, the
    widget shows its parts, with an open colour picker when a colour
    participant contributed one. *)
Definition contentRendered (c : t) (withColorPicker : bool) : t :=
  set_widgets c
    (option_map (fun w => mkContentWidget true withColorPicker (isResizing w) (showingAt w))
                (_contentWidget c))
    (_glyphWidget c).

(** What reaches the controller. *)
Inductive Event : Type :=
| MouseDown (e : IEditorMouseEvent)
| MouseUp (e : IEditorMouseEvent)
| MouseMove (e : IEditorMouseEvent)
| KeyDown (e : IKeyboardEvent)
| MouseLeave
| DidChangeModel
| DidScrollChange (e : IScrollEvent)
| WidgetBlur
| ShowContentHover (r : Range) (sticky : option bool)
| ContentRendered (withColorPicker : bool).

(** The dispatch that [_hookEvents] sets up: mouse-down and mouse-up
    are listened to only when the hover is enabled. *)
Definition step (c : t) (ev : Event) : t :=
  match ev with
  | MouseDown e => if _isHoverEnabled c then _onEditorMouseDown c e else c
  | MouseUp e => if _isHoverEnabled c then _onEditorMouseUp c e else c
  | MouseMove e => _onEditorMouseMove c e
  | KeyDown e => _onKeyDown c e
  | MouseLeave => onMouseLeave c
  | DidChangeModel => hideWidgetsEventHandler c
  | DidScrollChange e => _onEditorScrollChanged c e
  | WidgetBlur => _onWidgetBlur c
  | ShowContentHover r sticky => showContentHover c r sticky
  | ContentRendered withColorPicker => contentRendered c withColorPicker
  end.

Definition run (c : t) (evs : list Event) : t := fold_left step evs c.

(** Both widgets, where they exist, are hidden. *)
Definition widgetsHidden (c : t) : bool :=
  match _contentWidget c with Some w => negb (content_visible w) | None => true end
  && match _glyphWidget c with Some w => negb (glyph_visible w) | None => true end.

(** The event is one that leads to a call of [_hideWidgets] or is a
    mouse move: no mouse button changes, nothing is shown anew. *)
Definition during_gesture (ev : Event) : bool :=
  match ev with
  | MouseMove _ | KeyDown _ | MouseLeave | DidChangeModel | DidScrollChange _ | WidgetBlur => true
  | _ => false
  end.

(** The last mouse-down among the events landed on the content hover
    widget. *)
Definition lastMouseDownOnContentHover (evs : list Event) : bool :=
  match find (fun ev => match ev with MouseDown _ => true | _ => false end) (rev evs) with
  | Some (MouseDown e) => is_content_widget (targetType e) && is_content_hover_id (detail e)
  | _ => false
  end.

End ModesHoverController.

(** ** The accessible views of the hover *)
Module HoverAccessibility.

(** A code editor and a hover controller, by identity. *)
Definition ICodeEditor : Type := nat.
Definition HoverController : Type := nat.

Record ICodeEditorService : Type := mkEditorService {
  getActiveCodeEditor : option ICodeEditor;
  getFocusedCodeEditor : option ICodeEditor
}.

(** The services the accessor gives access to; [HoverController_get]
    is HoverController.get. *)
Record ServicesAccessor : Type := mkAccessor {
  codeEditorService : ICodeEditorService;
  HoverController_get : ICodeEditor -> option HoverController
}.

(** The providers [createInstance] builds. *)
Inductive AdvancedContentProvider : Type :=
| HoverAccessibleViewProvider (editor : ICodeEditor) (controller : HoverController)
| HoverAccessibilityHelpProvider (controller : HoverController).

(** A call either throws an Error with a message or returns. *)
Inductive Completion (A : Type) : Type :=
| Throws (message : string)
| Returns (value : A).
Arguments Throws {A} message.
Arguments Returns {A} value.

(** [a || b] on editors. *)
Definition or_else (a b : option ICodeEditor) : option ICodeEditor :=
  match a with Some _ => a | None => b end.

(** HoverAccessibleView.getProvider; the state is the field [_provider]. *)
Definition HoverAccessibleView_getProvider (accessor : ServicesAccessor)
  (_provider : option AdvancedContentProvider)
  : Completion (option AdvancedContentProvider) * option AdvancedContentProvider :=
  let service := codeEditorService accessor in
  match or_else (getActiveCodeEditor service) (getFocusedCodeEditor service) with
  | None => (Throws "No active or focused code editor", _provider)
  | Some codeEditor =>
      match HoverController_get accessor codeEditor with
      | None => (Returns None, _provider)
      | Some hoverController =>
          let p := HoverAccessibleViewProvider codeEditor hoverController in
          (Returns (Some p), Some p)
      end
  end.

(** HoverAccessibilityHelp.getProvider. *)
Definition HoverAccessibilityHelp_getProvider (accessor : ServicesAccessor)
  : Completion (option AdvancedContentProvider) :=
  let service := codeEditorService accessor in
  match or_else (getActiveCodeEditor service) (getFocusedCodeEditor service) with
  | None => Throws "No active or focused code editor"
  | Some codeEditor =>
      match HoverController_get accessor codeEditor with
      | None => Returns None
      | Some hoverController => Returns (Some (HoverAccessibilityHelpProvider hoverController))
      end
  end.

Definition throws {A} (c : Completion A) : bool :=
  match c with Throws _ => true | Returns _ => false end.

End HoverAccessibility.

(** ** Concrete values used in examples *)

Definition red : Color := mkColor (HSVA.mk $0 $1 $1 $1).

Definition cyan : Color := mkColor (HSVA.mk $180 $1 $1 $1).

Definition hexRed : IColorPresentation := mkPresentation "#ff0000" None None.

Definition at_3_5_9 : Range := mkRange 3 5 3 9.

Definition redModel : ColorPickerModel := mkModel red [hexRed] 0.

(** ** Shapes of what a drag fires *)

(** The surface fired, gesture by gesture: on pointer-down one
    onDidChange, or nothing when the pointer went down on the handle;
    on every pointer-move one onDidChange; on pointer-up one
    onColorFlushed. *)
Definition drag_shape {E} (d : Drag) (outs : list (list (Fired E))) : Prop :=
  exists down moved,
    outs = down :: moved ++ [[ColorFlushed]]
    /\ (if on_handle d then down = [] else exists x, down = [DidChange x])
    /\ length moved = length (moves d)
    /\ Forall (fun out => exists x, out = [DidChange x]) moved.

(** No drag is in progress on the box. *)
Definition box_idle (b : SaturationBox.t) : Prop :=
  SaturationBox.monitor b = None
  /\ SaturationBox.replaced b = []
  /\ SaturationBox.pointerUpListeners b = 0%nat.

(** One drag is in progress on the box. *)
Definition box_dragging (b : SaturationBox.t) : Prop :=
  (exists m, SaturationBox.monitor b = Some m /\ isMonitoring m = true)
  /\ SaturationBox.replaced b = []
  /\ SaturationBox.pointerUpListeners b = 1%nat.

Definition strip_idle (st : Strip.t) : Prop := Strip.drags st = [].

Definition strip_dragging (st : Strip.t) : Prop :=
  exists m, Strip.drags st = [m] /\ isMonitoring m = true.

(** A mouse event on the content hover widget, the scroll of one line,
    and a controller whose content hover shows an open colour picker
    on which the mouse button went down. *)
Definition onContentHover : ModesHoverController.IEditorMouseEvent :=
  ModesHoverController.mkMouseEvent ModesHoverController.CONTENT_WIDGET
    ModesHoverController.ContentHoverWidgetID None None false (Some true).

Definition scrolledDown : ModesHoverController.IScrollEvent :=
  ModesHoverController.mkScrollEvent true false.

Definition pickerShown : ModesHoverController.t :=
  ModesHoverController.run (ModesHoverController.create true false)
    [ModesHoverController.ShowContentHover at_3_5_9 None;
     ModesHoverController.ContentRendered true].

Definition clickedOnPicker : ModesHoverController.t :=
  ModesHoverController.step pickerShown (ModesHoverController.MouseDown onContentHover).

(** * Further parts of the code *)

(** ** The hover controller: kinds of events *)

(** Events that a sticky hover lets pass: mouse moves, the mouse
    leaving the editor, a change of model, and keys other than a plain
    Escape. *)
Definition passes_sticky (ev : ModesHoverController.Event) : bool :=
  match ev with
  | ModesHoverController.MouseMove _
  | ModesHoverController.MouseLeave
  | ModesHoverController.DidChangeModel => true
  | ModesHoverController.KeyDown k =>
      negb (ModesHoverController.isEscape k) || ModesHoverController.isModifierKey k
  | _ => false
  end.

(** The event is the command that shows the content hover. *)
Definition is_show_command (ev : ModesHoverController.Event) : bool :=
  match ev with
  | ModesHoverController.ShowContentHover _ _ => true
  | _ => false
  end.

(** The event is the command that shows the content hover as sticky. *)
Definition is_sticky_command (ev : ModesHoverController.Event) : bool :=
  match ev with
  | ModesHoverController.ShowContentHover _ (Some true) => true
  | _ => false
  end.

(** The mouse event is neither on the content hover widget nor on an
    overlay widget nor on something that carries the ID of the glyph
    hover widget. *)
Definition away_from_widgets (e : ModesHoverController.IEditorMouseEvent) : bool :=
  negb (ModesHoverController.is_content_widget (ModesHoverController.targetType e)
        && ModesHoverController.is_content_hover_id (ModesHoverController.detail e))
  && negb (ModesHoverController.is_overlay_widget (ModesHoverController.targetType e))
  && negb (ModesHoverController.is_glyph_hover_id (ModesHoverController.detail e)).

(** The mouse event is on neither hover widget, but on an overlay
    widget or on something that carries the id of the glyph hover. *)
Definition on_other_widget (e : ModesHoverController.IEditorMouseEvent) : bool :=
  negb (ModesHoverController.is_content_widget (ModesHoverController.targetType e)
        && ModesHoverController.is_content_hover_id (ModesHoverController.detail e))
  && negb (ModesHoverController.is_overlay_widget (ModesHoverController.targetType e)
           && ModesHoverController.is_glyph_hover_id (ModesHoverController.detail e))
  && (ModesHoverController.is_overlay_widget (ModesHoverController.targetType e)
      || ModesHoverController.is_glyph_hover_id (ModesHoverController.detail e)).

(** The controller of a disabled hover before anything was shown: no
    widget, no mouse button recorded, not sticky. *)
Definition untouched (c : ModesHoverController.t) : Prop :=
  ModesHoverController._contentWidget c = None
  /\ ModesHoverController._glyphWidget c = None
  /\ ModesHoverController._isMouseDown c = false
  /\ ModesHoverController._hoverClicked c = false
  /\ ModesHoverController._isHoverEnabled c = false
  /\ ModesHoverController._isCurrentSticky c = false.

(** A sticky hover shown by the command, and a mouse event on the text
    of the editor. *)
Definition stickyShown : ModesHoverController.t :=
  ModesHoverController.run (ModesHoverController.create true true)
    [ModesHoverController.ShowContentHover at_3_5_9 (Some true);
     ModesHoverController.ContentRendered false].

Definition onText : ModesHoverController.IEditorMouseEvent :=
  ModesHoverController.mkMouseEvent ModesHoverController.CONTENT_TEXT
    ModesHoverController.OtherDetail (Some at_3_5_9) None false (Some true).

(** A mouse event on an overlay widget that is not the glyph hover. *)
Definition onOverlay : ModesHoverController.IEditorMouseEvent :=
  ModesHoverController.mkMouseEvent ModesHoverController.OVERLAY_WIDGET
    ModesHoverController.OtherDetail None None false (Some true).

(** ** Positions of the handles *)

(** The rational [x] brought into the interval from [lo] to [hi]. *)
Definition Qclamp (lo hi x : Q) : Q :=
  if Qle_bool x lo then lo else if Qle_bool hi x then hi else x.

(** ** The registry of accessible views *)

From Stdlib Require Import ZArith DecimalString Ascii.

Module AccessibleViewRegistry.

(** An implementation, by the identity of the object. *)
Definition IAccessibleViewImplentation : Type := nat.

(** The field [_implementations]. *)
Definition t : Type := list IAccessibleViewImplentation.

(** [array.indexOf(x)]: the first index that holds [x], or -1. *)
Fixpoint indexOf (x : IAccessibleViewImplentation) (l : t) : Z :=
  match l with
  | [] => (-1)%Z
  | y :: l' =>
      if Nat.eqb x y then 0%Z
      else let i := indexOf x l' in
           if (i =? -1)%Z then (-1)%Z else (i + 1)%Z
  end.

(** [array.splice(idx, 1)] for an index found by indexOf. *)
Definition splice1 (idx : Z) (l : t) : t :=
  firstn (Z.to_nat idx) l ++ skipn (S (Z.to_nat idx)) l.

(** [register implementation]: the new registry; the disposable it
    returns is [dispose implementation]. *)
Definition register (implementation : IAccessibleViewImplentation) (r : t) : t :=
  r ++ [implementation].

(** The [dispose] of the disposable that [register] returned. *)
Definition dispose (implementation : IAccessibleViewImplentation) (r : t) : t :=
  let idx := indexOf implementation r in
  if negb (idx =? -1)%Z then splice1 idx r else r.

Definition getImplementations (r : t) : list IAccessibleViewImplentation := r.

End AccessibleViewRegistry.

(** The direction of a focus change, 'next' or 'previous'. *)
Inductive FocusChange : Type := FocusNext | FocusPrevious.

Definition decimal (z : Z) : string := NilZero.string_of_int (Z.to_int z).

(** [alertAccessibleViewFocusChange index length type]: the message
    given to [alert], if any. *)
Definition alertAccessibleViewFocusChange (index length : option Z) (type : FocusChange)
  : option string :=
  match index, length with
  | Some index, Some length =>
      let number := (index + 1)%Z in
      match type with
      | FocusNext =>
          if (number + 1 <=? length)%Z
          then Some ("Focused " ++ decimal (number + 1) ++ " of " ++ decimal length)%string
          else None
      | FocusPrevious =>
          if (number - 1 >? 0)%Z
          then Some ("Focused " ++ decimal (number - 1) ++ " of " ++ decimal length)%string
          else None
      end
  | _, _ => None
  end.

(** The index of the neighbour in the direction of the change. *)
Definition neighbour (index : Z) (type : FocusChange) : Z :=
  match type with FocusNext => (index + 1)%Z | FocusPrevious => (index - 1)%Z end.

(** ** The colour participants of the hover *)

Inductive HoverAnchorType : Type := AnchorRange | AnchorForeignElement.

Record HoverAnchor : Type := mkAnchor {
  anchor_type : HoverAnchorType;
  anchor_range : Range
}.

(** A colour as a provider gives it: four fractions. *)
Module IColor.
Record t : Type := mk { red : number; green : number; blue : number; alpha : number }.
End IColor.

Record IColorInformation : Type := mkColorInfo {
  info_range : Range;
  info_color : IColor.t
}.

Record IModelDecoration : Type := mkDecoration {
  decoration_id : nat;
  decoration_range : Range
}.

Section ColorParticipants.

(** DocumentColorProvider, outside the excerpt. *)
Variable DocumentColorProvider : Type.

Record IColorData : Type := mkColorData {
  colorInfo : IColorInformation;
  provider : DocumentColorProvider
}.

Record IColorHover : Type := mkColorHover {
  colorHover_range : Range;
  colorHover_model : ColorPickerModel;
  colorHover_provider : DocumentColorProvider
}.

(** The model that [createColorHover] builds for a colour: the colour
    converted from the provider's fractions, the presentations the
    provider answers with and the one guessed from the text at the
    range.  The conversion, the provider and the guess are outside the
    excerpt. *)
Variable modelOf : IColorInformation -> DocumentColorProvider -> ColorPickerModel.

(** [createColorHover editorModel colorInfo provider]. *)
Definition createColorHover (colorInfo : IColorInformation) (provider : DocumentColorProvider)
  : IColorHover :=
  mkColorHover (info_range colorInfo) (modelOf colorInfo provider) provider.

(** The class ColorHover, without its owner: [forceShowAtRange] is
    always true. *)
Record ColorHover : Type := mkColorHoverPart {
  forceShowAtRange : bool;
  part_range : Range;
  part_model : ColorPickerModel;
  part_provider : DocumentColorProvider
}.

(** [ColorHover.from owner colorHover]. *)
Definition ColorHover_from (colorHover : IColorHover) : ColorHover :=
  mkColorHoverPart true (colorHover_range colorHover) (colorHover_model colorHover)
                   (colorHover_provider colorHover).

Definition isValidForHoverAnchor (h : ColorHover) (anchor : HoverAnchor) : bool :=
  match anchor_type anchor with
  | AnchorRange =>
      (startColumn (part_range h) <=? startColumn (anchor_range anchor))%nat
      && (endColumn (anchor_range anchor) <=? endColumn (part_range h))%nat
  | AnchorForeignElement => false
  end.

(** ColorDetector, outside the excerpt, as the participants use it;
    a position is a line number and a column. *)
Record ColorDetector : Type := mkDetector {
  isColorDecoration : IModelDecoration -> bool;
  getColorData : nat * nat -> option IColorData
}.

Definition getStartPosition (r : Range) : nat * nat := (startLineNumber r, startColumn r).

(** The loop of [_computeAsync] over the decorations of the line, up
    to its return. *)
Fixpoint firstColorData (colorDetector : ColorDetector) (lineDecorations : list IModelDecoration)
  : option IColorData :=
  match lineDecorations with
  | [] => None
  | d :: rest =>
      if negb (isColorDecoration colorDetector d) then firstColorData colorDetector rest
      else
        match getColorData colorDetector (getStartPosition (decoration_range d)) with
        | Some colorData => Some colorData
        | None => firstColorData colorDetector rest
        end
  end.

(** ColorHoverParticipant._computeAsync; [hasModel] is
    editor.hasModel(), [colorDetector] is ColorDetector.get(editor). *)
Definition _computeAsync (hasModel : bool) (colorDetector : option ColorDetector)
  (lineDecorations : list IModelDecoration) : list ColorHover :=
  if negb hasModel then []
  else
    match colorDetector with
    | None => []
    | Some detector =>
        match firstColorData detector lineDecorations with
        | Some colorData =>
            [ColorHover_from (createColorHover (colorInfo colorData) (provider colorData))]
        | None => []
        end
    end.

(** The decoration is a colour decoration for which the detector has
    colour data. *)
Definition hasColorData (detector : ColorDetector) (d : IModelDecoration) : bool :=
  isColorDecoration detector d
  && match getColorData detector (getStartPosition (decoration_range d)) with
     | Some _ => true
     | None => false
     end.

(** ColorHoverParticipant: its field [_colorPicker]. *)
Definition ColorHoverParticipant : Type := option HoverColorPicker.

(** [renderHoverParts context hoverParts]: the participant afterwards
    and the disposable returned, None standing for Disposable.None. *)
Definition renderHoverParts (hasModel : bool) (hoverParts : list ColorHover)
  (participant : ColorHoverParticipant) : ColorHoverParticipant * option HoverColorPicker :=
  match hoverParts with
  | [] => (participant, None)
  | first :: _ =>
      if negb hasModel then (participant, None)
      else
        let picker := hover_create (part_range first) (part_model first) in
        (Some picker, Some picker)
  end.

Definition isColorPickerVisible (participant : ColorHoverParticipant) : bool :=
  match participant with Some _ => true | None => false end.

(** A call of renderHoverParts: editor.hasModel() and the parts. *)
Definition RenderCall : Type := (bool * list ColorHover)%type.

Definition renders (c : RenderCall) : bool :=
  fst c && match snd c with [] => false | _ :: _ => true end.

Definition render_all (participant : ColorHoverParticipant) (calls : list RenderCall)
  : ColorHoverParticipant :=
  fold_left (fun p c => fst (renderHoverParts (fst c) (snd c) p)) calls participant.

(** Range.containsRange, outside the excerpt. *)
Variable containsRange : Range -> Range -> bool.

(** The loop of StandaloneColorPickerParticipant.createColorHover over
    the colours of the document: the pair of [foundColorInfo] and
    [foundColorProvider]. *)
Definition findColor (defaultColorInfo : IColorInformation) (colors : list IColorData)
  : option IColorData :=
  fold_left
    (fun found colorData =>
       if containsRange (info_range (colorInfo colorData)) (info_range defaultColorInfo)
       then Some colorData
       else found)
    colors None.

(** StandaloneColorPickerParticipant.createColorHover; [colors] is
    what getColors answers.  None stands for null. *)
Definition standalone_createColorHover (hasModel : bool) (colorDetector : option ColorDetector)
  (colors : list IColorData)
  (defaultColorInfo : IColorInformation) (defaultColorProvider : DocumentColorProvider)
  : option (IColorHover * bool) :=
  if negb hasModel then None
  else
    match colorDetector with
    | None => None
    | Some _ =>
        let found := findColor defaultColorInfo colors in
        let colorInfo := match found with
                         | Some colorData => colorInfo colorData
                         | None => defaultColorInfo
                         end in
        let colorProvider := match found with
                             | Some colorData => provider colorData
                             | None => defaultColorProvider
                             end in
        let foundInEditor := match found with Some _ => true | None => false end in
        Some (createColorHover colorInfo colorProvider, foundInEditor)
    end.

(** The document colour contains the default range. *)
Definition containsDefault (defaultColorInfo : IColorInformation) (colorData : IColorData) : bool :=
  containsRange (info_range (colorInfo colorData)) (info_range defaultColorInfo).

End ColorParticipants.

(** Samples: a detector for which the decoration 2 is a colour
    decoration, with the colour data of a red at 3:5-9 from provider 7;
    a containment of ranges on one line. *)
Definition opaqueRed : IColor.t := IColor.mk $1 $0 $0 $1.

Definition redAt_3_5_9 : IColorData nat := mkColorData (mkColorInfo at_3_5_9 opaqueRed) 7%nat.

Definition sampleDetector : ColorDetector nat :=
  mkDetector (fun d => Nat.eqb (decoration_id d) 2)
             (fun _ => Some redAt_3_5_9).

Definition sameLineContains (outer inner : Range) : bool :=
  Nat.eqb (startLineNumber outer) (startLineNumber inner)
  && (startColumn outer <=? startColumn inner)%nat
  && (endColumn inner <=? endColumn outer)%nat.

(** ** The model of references *)

Module References.

(** [array[i]] for a number [i]: undefined outside the array. *)
Definition at_index {A : Type} (l : list A) (i : Z) : option A :=
  if (i <? 0)%Z then None else nth_error l (Z.to_nat i).

(** [a % b] on integers: the remainder has the sign of [a]; NaN, here
    None, for a zero [b]. *)
Definition remainder (a b : Z) : option Z :=
  if (b =? 0)%Z then None else Some (Z.rem a b).

(** The last element of an array, if any. *)
Definition lastOf {A : Type} (l : list A) : option A :=
  match l with
  | [] => None
  | x :: l' => Some (last l' x)
  end.

(** [array.sort(compare)]: Array.prototype.sort is stable, so for a
    consistent comparator the result is the one of this insertion
    sort, which puts an element before the first of the elements after
    it that does not compare smaller. *)
Fixpoint insertBy {A : Type} (compare : A -> A -> Z) (x : A) (sorted : list A) : list A :=
  match sorted with
  | [] => [x]
  | y :: rest =>
      if (compare x y <=? 0)%Z then x :: sorted else y :: insertBy compare x rest
  end.

Definition sortBy {A : Type} (compare : A -> A -> Z) (l : list A) : list A :=
  fold_right (insertBy compare) [] l.

Section Model.

Variable URI : Type.

(** resources.compare(a, b, false, false) and
    resources.isEqual(a, b, false, true), outside the excerpt. *)
Variable compare : URI -> URI -> Z.
Variable isEqual : URI -> URI -> bool.

(** Range.compareRangesUsingStarts, outside the excerpt. *)
Variable compareRangesUsingStarts : Range -> Range -> Z.

Record LocationLink : Type := mkLink {
  (** the identity of the object *)
  link_identity : nat;
  link_uri : URI;
  link_range : Range;
  targetSelectionRange : option Range
}.

(** A reference.  Its [id] is the one that defaultGenerator.nextId()
    gave it: the generator (vs/base/common/idGenerator, outside the
    excerpt) keeps a counter for the whole process, and the number in
    [id] is the value of the counter that the id 'id#...' carries.
    Its [parent] is the position of its FileReferences in the groups
    of the model. *)
Record OneReference : Type := mkReference {
  id : nat;
  isProviderFirst : bool;
  parent : nat;
  uri : URI;
  range : Range
}.

Record FileReferences : Type := mkFile {
  file_uri : URI;
  children : list OneReference
}.

Record t : Type := mkModel {
  groups : list FileReferences;
  references : list OneReference;
  _links : list LocationLink;
  _title : string
}.

(** [_compareReferences a b] on the uri and the range of two locations. *)
Definition _compareReferences (a_uri : URI) (a_range : Range) (b_uri : URI) (b_range : Range)
  : Z :=
  let c := compare a_uri b_uri in
  if (c =? 0)%Z then compareRangesUsingStarts a_range b_range else c.

Definition compareLinks (a b : LocationLink) : Z :=
  _compareReferences (link_uri a) (link_range a) (link_uri b) (link_range b).

(** [links.sort(_compareReferences)] *)
Definition sort (links : list LocationLink) : list LocationLink :=
  sortBy compareLinks links.

(** [providersFirst === link] *)
Definition isSameLink (providersFirst : option LocationLink) (link : LocationLink) : bool :=
  match providersFirst with
  | Some first => Nat.eqb (link_identity first) (link_identity link)
  | None => false
  end.

(** One round of the loop of the constructor, on the arrays [groups]
    and [references]; [current] is the last of the groups.  [lastId]
    is the counter of the generator when the constructor started: the
    constructor alone draws ids while it runs, one for each reference
    it makes, so the next id is the counter plus the number of
    references made so far, plus one. *)
Definition addLink (lastId : nat) (providersFirst : option LocationLink)
  (state : list FileReferences * list OneReference) (link : LocationLink)
  : list FileReferences * list OneReference :=
  let '(groups, references) := state in
  let groups :=
    match lastOf groups with
    | Some current =>
        if isEqual (file_uri current) (link_uri link) then groups
        else groups ++ [mkFile (link_uri link) []]
    | None => groups ++ [mkFile (link_uri link) []]
    end in
  match lastOf groups with
  | None => (groups, references)
  | Some current =>
      let isNew :=
        match lastOf (children current) with
        | None => true
        | Some previous =>
            negb (_compareReferences (link_uri link) (link_range link)
                                     (uri previous) (range previous) =? 0)%Z
        end in
      if isNew then
        let oneRef :=
          mkReference (lastId + length references + 1) (isSameLink providersFirst link)
                      (length groups - 1) (link_uri link)
                      (match targetSelectionRange link with
                       | Some r => r
                       | None => link_range link
                       end) in
        (removelast groups ++ [mkFile (file_uri current) (children current ++ [oneRef])],
         references ++ [oneRef])
      else (groups, references)
  end.

(** The constructor: [links] is sorted in place and kept. *)
Definition create (lastId : nat) (links : list LocationLink) (title : string) : t :=
  let providersFirst := hd_error links in
  let sorted := sort links in
  let '(groups, references) := fold_left (addLink lastId providersFirst) sorted ([], []) in
  mkModel groups references sorted title.

Definition clone (lastId : nat) (m : t) : t := create lastId (_links m) (_title m).

Definition isEmpty (m : t) : bool := Nat.eqb (length (groups m)) 0.

(** [children.indexOf(reference)], by identity. *)
Fixpoint indexOf (reference : OneReference) (l : list OneReference) : Z :=
  match l with
  | [] => (-1)%Z
  | r :: l' =>
      if Nat.eqb (id reference) (id r) then 0%Z
      else let i := indexOf reference l' in
           if (i =? -1)%Z then (-1)%Z else (i + 1)%Z
  end.

(** [nextOrPreviousReference reference next], for a reference whose
    parent is one of the groups of the model. *)
Definition nextOrPreviousReference (m : t) (reference : OneReference) (next : bool)
  : option OneReference :=
  match nth_error (groups m) (parent reference) with
  | None => None
  | Some parent_ =>
      let idx := indexOf reference (children parent_) in
      let childCount := Z.of_nat (length (children parent_)) in
      let groupCount := Z.of_nat (length (groups m)) in
      if (groupCount =? 1)%Z || (next && (idx + 1 <? childCount)%Z)
         || (negb next && (idx >? 0)%Z)
      then
        match (if next then remainder (idx + 1) childCount
               else remainder (idx + childCount - 1) childCount) with
        | Some idx => at_index (children parent_) idx
        | None => None
        end
      else
        let idx := Z.of_nat (parent reference) in
        if next then
          match remainder (idx + 1) groupCount with
          | Some idx =>
              match at_index (groups m) idx with
              | Some group => at_index (children group) 0
              | None => None
              end
          | None => None
          end
        else
          match remainder (idx + groupCount - 1) groupCount with
          | Some idx =>
              match at_index (groups m) idx with
              | Some group =>
                  at_index (children group) (Z.of_nat (length (children group)) - 1)
              | None => None
              end
          | None => None
          end
  end.

(** [firstReference] *)
Definition firstReference (m : t) : option OneReference :=
  match find isProviderFirst (references m) with
  | Some ref => Some ref
  | None => at_index (references m) 0
  end.

(** [uri.toString()] and strings.commonPrefixLength, outside the
    excerpt. *)
Variable toString : URI -> string.
Variable commonPrefixLength : string -> string -> Z.

Record Position : Type := mkPosition { lineNumber : nat; column : nat }.

(** The entries that [nearestReference] sorts. *)
Record Nearest : Type := mkNearest { idx : nat; prefixLen : Z; offsetDist : Z }.

Definition nearestOf (resource : URI) (position : Position) (idx : nat) (ref : OneReference)
  : Nearest :=
  mkNearest idx
    (commonPrefixLength (toString (uri ref)) (toString resource))
    (Z.abs (Z.of_nat (startLineNumber (range ref)) - Z.of_nat (lineNumber position)) * 100
     + Z.abs (Z.of_nat (startColumn (range ref)) - Z.of_nat (column position)))%Z.

(** The comparator given to [sort]. *)
Definition compareNearest (a b : Nearest) : Z :=
  if (prefixLen a >? prefixLen b)%Z then (-1)%Z
  else if (prefixLen a <? prefixLen b)%Z then 1%Z
  else if (offsetDist a <? offsetDist b)%Z then (-1)%Z
  else if (offsetDist a >? offsetDist b)%Z then 1%Z
  else 0%Z.

(** [array.map((x, idx) => f idx x)], the indices starting at [start]. *)
Fixpoint mapWithIndex {A B : Type} (f : nat -> A -> B) (start : nat) (l : list A) : list B :=
  match l with
  | [] => []
  | x :: l' => f start x :: mapWithIndex f (S start) l'
  end.

Definition nearestReference (m : t) (resource : URI) (position : Position)
  : option OneReference :=
  match sortBy compareNearest
          (mapWithIndex (nearestOf resource position) 0 (references m)) with
  | nearest :: _ => at_index (references m) (Z.of_nat (idx nearest))
  | [] => None
  end.

End Model.

End References.

(** The groups partition the references in their order, no group is
    empty, every reference points to the group that holds it, and the
    references carry, in their order, the ids that follow the counter
    [lastId] of the generator. *)
Definition partitioned {URI : Type} (lastId : nat)
  (groups : list (References.FileReferences URI))
  (references : list (References.OneReference URI)) : Prop :=
  concat (map (@References.children URI) groups) = references
  /\ Forall (fun g => References.children g <> []) groups
  /\ (forall i g, nth_error groups i = Some g ->
                  Forall (fun r => References.parent r = i) (References.children g))
  /\ map (@References.id URI) references = seq (S lastId) (length references).

(** Samples: resources numbered and compared by their number, ranges
    compared by their start, and five links to three resources, the
    provider's first link being the one at 5:1 of resource 2 and two
    links being the same location 3:1 of resource 1. *)
Definition compareNumbers (a b : nat) : Z := (Z.of_nat a - Z.of_nat b)%Z.

Definition compareStarts (a b : Range) : Z :=
  if negb (Nat.eqb (startLineNumber a) (startLineNumber b))
  then (Z.of_nat (startLineNumber a) - Z.of_nat (startLineNumber b))%Z
  else (Z.of_nat (startColumn a) - Z.of_nat (startColumn b))%Z.

Definition linkAt (identity resource line column : nat) : References.LocationLink nat :=
  References.mkLink identity resource (mkRange line column line (column + 1)) None.

Definition fiveLinks : list (References.LocationLink nat) :=
  [linkAt 0 2 5 1; linkAt 1 1 3 1; linkAt 2 2 1 1; linkAt 3 1 3 1; linkAt 4 3 1 1].

Definition sampleReferences : References.t nat :=
  References.create compareNumbers Nat.eqb compareStarts 0 fiveLinks "References".

(** ** The preview of a reference *)

Section FilePreview.

(** [model.getValueInRange] and the start column of
    [model.getWordUntilPosition], of the text model outside the
    excerpt; [isWhitespace] is the class \s of the two patterns. *)
Variable getValueInRange : Range -> string.
Variable wordStartColumn : nat -> Z -> nat.
Variable isWhitespace : Ascii.ascii -> bool.

(** Constants.MAX_SAFE_SMALL_INTEGER, 1 << 30. *)
Definition MAX_SAFE_SMALL_INTEGER : nat := Nat.pow 2 30.

(** [s.replace(/^\s+/, '')] *)
Fixpoint trimStart (s : string) : string :=
  match s with
  | EmptyString => EmptyString
  | String c s' => if isWhitespace c then trimStart s' else s
  end.

(** [s.replace(/\s+$/, '')] *)
Fixpoint trimEnd (s : string) : string :=
  match s with
  | EmptyString => EmptyString
  | String c s' =>
      match trimEnd s' with
      | EmptyString => if isWhitespace c then EmptyString else String c EmptyString
      | rest => String c rest
      end
  end.

Record Preview : Type := mkPreview {
  preview_value : string;
  highlight_start : nat;
  highlight_end : nat
}.

(** [preview range n]; [hasModel] tells whether the reference holds a
    text model. *)
Definition preview (hasModel : bool) (range : Range) (n : Z) : option Preview :=
  if negb hasModel then None
  else
    let word := wordStartColumn (startLineNumber range) (Z.of_nat (startColumn range) - n) in
    let beforeRange := mkRange (startLineNumber range) word
                               (startLineNumber range) (startColumn range) in
    let afterRange := mkRange (endLineNumber range) (endColumn range)
                              (endLineNumber range) MAX_SAFE_SMALL_INTEGER in
    let before := trimStart (getValueInRange beforeRange) in
    let inside := getValueInRange range in
    let after := trimEnd (getValueInRange afterRange) in
    Some (mkPreview (before ++ inside ++ after)%string
                    (String.length before)
                    (String.length before + String.length inside)).

(** [s.substring(start, end)] for start <= end. *)
Definition js_substring (s : string) (start end_ : nat) : string :=
  String.substring start (end_ - start) s.

(** The first character of the string, if any, is not whitespace. *)
Definition startsClean (s : string) : Prop :=
  match s with
  | EmptyString => True
  | String c _ => isWhitespace c = false
  end.

End FilePreview.

(** Samples: the name of a numbered resource, the length of the common
    prefix of two strings, blanks as whitespace. *)
Definition resourceName (n : nat) : string := ("file:///" ++ decimal (Z.of_nat n))%string.

Fixpoint prefixLength (a b : string) : Z :=
  match a, b with
  | String x a', String y b' =>
      if Ascii.eqb x y then (1 + prefixLength a' b')%Z else 0%Z
  | _, _ => 0%Z
  end.

Definition isBlank (c : Ascii.ascii) : bool := Ascii.eqb c " "%char.

(** ** The hover picker as a whole *)

(** The three surfaces of the body. *)
Inductive Surface : Type := TheBox | TheOpacityStrip | TheHueStrip.

Section HoverPickerWidget.


(** HoverColorPicker with the surfaces of its HoverColorPickerBody.
    The model is the one of [sync].  [awaiting] counts the flushed
    listeners that are suspended at their await.  The header, which
    only paints, is left out. *)
Record HoverPicker : Type := mkHoverPicker {
  sync : HoverColorPicker;
  saturationBox : SaturationBox.t;
  opacityStrip : Strip.t;
  hueStrip : Strip.t;
  awaiting : nat
}.

Definition pickerModel (w : HoverPicker) : ColorPickerModel := hover_model (sync w).

(** The constructor of HoverColorPicker: the listeners are registered,
    then the widget builds its body; the sizes are the measured ones. *)
Definition createPicker (colorHover_range : Range) (model : ColorPickerModel)
  (boxWidth boxHeight stripHeight sliderHeight : number) : HoverPicker :=
  mkHoverPicker (hover_create colorHover_range model)
                (SaturationBox.create boxWidth boxHeight model)
                (Strip.create Strip.OpacityStrip stripHeight sliderHeight model)
                (Strip.create Strip.HueStrip stripHeight sliderHeight model)
                0.

(** Modelled from the spec: the setter of ColorPickerModel.color is
    outside the excerpt; it replaces the current colour and fires the
    change event.  The listeners of onDidChangeColor run in the order
    of their registration: the picker's re-fetch, the box, the opacity
    strip, the hue strip. *)
Definition setColor (c : Color) (w : HoverPicker) : HoverPicker :=
  mkHoverPicker (hover_step (sync w) (ColorChanged c))
                (SaturationBox.onDidChangeColor (saturationBox w) c)
                (Strip.onDidChangeColor (opacityStrip w) c)
                (Strip.onDidChangeColor (hueStrip w) c)
                (awaiting w).

(** Modelled from the spec: ColorPickerModel.flushColor is outside the
    excerpt; it emits the flushed event carrying the current colour.
    Its one listener starts its fetch and is suspended. *)
Definition flushColor (w : HoverPicker) : HoverPicker :=
  mkHoverPicker (hover_step (sync w) Flushed)
                (saturationBox w) (opacityStrip w) (hueStrip w) (S (awaiting w)).

(** What the body registered on the emitters of its surfaces. *)
Definition onBoxFired (w : HoverPicker) (f : SaturationBox.Emitted) : HoverPicker :=
  match f with
  | DidChange sv =>
      setColor (color (AbstractColorPickerBody.onDidSaturationValueChange (pickerModel w) sv)) w
  | ColorFlushed => flushColor w
  end.

Definition onStripFired (k : Strip.Kind) (w : HoverPicker) (f : Strip.Emitted) : HoverPicker :=
  match f with
  | DidChange value =>
      match k with
      | Strip.OpacityStrip =>
          setColor (color (AbstractColorPickerBody.onDidOpacityChange (pickerModel w) value)) w
      | Strip.HueStrip =>
          setColor (color (AbstractColorPickerBody.onDidHueChange (pickerModel w) value)) w
      end
  | ColorFlushed => flushColor w
  end.

Definition withBox (w : HoverPicker) (b : SaturationBox.t) : HoverPicker :=
  mkHoverPicker (sync w) b (opacityStrip w) (hueStrip w) (awaiting w).

Definition stripOf (k : Strip.Kind) (w : HoverPicker) : Strip.t :=
  match k with Strip.OpacityStrip => opacityStrip w | Strip.HueStrip => hueStrip w end.

Definition withStrip (k : Strip.Kind) (w : HoverPicker) (st : Strip.t) : HoverPicker :=
  match k with
  | Strip.OpacityStrip => mkHoverPicker (sync w) (saturationBox w) st (hueStrip w) (awaiting w)
  | Strip.HueStrip => mkHoverPicker (sync w) (saturationBox w) (opacityStrip w) st (awaiting w)
  end.

(** SaturationBox.onDidChangePosition with the listeners attached. *)
Definition boxChangePosition (left top : number) (w : HoverPicker) : HoverPicker :=
  let '(b, fired) := SaturationBox.onDidChangePosition (saturationBox w) left top in
  fold_left onBoxFired fired (withBox w b).

(** Strip.onDidChangeTop with the listeners attached. *)
Definition stripChangeTop (k : Strip.Kind) (top : number) (w : HoverPicker) : HoverPicker :=
  let '(st, fired) := Strip.onDidChangeTop (stripOf k w) top in
  fold_left (onStripFired k) fired (withStrip k w st).

(** SaturationBox.onPointerDown with the listeners attached: the
    monitor is in the field, but not yet monitoring, when the position
    of the pointer-down is handled. *)
Definition boxPointerDown (e : PointerEvent) (origin : number * number) (w : HoverPicker)
  : HoverPicker :=
  if negb (is_element (target e)) then w
  else
    let b := saturationBox w in
    let old := match SaturationBox.monitor b with
               | Some m => SaturationBox.replaced b ++ [m]
               | None => SaturationBox.replaced b
               end in
    let w := withBox w (SaturationBox.set_monitor b
                          (Some (mkMonitor (fst origin) (snd origin) false)) old
                          (SaturationBox.pointerUpListeners b)) in
    let w := if negb (is_handle (target e))
             then boxChangePosition (offsetX e) (offsetY e) w
             else w in
    let b := saturationBox w in
    withBox w (SaturationBox.set_monitor b
                 (Some (startMonitoring (fst origin) (snd origin)))
                 (SaturationBox.replaced b) (S (SaturationBox.pointerUpListeners b))).

(** Strip.onPointerDown with the listeners attached. *)
Definition stripPointerDown (k : Strip.Kind) (e : PointerEvent) (origin : number * number)
  (w : HoverPicker) : HoverPicker :=
  if negb (is_element (target e)) then w
  else
    let st := stripOf k w in
    let w := withStrip k w (Strip.set_drags st true (Strip.drags st)) in
    let w := if negb (is_handle (target e)) then stripChangeTop k (offsetY e) w else w in
    let st := stripOf k w in
    withStrip k w (Strip.set_drags st (Strip.grabbing st)
                     (Strip.drags st ++ [startMonitoring (fst origin) (snd origin)])).

(** The move callbacks of the monitors of a surface. *)
Definition boxMoveCallback (e : PointerEvent) (w : HoverPicker) (m : GlobalPointerMoveMonitor)
  : HoverPicker :=
  if isMonitoring m
  then boxChangePosition (pageX e - origin_left m) (pageY e - origin_top m) w
  else w.

Definition stripMoveCallback (k : Strip.Kind) (e : PointerEvent) (w : HoverPicker)
  (m : GlobalPointerMoveMonitor) : HoverPicker :=
  if isMonitoring m then stripChangeTop k (pageY e - origin_top m) w else w.

(** A pointer-move on the document: the capturing monitors call back;
    the surfaces are visited in the order box, opacity strip, hue
    strip (with one drag at a time at most one of them reacts). *)
Definition documentPointerMove (e : PointerEvent) (w : HoverPicker) : HoverPicker :=
  let b := saturationBox w in
  let monitors := SaturationBox.replaced b
                  ++ match SaturationBox.monitor b with Some m => [m] | None => [] end in
  let w := fold_left (boxMoveCallback e) monitors w in
  let w := fold_left (stripMoveCallback Strip.OpacityStrip e) (Strip.drags (opacityStrip w)) w in
  fold_left (stripMoveCallback Strip.HueStrip e) (Strip.drags (hueStrip w)) w.

(** A pointer-up on the document: the pending listeners of the
    surfaces fire, the surfaces in the same order. *)
Definition documentPointerUp (w : HoverPicker) : HoverPicker :=
  let '(b, fired) := SaturationBox.onPointerUp (saturationBox w) in
  let w := fold_left onBoxFired fired (withBox w b) in
  let '(st, fired) := Strip.onPointerUp (opacityStrip w) in
  let w := fold_left (onStripFired Strip.OpacityStrip) fired
                     (withStrip Strip.OpacityStrip w st) in
  let '(st, fired) := Strip.onPointerUp (hueStrip w) in
  fold_left (onStripFired Strip.HueStrip) fired (withStrip Strip.HueStrip w st).

(** What happens to the picker. *)
Inductive PickerEvent : Type :=
| SurfacePointerDown (s : Surface) (e : PointerEvent) (origin : number * number)
| DocumentPointerMove (e : PointerEvent)
| DocumentPointerUp
(** the fetch of a colour change settles *)
| PresentationsAnswer (answer : option (list IColorPresentation))
(** the fetch of a suspended flushed listener settles and the listener
    continues *)
| FlushAnswer (answer : option (list IColorPresentation)) (tracked : option Range)
(** the buffer is changed by something else *)
| BufferChanged.

Definition withSync (w : HoverPicker) (p : HoverColorPicker) (n : nat) : HoverPicker :=
  mkHoverPicker p (saturationBox w) (opacityStrip w) (hueStrip w) n.

Definition pickerStep (w : HoverPicker) (ev : PickerEvent) : HoverPicker :=
  match ev with
  | SurfacePointerDown TheBox e origin => boxPointerDown e origin w
  | SurfacePointerDown TheOpacityStrip e origin => stripPointerDown Strip.OpacityStrip e origin w
  | SurfacePointerDown TheHueStrip e origin => stripPointerDown Strip.HueStrip e origin w
  | DocumentPointerMove e => documentPointerMove e w
  | DocumentPointerUp => documentPointerUp w
  | PresentationsAnswer answer =>
      withSync w (hover_step (sync w) (PresentationsArrive answer)) (awaiting w)
  | FlushAnswer answer tracked =>
      match awaiting w with
      | O => w
      | S n =>
          withSync w
            (hover_run (sync w)
               [PresentationsArrive answer; FlushedContinues tracked]) n
      end
  | BufferChanged =>
      withSync w (hover_step (sync w) ExternalContentChange) (awaiting w)
  end.

Definition pickerRun (w : HoverPicker) (evs : list PickerEvent) : HoverPicker :=
  fold_left pickerStep evs w.

(** The events of a drag on a surface. *)
Definition dragOn (s : Surface) (d : Drag) : list PickerEvent :=
  SurfacePointerDown s
    (mkPointerEvent (if on_handle d then Handle else OtherElement)
                    (fst (down_at d)) (snd (down_at d))
                    (fst (down_at d)) (snd (down_at d)))
    (origin_at d)
  :: map (fun p => DocumentPointerMove (mkPointerEvent OtherElement $0 $0 (fst p) (snd p)))
         (moves d)
  ++ [DocumentPointerUp].

(** What the user, the provider and the rest of the editor do: whole
    drags on the surfaces, answers to the fetches, changes of the
    buffer from elsewhere. *)
Inductive Interaction : Type :=
| DragOn (s : Surface) (d : Drag)
| FetchSettles (answer : option (list IColorPresentation))
| FlushSettles (answer : option (list IColorPresentation)) (tracked : option Range)
| EditFromElsewhere.

Definition eventsOf (i : Interaction) : list PickerEvent :=
  match i with
  | DragOn s d => dragOn s d
  | FetchSettles answer => [PresentationsAnswer answer]
  | FlushSettles answer tracked => [FlushAnswer answer tracked]
  | EditFromElsewhere => [BufferChanged]
  end.




(** How often the picker edited the buffer, pushed an undo stop and
    asked the hover to hide. *)
Definition editsApplied (w : HoverPicker) : nat :=
  length (filter is_edit (hover_calls (sync w))).

Definition undoStops (w : HoverPicker) : nat :=
  length (filter is_undo_stop (hover_calls (sync w))).

Definition hidesRequested (w : HoverPicker) : nat :=
  length (filter is_hide (hover_calls (sync w))).

(** What decides how the picker reacts to pointers and answers: the
    monitors and listeners of the surfaces, the flag of the picker,
    what it did to the editor so far, the suspended listeners. *)
Definition control (w : HoverPicker)
  : (option GlobalPointerMoveMonitor * list GlobalPointerMoveMonitor * nat)
    * list GlobalPointerMoveMonitor * list GlobalPointerMoveMonitor
    * (bool * nat * nat * nat) * nat :=
  ((SaturationBox.monitor (saturationBox w), SaturationBox.replaced (saturationBox w),
    SaturationBox.pointerUpListeners (saturationBox w)),
   Strip.drags (opacityStrip w), Strip.drags (hueStrip w),
   (editorUpdatedByColorPicker (sync w), editsApplied w, undoStops w, hidesRequested w),
   awaiting w).


End HoverPickerWidget.

(** The measured sizes of the surfaces. *)
Definition geometry (w : HoverPicker) : number * number * number * number :=
  (SaturationBox.width (saturationBox w), SaturationBox.height (saturationBox w),
   Strip.height (opacityStrip w), Strip.height (hueStrip w)).

(** The colour the body makes of a position on a surface: the value
    the surface computes from the position, put into the colour of
    the model by the handler the body registered on that surface. *)
Definition pickedAt (s : Surface) (w : HoverPicker) (left top : number) : Color :=
  let hsva := hsva (color (pickerModel w)) in
  match s with
  | TheBox =>
      let sat := Math_max $0 (Math_min $1 (left / SaturationBox.width (saturationBox w))) in
      let v := Math_max $0 (Math_min $1 ($1 - top / SaturationBox.height (saturationBox w))) in
      mkColor (HSVA.mk (HSVA.h hsva) sat v (HSVA.a hsva))
  | TheOpacityStrip =>
      let value := Math_max $0 (Math_min $1 ($1 - top / Strip.height (opacityStrip w))) in
      mkColor (HSVA.mk (HSVA.h hsva) (HSVA.s hsva) (HSVA.v hsva) value)
  | TheHueStrip =>
      let value := Math_max $0 (Math_min $1 ($1 - top / Strip.height (hueStrip w))) in
      let h := ($1 - value) * $360 in
      mkColor (HSVA.mk (if h === $360 then $0 else h)
                       (HSVA.s hsva) (HSVA.v hsva) (HSVA.a hsva))
  end.

(** Where the pointer was last during a drag, relative to the surface:
    at the last pointer-move, measured from the page position the node
    had at the pointer-down; without moves at the pointer-down, which
    counts only off the handle. *)
Definition lastPosition (d : Drag) : option (number * number) :=
  match rev (moves d) with
  | p :: _ => Some (fst p - fst (origin_at d), snd p - snd (origin_at d))
  | [] => if on_handle d then None else Some (down_at d)
  end.

(** The components of a colour that a surface does not set. *)
Definition componentsKept (s : Surface) (before after : Color) : Prop :=
  match s with
  | TheBox =>
      HSVA.h (hsva after) = HSVA.h (hsva before)
      /\ HSVA.a (hsva after) = HSVA.a (hsva before)
  | TheOpacityStrip =>
      HSVA.h (hsva after) = HSVA.h (hsva before)
      /\ HSVA.s (hsva after) = HSVA.s (hsva before)
      /\ HSVA.v (hsva after) = HSVA.v (hsva before)
  | TheHueStrip =>
      HSVA.s (hsva after) = HSVA.s (hsva before)
      /\ HSVA.v (hsva after) = HSVA.v (hsva before)
      /\ HSVA.a (hsva after) = HSVA.a (hsva before)
  end.

(** The monitors and listeners while one drag, begun with the node at
    [origin], is in progress on a surface. *)
Definition draggingOn (s : Surface) (origin : number * number)
  (f : bool * nat * nat * nat) (a : nat)
  : (option GlobalPointerMoveMonitor * list GlobalPointerMoveMonitor * nat)
    * list GlobalPointerMoveMonitor * list GlobalPointerMoveMonitor
    * (bool * nat * nat * nat) * nat :=
  let m := startMonitoring (fst origin) (snd origin) in
  match s with
  | TheBox => ((Some m, [], 1%nat), [], [], f, a)
  | TheOpacityStrip => ((None, [], 0%nat), [m], [], f, a)
  | TheHueStrip => ((None, [], 0%nat), [], [m], f, a)
  end.


(** * Properties *)

(** ** Arithmetic of the number model *)

Local Open Scope Q_scope.
Unset Implicit Arguments.

Lemma pow2_pos k : 0 < pow2 k.
Proof. apply Qpower_0_lt. reflexivity. Qed.

Lemma pow2_add a b : pow2 (a + b) == pow2 a * pow2 b.
Proof. apply Qpower_plus. discriminate. Qed.

Lemma pow2_le a b : (a <= b)%Z -> pow2 a <= pow2 b.
Proof. intro H. apply Qpower_le_compat_l; [exact H | discriminate]. Qed.

Lemma pow2_lt a b : (a < b)%Z -> pow2 a < pow2 b.
Proof. intro H. apply Qpower_lt_compat_l; [exact H | reflexivity]. Qed.

Lemma pow2_lt_inv a b : pow2 a < pow2 b -> (a < b)%Z.
Proof. intro H. apply (Qpower_lt_compat_l_inv 2); [exact H | reflexivity]. Qed.

Lemma pow2_inject k : (0 <= k)%Z -> pow2 k == inject_Z (2 ^ k).
Proof. intro H. unfold pow2. rewrite Zpower_Qpower by exact H. reflexivity. Qed.

Lemma ilog2_spec x : 0 < x -> pow2 (ilog2 x) <= x /\ x < pow2 (ilog2 x + 1).
Proof.
  intro Hx. destruct x as [n d]. unfold ilog2. cbn [Qnum Qden].
  assert (Hn : (0 < n)%Z) by (unfold Qlt in Hx; cbn in Hx; lia).
  set (a := Z.log2 n). set (b := Z.log2 (Zpos d)).
  assert (Ha : (2 ^ a <= n < 2 ^ (a + 1))%Z).
  { subst a. replace (Z.log2 n + 1)%Z with (Z.succ (Z.log2 n)) by lia.
    apply Z.log2_spec. exact Hn. }
  assert (Hb : (2 ^ b <= Zpos d < 2 ^ (b + 1))%Z).
  { subst b. replace (Z.log2 (Zpos d) + 1)%Z with (Z.succ (Z.log2 (Zpos d))) by lia.
    apply Z.log2_spec. lia. }
  assert (Ha0 : (0 <= a)%Z) by apply Z.log2_nonneg.
  assert (Hb0 : (0 <= b)%Z) by apply Z.log2_nonneg.
  assert (Hq : (n # d) * inject_Z (Zpos d) == inject_Z n).
  { unfold Qeq, Qmult, inject_Z. cbn. lia. }
  set (X := n # d) in *.
  assert (HN1 : inject_Z (2 ^ a) <= inject_Z n) by (rewrite <- Zle_Qle; lia).
  assert (HN2 : inject_Z n < inject_Z (2 ^ (a + 1))) by (rewrite <- Zlt_Qlt; lia).
  assert (HD1 : inject_Z (2 ^ b) <= inject_Z (Zpos d)) by (rewrite <- Zle_Qle; lia).
  assert (HD2 : inject_Z (Zpos d) < inject_Z (2 ^ (b + 1))) by (rewrite <- Zlt_Qlt; lia).
  rewrite <- !pow2_inject in HN1, HN2, HD1, HD2 by lia.
  assert (E1 : pow2 (a + 1) == pow2 (a - b + 1) * pow2 b).
  { rewrite <- pow2_add. replace (a - b + 1 + b)%Z with (a + 1)%Z by lia. reflexivity. }
  assert (E2 : pow2 a * pow2 1 == pow2 (a - b - 1 + 1) * pow2 (b + 1)).
  { rewrite <- !pow2_add. replace (a - b - 1 + 1 + (b + 1))%Z with (a + 1)%Z by lia. reflexivity. }
  assert (E3 : pow2 (a - b - 1 + 1) == pow2 (a - b)).
  { replace (a - b - 1 + 1)%Z with (a - b)%Z by lia. reflexivity. }
  assert (E4 : pow2 (a - b) == pow2 (a - b - 1) * pow2 1).
  { rewrite <- pow2_add. replace (a - b - 1 + 1)%Z with (a - b)%Z by lia. reflexivity. }
  pose proof (pow2_pos b) as Pb. pose proof (pow2_pos (b + 1)) as Pb1.
  pose proof (pow2_pos (a - b + 1)) as P1. pose proof (pow2_pos (a - b)) as P0.
  pose proof (pow2_pos (a - b - 1)) as Pm.
  assert (P21 : pow2 1 == 2) by reflexivity.
  assert (PD : 0 < inject_Z (Zpos d)) by reflexivity.
  assert (Upper : X < pow2 (a - b + 1)).
  { apply Qnot_le_lt. intro C.
    assert (pow2 (a - b + 1) * pow2 b <= X * inject_Z (Z.pos d)).
    { apply Qle_trans with (X * pow2 b).
      - apply Qmult_le_compat_r; [exact C | apply Qlt_le_weak; exact Pb].
      - rewrite !(Qmult_comm X). apply Qmult_le_compat_r; [exact HD1 | apply Qlt_le_weak; exact Hx]. }
    lra. }
  assert (Lower : pow2 (a - b - 1) < X).
  { apply Qnot_le_lt. intro C.
    assert (X * inject_Z (Z.pos d) < pow2 (a - b - 1) * pow2 (b + 1)).
    { apply Qlt_le_trans with (X * pow2 (b + 1)).
      - apply Qmult_lt_l; [exact Hx | exact HD2].
      - apply Qmult_le_compat_r; [exact C | lra]. }
    assert (E5 : pow2 a == pow2 (a - b - 1) * pow2 (b + 1)).
    { rewrite <- pow2_add. replace (a - b - 1 + (b + 1))%Z with a by lia. reflexivity. }
    lra. }
  destruct (Qle_bool (pow2 (a - b)) X) eqn:E.
  - apply Qle_bool_iff in E. split; [exact E | exact Upper].
  - assert (Hlt : X < pow2 (a - b)).
    { apply Qnot_le_lt. intro C. apply Qle_bool_iff in C. congruence. }
    split; [apply Qlt_le_weak; exact Lower|].
    replace (a - b - 1 + 1)%Z with (a - b)%Z by lia. exact Hlt.
Qed.

Lemma ilog2_unique x e : pow2 e <= x -> x < pow2 (e + 1) -> 0 < x -> ilog2 x = e.
Proof.
  intros H1 H2 Hx. destruct (ilog2_spec x Hx) as [L U].
  assert ((ilog2 x < e + 1)%Z) by (apply pow2_lt_inv; lra).
  assert ((e < ilog2 x + 1)%Z) by (apply pow2_lt_inv; lra).
  lia.
Qed.

Lemma ilog2_mono x y : 0 < x -> x <= y -> (ilog2 x <= ilog2 y)%Z.
Proof.
  intros Hx Hxy. destruct (ilog2_spec x Hx) as [L _].
  destruct (ilog2_spec y) as [_ U]; [lra|].
  assert ((ilog2 x < ilog2 y + 1)%Z) by (apply pow2_lt_inv; lra).
  lia.
Qed.

Lemma ilog2_lt x e : 0 < x -> x < pow2 (e + 1) -> (ilog2 x <= e)%Z.
Proof.
  intros Hx H. destruct (ilog2_spec x Hx) as [L _].
  assert ((ilog2 x < e + 1)%Z) by (apply pow2_lt_inv; lra).
  lia.
Qed.

(** The nearest integer lies within a half, rounding is monotone and
    fixes the integers. *)
Lemma roundHalfEven_near m :
  m - (1#2) <= inject_Z (roundHalfEven m) /\ inject_Z (roundHalfEven m) <= m + (1#2).
Proof.
  unfold roundHalfEven. pose proof (Qfloor_le m) as L. pose proof (Qlt_floor m) as U.
  rewrite inject_Z_plus in U. change (inject_Z 1) with 1 in U.
  destruct (Qcompare_spec (m - inject_Z (Qfloor m)) (1#2)) as [E|E|E].
  - destruct (Z.even (Qfloor m)); rewrite ?inject_Z_plus; change (inject_Z 1) with 1; lra.
  - lra.
  - rewrite inject_Z_plus. change (inject_Z 1) with 1. lra.
Qed.

Lemma roundHalfEven_Z z : roundHalfEven (inject_Z z) = z.
Proof.
  unfold roundHalfEven. rewrite Qfloor_Z.
  destruct (Qcompare_spec (inject_Z z - inject_Z z) (1#2)) as [E|E|E]; [lra | reflexivity | lra].
Qed.

Lemma roundHalfEven_mono m1 m2 : m1 <= m2 -> (roundHalfEven m1 <= roundHalfEven m2)%Z.
Proof.
  intro H. pose proof (Qfloor_resp_le _ _ H) as Hf.
  pose proof (Qfloor_le m1) as L1. pose proof (Qlt_floor m1) as U1.
  pose proof (Qfloor_le m2) as L2. pose proof (Qlt_floor m2) as U2.
  rewrite inject_Z_plus in U1, U2. change (inject_Z 1) with 1 in U1, U2.
  unfold roundHalfEven.
  destruct (Z.eq_dec (Qfloor m1) (Qfloor m2)) as [E|E].
  - rewrite <- E in *.
    destruct (Qcompare_spec (m1 - inject_Z (Qfloor m1)) (1#2)) as [E1|E1|E1];
      destruct (Qcompare_spec (m2 - inject_Z (Qfloor m1)) (1#2)) as [E2|E2|E2];
      try destruct (Z.even (Qfloor m1)); try lia; lra.
  - assert (Hlt : (Qfloor m1 + 1 <= Qfloor m2)%Z) by lia.
    destruct (Qcompare (m1 - inject_Z (Qfloor m1)) (1#2));
      destruct (Qcompare (m2 - inject_Z (Qfloor m2)) (1#2));
      try destruct (Z.even (Qfloor m1)); try destruct (Z.even (Qfloor m2)); lia.
Qed.

Lemma roundHalfEven_le m z : m <= inject_Z z -> (roundHalfEven m <= z)%Z.
Proof. intro H. rewrite <- (roundHalfEven_Z z). apply roundHalfEven_mono. exact H. Qed.

Lemma roundHalfEven_ge m z : inject_Z z <= m -> (z <= roundHalfEven m)%Z.
Proof. intro H. rewrite <- (roundHalfEven_Z z). apply roundHalfEven_mono. exact H. Qed.

Lemma roundHalfEven_proper m1 m2 : m1 == m2 -> roundHalfEven m1 = roundHalfEven m2.
Proof.
  intro H. apply Z.le_antisymm; apply roundHalfEven_mono; rewrite H; apply Qle_refl.
Qed.

(** Rounding a positive number: the error is at most half the
    spacing, and rounding is monotone. *)
Lemma ulpExponent_mono x y : 0 < x -> x <= y -> (ulpExponent x <= ulpExponent y)%Z.
Proof. intros Hx H. unfold ulpExponent. pose proof (ilog2_mono x y Hx H). lia. Qed.

Lemma scaled_bounds x : 0 < x ->
  x / pow2 (ulpExponent x) < inject_Z (2 ^ 53)
  /\ ((-1022 <= ilog2 x)%Z -> inject_Z (2 ^ 52) <= x / pow2 (ulpExponent x)).
Proof.
  intro Hx. destruct (ilog2_spec x Hx) as [L U].
  pose proof (pow2_pos (ulpExponent x)) as Pk.
  rewrite <- !pow2_inject by lia.
  split.
  - apply Qlt_shift_div_r; [exact Pk|]. rewrite <- pow2_add.
    apply Qlt_le_trans with (pow2 (ilog2 x + 1)); [exact U|].
    apply pow2_le. unfold ulpExponent. lia.
  - intro Hn. apply Qle_shift_div_l; [exact Pk|]. rewrite <- pow2_add.
    apply Qle_trans with (pow2 (ilog2 x)); [|exact L].
    apply pow2_le. unfold ulpExponent. lia.
Qed.

Lemma roundPositive_error x : 0 < x ->
  Qabs (roundPositive x - x) <= pow2 (ulpExponent x - 1).
Proof.
  intro Hx. unfold roundPositive. set (k := ulpExponent x).
  pose proof (pow2_pos k) as Pk.
  destruct (roundHalfEven_near (x / pow2 k)) as [L U].
  set (n := inject_Z (roundHalfEven (x / pow2 k))) in *.
  assert (E : pow2 k == pow2 (k - 1) * 2).
  { change 2 with (pow2 1). rewrite <- pow2_add. replace (k - 1 + 1)%Z with k by lia. reflexivity. }
  assert (Ex : x == x / pow2 k * pow2 k) by (field; lra).
  set (m := x / pow2 k) in *.
  pose proof (pow2_pos (k - 1)) as Pk1.
  apply Qabs_Qle_condition. split.
  - assert (m * pow2 k - (1#2) * pow2 k <= n * pow2 k).
    { setoid_replace (m * pow2 k - (1 # 2) * pow2 k) with ((m - (1#2)) * pow2 k) by ring.
      apply Qmult_le_compat_r; lra. }
    lra.
  - assert (n * pow2 k <= m * pow2 k + (1#2) * pow2 k).
    { setoid_replace (m * pow2 k + (1 # 2) * pow2 k) with ((m + (1#2)) * pow2 k) by ring.
      apply Qmult_le_compat_r; lra. }
    lra.
Qed.

Lemma roundPositive_bounds x : 0 < x ->
  roundPositive x <= pow2 (ulpExponent x + 53)
  /\ ((-1022 <= ilog2 x)%Z -> pow2 (ilog2 x) <= roundPositive x)
  /\ 0 <= roundPositive x.
Proof.
  intro Hx. destruct (scaled_bounds x Hx) as [U L].
  unfold roundPositive. set (k := ulpExponent x) in *.
  pose proof (pow2_pos k) as Pk.
  split; [|split].
  - assert (E : pow2 (k + 53) == inject_Z (2 ^ 53) * pow2 k).
    { rewrite <- pow2_inject by lia. rewrite <- pow2_add.
      replace (53 + k)%Z with (k + 53)%Z by lia. reflexivity. }
    rewrite E. apply Qmult_le_compat_r; [|lra].
    rewrite <- Zle_Qle. apply roundHalfEven_le. lra.
  - intro Hn. specialize (L Hn).
    assert (E : pow2 (ilog2 x) == inject_Z (2 ^ 52) * pow2 k).
    { rewrite <- pow2_inject by lia. rewrite <- pow2_add. subst k. unfold ulpExponent.
      replace (52 + (Z.max (ilog2 x) (-1022) - 52))%Z with (ilog2 x) by lia. reflexivity. }
    rewrite E. apply Qmult_le_compat_r; [|lra].
    rewrite <- Zle_Qle. apply roundHalfEven_ge. exact L.
  - apply Qmult_le_0_compat; [|lra].
    change 0 with (inject_Z 0). rewrite <- Zle_Qle. apply roundHalfEven_ge.
    change (inject_Z 0) with 0. apply Qlt_le_weak. apply Qlt_shift_div_l; lra.
Qed.

Lemma roundPositive_mono x y : 0 < x -> x <= y -> roundPositive x <= roundPositive y.
Proof.
  intros Hx Hxy. assert (Hy : 0 < y) by lra.
  pose proof (ulpExponent_mono x y Hx Hxy) as Hk.
  destruct (Z.eq_dec (ulpExponent x) (ulpExponent y)) as [E|E].
  - unfold roundPositive. rewrite E. pose proof (pow2_pos (ulpExponent y)) as Pk.
    apply Qmult_le_compat_r; [|lra]. rewrite <- Zle_Qle. apply roundHalfEven_mono.
    apply Qmult_le_compat_r; [exact Hxy|]. apply Qlt_le_weak, Qinv_lt_0_compat. exact Pk.
  - assert (Hlt : (ulpExponent x < ulpExponent y)%Z) by lia.
    destruct (roundPositive_bounds x Hx) as (Ux & _ & _).
    destruct (roundPositive_bounds y Hy) as (_ & Ly & _).
    unfold ulpExponent in Hlt.
    assert (Hny : (-1022 <= ilog2 y)%Z) by lia.
    apply Qle_trans with (pow2 (ulpExponent x + 53)); [exact Ux|].
    apply Qle_trans with (pow2 (ilog2 y)); [|exact (Ly Hny)].
    apply pow2_le. unfold ulpExponent. lia.
Qed.

Lemma roundPositive_proper x y : x == y -> 0 < x -> roundPositive x == roundPositive y.
Proof.
  intros E Hx. apply Qle_antisym; apply roundPositive_mono; lra.
Qed.

Lemma round64_proper x y : x == y -> round64 x = round64 y.
Proof. intro H. unfold round64. rewrite (Qred_complete _ _ H). reflexivity. Qed.

Lemma round64_zero x : x == 0 -> round64 x = Fin 0.
Proof. intro H. rewrite (round64_proper _ _ H). reflexivity. Qed.

Lemma round64_pos x e :
  0 < x -> x < pow2 (e + 1) -> (-1022 <= e <= 1022)%Z ->
  exists r, round64 x = Fin r /\ r == roundPositive (Qred x)
            /\ 0 <= r /\ r <= pow2 (e + 1) /\ Qabs (r - x) <= pow2 (e - 53).
Proof.
  intros Hx Hlt He. unfold round64.
  pose proof (Qred_correct x) as Er. set (x' := Qred x) in *.
  assert (Hx' : 0 < x') by lra.
  assert (Hgt : Qcompare x' 0 = Gt) by (apply Qgt_alt; exact Hx').
  rewrite Hgt.
  destruct (roundPositive_bounds x' Hx') as (U & _ & N).
  pose proof (roundPositive_error x' Hx') as Err.
  assert (Hl : (ilog2 x' <= e)%Z) by (apply ilog2_lt; lra).
  assert (Hu : (ulpExponent x' <= e - 52)%Z) by (unfold ulpExponent; lia).
  assert (U' : roundPositive x' <= pow2 (e + 1)).
  { apply Qle_trans with (pow2 (ulpExponent x' + 53)); [exact U | apply pow2_le; lia]. }
  assert (Hfin : Qle_bool (pow2 1024) (roundPositive x') = false).
  { destruct (Qle_bool (pow2 1024) (roundPositive x')) eqn:E; [|reflexivity].
    apply Qle_bool_iff in E. exfalso.
    assert (pow2 (e + 1) < pow2 1024) by (apply pow2_lt; lia). lra. }
  rewrite Hfin. exists (Qred (roundPositive x')).
  split; [reflexivity|]. rewrite Qred_correct. split; [reflexivity|].
  split; [exact N|]. split; [exact U'|].
  apply Qle_trans with (pow2 (ulpExponent x' - 1)); [|apply pow2_le; lia].
  assert (E : roundPositive x' - x == roundPositive x' - x') by lra.
  rewrite E. exact Err.
Qed.

Lemma round64_nonneg x e :
  0 <= x -> x < pow2 (e + 1) -> (-1022 <= e <= 1022)%Z ->
  exists r, round64 x = Fin r
            /\ 0 <= r /\ r <= pow2 (e + 1) /\ Qabs (r - x) <= pow2 (e - 53).
Proof.
  intros Hx Hlt He. destruct (Qlt_le_dec 0 x) as [Hp|Hz].
  - destruct (round64_pos x e Hp Hlt He) as (r & H1 & _ & H2). exists r. split; assumption.
  - assert (E : x == 0) by lra. exists 0. rewrite (round64_zero x E).
    split; [reflexivity|]. split; [lra|]. split; [apply Qlt_le_weak, pow2_pos|].
    assert (E' : 0 - x == 0) by lra. rewrite E'. apply Qlt_le_weak, pow2_pos.
Qed.

Lemma round64_mono x y rx ry :
  0 <= x -> x <= y -> round64 x = Fin rx -> round64 y = Fin ry -> rx <= ry.
Proof.
  intros Hx Hxy Ex Ey. unfold round64 in Ex, Ey.
  pose proof (Qred_correct x) as Erx. pose proof (Qred_correct y) as Ery.
  set (x' := Qred x) in *. set (y' := Qred y) in *.
  destruct (Qcompare_spec x' 0) as [E|E|E]; [| lra |].
  - assert (Hrx : rx = 0) by congruence. subst rx.
    destruct (Qcompare_spec y' 0) as [E'|E'|E'].
    + assert (Hry : ry = 0) by congruence. subst ry. lra.
    + lra.
    + destruct (Qle_bool (pow2 1024) (roundPositive y')); [discriminate|].
      assert (Hry : ry = Qred (roundPositive y')) by congruence. subst ry.
      pose proof (Qred_correct (roundPositive y')) as E2.
      destruct (roundPositive_bounds y' E') as (_ & _ & N). lra.
  - destruct (Qcompare_spec y' 0) as [E'|E'|E']; [lra | lra |].
    destruct (Qle_bool (pow2 1024) (roundPositive x')); [discriminate|].
    destruct (Qle_bool (pow2 1024) (roundPositive y')); [discriminate|].
    assert (Hrx : rx = Qred (roundPositive x')) by congruence.
    assert (Hry : ry = Qred (roundPositive y')) by congruence. subst rx ry.
    pose proof (Qred_correct (roundPositive x')) as E1.
    pose proof (Qred_correct (roundPositive y')) as E2.
    assert (roundPositive x' <= roundPositive y') by (apply roundPositive_mono; lra).
    lra.
Qed.


Lemma round64_not_NaN (x : Q) : round64 x <> NaN.
Proof.
  unfold round64. destruct (Qcompare (Qred x) 0); [discriminate | |];
    match goal with |- context [Qle_bool ?a ?b] => destruct (Qle_bool a b) end; discriminate.
Qed.

Set Implicit Arguments.
Local Close Scope Q_scope.
Local Open Scope js_scope.

Lemma Qle_bool_false (a b : Q) : Qle_bool a b = false -> (b < a)%Q.
Proof.
  intro H. apply Qnot_le_lt. intro L. apply Qle_bool_iff in L. congruence.
Qed.

Lemma Qeq_bool_false (a b : Q) : Qeq_bool a b = false -> ~ (a == b)%Q.
Proof. intros H E. apply Qeq_bool_iff in E. congruence. Qed.

(** The clamp [Math.max(0, Math.min(1, x))] of anything but NaN is a
    finite number of the unit interval. *)
Lemma clamp_between (x : number) :
  x <> NaN -> JS.between 0 1 (Math_max $0 (Math_min $1 x)).
Proof.
  intro Hx. destruct x as [q| | |]; cbn; try congruence.
  - destruct (Qle_bool 1 q) eqn:E1; cbn.
    + split; [discriminate | apply Qle_refl].
    + apply Qle_bool_false in E1.
      destruct (Qle_bool 0 q) eqn:E0; cbn.
      * apply Qle_bool_iff in E0. split; [exact E0 | apply Qlt_le_weak; exact E1].
      * split; [apply Qle_refl | discriminate].
  - split; [discriminate | apply Qle_refl].
  - split; [apply Qle_refl | discriminate].
Qed.

Lemma one_minus_NaN (x : number) : $1 - x = NaN -> x = NaN.
Proof.
  destruct x; cbn; try congruence. intro H. exfalso. exact (round64_not_NaN _ H).
Qed.

(** Among finite numbers a quotient is NaN exactly for zero over zero. *)
Lemma div_finite_NaN (a b : Q) : $a / $b = NaN <-> (a == 0 /\ b == 0)%Q.
Proof.
  cbn. destruct (Qeq_bool b 0) eqn:Eb.
  - destruct (Qeq_bool a 0) eqn:Ea.
    + apply Qeq_bool_iff in Ea, Eb. tauto.
    + apply Qeq_bool_false in Ea. split; [|tauto].
      unfold infinity. destruct (Qltb 0 a); discriminate.
  - apply Qeq_bool_false in Eb. split; [|tauto].
    intro H. exfalso. exact (round64_not_NaN _ H).
Qed.

(** ** C7: the values a surface emits *)

(** C7: a surface measured with a zero dimension and a pointer at
    coordinate zero emits NaN, which is not a number of [0,1]: the
    clamp Math.max(0, Math.min(1, x)) lets the NaN of 0/0 through.
    This is the box as its constructor measures it on a node without
    layout, and a strip whose node is as high as its slider. *)
Theorem zero_measure_emits_NaN :
  snd (SaturationBox.onDidChangePosition (SaturationBox.create $0 $0 redModel) $0 $0)
    = [DidChange (NaN, NaN)]
  /\ snd (Strip.onDidChangeTop (Strip.create Strip.HueStrip $10 $10 redModel) $0)
    = [DidChange NaN]
  /\ ~ JS.between 0 1 NaN
  /\ ~ (forall (b : SaturationBox.t) (left top : number) (s v : number),
          snd (SaturationBox.onDidChangePosition b left top) = [DidChange (s, v)] ->
          JS.between 0 1 s /\ JS.between 0 1 v).
Proof.
  split; [reflexivity|]. split; [reflexivity|]. split; [intros []|].
  intro H.
  destruct (H (SaturationBox.create $0 $0 redModel) $0 $0 NaN NaN eq_refl) as [[] _].
Qed.

(** X20: whenever the quotient of the coordinate by the measured
    dimension is a number, the saturation, the value and a strip's
    value are the clamps of left/width, 1 - top/height and
    1 - top/height, and lie in [0,1]; for finite coordinates and
    dimensions the quotient fails to be a number only for a zero
    coordinate over a zero dimension. *)
Theorem emitted_values_normalized :
  (forall (b : SaturationBox.t) (left top : number),
      left / SaturationBox.width b <> NaN ->
      top / SaturationBox.height b <> NaN ->
      exists s v,
        snd (SaturationBox.onDidChangePosition b left top) = [DidChange (s, v)]
        /\ s = Math_max $0 (Math_min $1 (left / SaturationBox.width b))
        /\ v = Math_max $0 (Math_min $1 ($1 - top / SaturationBox.height b))
        /\ JS.between 0 1 s /\ JS.between 0 1 v)
  /\ (forall (st : Strip.t) (top : number),
      top / Strip.height st <> NaN ->
      exists value,
        snd (Strip.onDidChangeTop st top) = [DidChange value]
        /\ value = Math_max $0 (Math_min $1 ($1 - top / Strip.height st))
        /\ JS.between 0 1 value)
  /\ (forall coordinate dimension : Q,
      $coordinate / $dimension = NaN <-> (coordinate == 0 /\ dimension == 0)%Q).
Proof.
  split; [|split].
  - intros b left top Hs Hv. eexists. eexists.
    split; [reflexivity|]. split; [reflexivity|]. split; [reflexivity|].
    split; apply clamp_between; [exact Hs|].
    intro E. apply one_minus_NaN in E. exact (Hv E).
  - intros st top Hv. eexists.
    split; [reflexivity|]. split; [reflexivity|].
    apply clamp_between. intro E. apply one_minus_NaN in E. exact (Hv E).
  - exact div_finite_NaN.
Qed.

(** The pointer in the lower left corner of a box of 200 by 100
    pixels: saturation 0 and value 0. *)
Example lower_left_corner :
  match snd (SaturationBox.onDidChangePosition
               (SaturationBox.create $200 $100 redModel) $0 $100) with
  | [DidChange (s, v)] => s =n= $0 /\ v =n= $0
  | _ => False
  end.
Proof. vm_compute. split; reflexivity. Qed.

(** A pointer far outside a box of 200 by 100 pixels: the emitted
    saturation and value are clamped. *)
Lemma emitted_values_normalized_witness :
  exists s v,
    snd (SaturationBox.onDidChangePosition
           (SaturationBox.create $200 $100 redModel) $(-35) $460) = [DidChange (s, v)]
    /\ JS.between 0 1 s /\ JS.between 0 1 v.
Proof.
  destruct emitted_values_normalized as [Hbox _].
  destruct (Hbox (SaturationBox.create $200 $100 redModel) $(-35) $460)
    as (s & v & Hout & _ & _ & Hs & Hv).
  - vm_compute. discriminate.
  - vm_compute. discriminate.
  - exists s, v. split; [exact Hout|]. split; [exact Hs | exact Hv].
Defined.

(** ** C10: the hue written by the strip and read back *)

Local Open Scope Q_scope.
Unset Implicit Arguments.

(** Values that the proofs below meet, rounded. *)
Lemma round64_1 : round64 1 = Fin 1.
Proof. vm_compute. reflexivity. Qed.

Lemma round64_360 : round64 360 = Fin 360.
Proof. vm_compute. reflexivity. Qed.

Lemma round64_below_1 :
  round64 (1 - (1 # 9007199254740992)) = Fin (9007199254740991 # 9007199254740992).
Proof. vm_compute. reflexivity. Qed.

Lemma round64_tie_at_1 : round64 (1 - (1 # 18014398509481984)) = Fin 1.
Proof. vm_compute. reflexivity. Qed.

Lemma round64_below_360 :
  round64 ((9007199254740991 # 9007199254740992) * 360)
  = Fin (6333186975989759 # 17592186044416).
Proof. vm_compute. reflexivity. Qed.

(** A quantity of the unit interval is rounded into the unit interval,
    with an error of at most 2^-53. *)
Lemma round64_unit (x : Q) :
  0 <= x -> x <= 1 ->
  exists r, round64 x = Fin r /\ 0 <= r /\ r <= 1
            /\ Qabs (r - x) <= (1 # 9007199254740992).
Proof.
  intros H0 H1.
  destruct (round64_nonneg x 0) as (r & Hr & Hr0 & _ & Herr);
    [exact H0 | change (pow2 (0 + 1)) with 2; lra | lia |].
  exists r. split; [exact Hr|]. split; [exact Hr0|]. split; [|exact Herr].
  exact (round64_mono x 1 r 1 H0 H1 Hr round64_1).
Qed.

(** What onDidHueChange computes from a value of the unit interval. *)
Lemma hue_computed (value : Q) :
  0 <= value -> value <= 1 ->
  exists a h,
    ($1 - $value)%js = Fin a /\ 0 <= a /\ a <= 1
    /\ Qabs (a - (1 - value)) <= (1 # 9007199254740992)
    /\ (Fin a * $360)%js = Fin h /\ 0 <= h /\ h <= 360
    /\ Qabs (h - a * 360) <= (1 # 35184372088832).
Proof.
  intros H0 H1.
  destruct (round64_unit (1 - value)) as (a & Ha & Ha0 & Ha1 & Haerr); [lra | lra |].
  destruct (round64_nonneg (a * 360) 8) as (h & Hh & Hh0 & _ & Hherr);
    [lra | change (pow2 (8 + 1)) with 512; lra | lia |].
  exists a, h. repeat split; try assumption.
  apply (round64_mono (a * 360) 360 h 360); [lra | lra | exact Hh | exact round64_360].
Qed.

Lemma Qabs_bound (x b : Q) : Qabs x <= b -> - b <= x /\ x <= b.
Proof. intro H. apply Qabs_Qle_condition. exact H. Qed.

(** C10, as stated, fails: the value 0.3 of a double is written as the
    hue 252 and read back as 0.30000000000000004, and a value as
    small as 2^-60 is written as the hue 0 and read back as 1. *)
Lemma hue_round_trip_rounds :
  let roundTrip value :=
    Strip.getValue Strip.HueStrip
      (color (AbstractColorPickerBody.onDidHueChange redModel $value)) in
  round64 (3 # 10) = $(5404319552844595 # 18014398509481984)
  /\ roundTrip (5404319552844595 # 18014398509481984)
     = $(1351079888211149 # 4503599627370496)
  /\ roundTrip (1 # 1152921504606846976) = $1
  /\ ~ (forall value : Q,
          0 < value -> value <= 1 -> (roundTrip value =n= $value)%js).
Proof.
  intro roundTrip.
  split; [vm_compute; reflexivity|]. split; [vm_compute; reflexivity|].
  split; [vm_compute; reflexivity|].
  intro H. specialize (H (1 # 1152921504606846976) eq_refl).
  assert (E : roundTrip (1 # 1152921504606846976) = $1) by (vm_compute; reflexivity).
  rewrite E in H. specialize (H ltac:(discriminate)). discriminate H.
Qed.

(** C10, amended: for a value of [0,1], onDidHueChange stores a hue of
    [0,360), the computed hue being replaced by 0 when it is 360;
    HueStrip.getValue reads back a number that differs from the value
    by at most 2^-51 when the value is at least 2^-53, and reads 1
    back when the value is at most 2^-54, the value 0 among them. *)
Theorem hue_round_trip (model : ColorPickerModel) (value : Q) :
  0 <= value -> value <= 1 ->
  let stored := color (AbstractColorPickerBody.onDidHueChange model $value) in
  JS.between_excl 0 360 (HSVA.h (hsva stored))
  /\ exists back : Q,
       Strip.getValue Strip.HueStrip stored = $back
       /\ ((1 # 9007199254740992) <= value ->
           Qabs (back - value) <= (1 # 2251799813685248))
       /\ (value <= (1 # 18014398509481984) -> back == 1).
Proof.
  intros H0 H1 stored. subst stored.
  destruct (hue_computed value H0 H1)
    as (a & h & Ha & Ha0 & Ha1 & Haerr & Hh & Hh0 & Hh1 & Hherr).
  unfold AbstractColorPickerBody.onDidHueChange, Strip.getValue.
  cbn [color hsva HSVA.h set_color].
  rewrite Ha, Hh. cbn [JS.strict_eq].
  apply Qabs_bound in Haerr, Hherr.
  (* the computed hue is 360 exactly for the values that round to 1 *)
  assert (Hlarge : (1 # 9007199254740992) <= value -> h < 360).
  { intro Hv.
    assert (Hale : a <= 9007199254740991 # 9007199254740992).
    { refine (round64_mono (1 - value) (1 - (1 # 9007199254740992)) a _ _ _ _
                round64_below_1); [lra | lra |].
      exact Ha. }
    assert (Hhle : h <= 6333186975989759 # 17592186044416).
    { refine (round64_mono (a * 360) ((9007199254740991 # 9007199254740992) * 360) h _ _ _ _
                round64_below_360); [lra | lra |].
      exact Hh. }
    lra. }
  assert (Hsmall : value <= (1 # 18014398509481984) -> h = 360).
  { intro Hv.
    assert (Hage : 1 <= a).
    { refine (round64_mono (1 - (1 # 18014398509481984)) (1 - value) 1 a _ _
                round64_tie_at_1 _); [lra | lra |].
      exact Ha. }
    assert (Ea : a * 360 == 360) by lra.
    cbn [JS.mul] in Hh. rewrite (round64_proper _ _ Ea), round64_360 in Hh.
    congruence. }
  destruct (Qeq_bool h 360) eqn:E.
  - apply Qeq_bool_iff in E. split; [cbn; lra|].
    exists 1. split; [|split].
    + cbn [JS.div JS.sub Qeq_bool]. change (Qeq_bool 360 0) with false.
      cbv iota. rewrite (round64_zero (0 / 360)) by reflexivity.
      cbn [JS.sub]. rewrite (round64_proper (1 - 0) 1) by reflexivity.
      exact round64_1.
    + intro Hv. specialize (Hlarge Hv). lra.
    + intros _. reflexivity.
  - apply Qeq_bool_false in E. split; [cbn; lra|].
    cbn [JS.div]. change (Qeq_bool 360 0) with false. cbv iota.
    destruct (round64_unit (h / 360)) as (q & Hq & Hq0 & Hq1 & Hqerr).
    { apply Qle_shift_div_l; lra. }
    { apply Qle_shift_div_r; lra. }
    rewrite Hq. cbn [JS.sub].
    destruct (round64_unit (1 - q)) as (b & Hb & Hb0 & Hb1 & Hberr); [lra | lra |].
    exists b. split; [exact Hb|]. split.
    + intros _. apply Qabs_bound in Hqerr, Hberr.
      assert (Hdiv : h / 360 * 360 == h) by (field).
      set (t := h / 360) in *.
      apply Qabs_Qle_condition. lra.
    + intro Hv. specialize (Hsmall Hv). exfalso. apply E. rewrite Hsmall. reflexivity.
Qed.

(** The middle of the strip is the hue 180 and reads back as 1/2
    within the bound; the bottom of the strip is stored as hue 0 and
    reads back as 1. *)
Lemma hue_round_trip_witness :
  JS.between_excl 0 360
    (HSVA.h (hsva (color (AbstractColorPickerBody.onDidHueChange redModel $(1#2)))))
  /\ (exists back : Q,
        Strip.getValue Strip.HueStrip
          (color (AbstractColorPickerBody.onDidHueChange redModel $(1#2))) = $back
        /\ Qabs (back - (1#2)) <= (1 # 2251799813685248))
  /\ (exists back : Q,
        Strip.getValue Strip.HueStrip
          (color (AbstractColorPickerBody.onDidHueChange redModel $0)) = $back
        /\ back == 1).
Proof.
  split; [|split].
  - apply (@hue_round_trip redModel (1#2)); discriminate.
  - destruct (@hue_round_trip redModel (1#2)) as (_ & back & Hb & Hnear & _);
      [discriminate | discriminate |].
    exists back. split; [exact Hb | apply Hnear; discriminate].
  - destruct (@hue_round_trip redModel 0) as (_ & back & Hb & _ & Hone);
      [discriminate | discriminate |].
    exists back. split; [exact Hb | apply Hone; discriminate].
Defined.

Set Implicit Arguments.
Local Close Scope Q_scope.

(** ** C3: what a drag fires *)

Lemma run_app {S E} (step : S -> Gesture -> S * list E) (gs1 gs2 : list Gesture) (s : S) :
  run step s (gs1 ++ gs2)
  = (fst (run step (fst (run step s gs1)) gs2),
     snd (run step s gs1) ++ snd (run step (fst (run step s gs1)) gs2)).
Proof.
  revert s. induction gs1 as [|g gs1 IH]; intro s; cbn.
  - destruct (run step s gs2); reflexivity.
  - destruct (step s g) as [s1 out]. rewrite IH.
    destruct (run step s1 gs1) as [s2 outs]. reflexivity.
Qed.

Lemma shape_flushes_once {E} (d : Drag) (outs : list (list (Fired E))) :
  drag_shape d outs -> count_flushes outs = 1%nat.
Proof.
  intros (down & moved & -> & Hdown & _ & Hmoved).
  unfold count_flushes. cbn [concat].
  rewrite concat_app, filter_app, filter_app, length_app, length_app. cbn.
  assert (Hd : filter is_flush down = []).
  { destruct (on_handle d); [subst; reflexivity | destruct Hdown as [x ->]; reflexivity]. }
  assert (Hm : filter is_flush (concat moved) = []).
  { induction Hmoved as [|out rest [x ->] _ IH]; [reflexivity | exact IH]. }
  rewrite Hd, Hm. reflexivity.
Qed.

(** *** The box *)

Lemma box_create_idle (w h : number) (model : ColorPickerModel) :
  box_idle (SaturationBox.create w h model).
Proof. repeat split. Qed.

Lemma box_down (b : SaturationBox.t) (d : Drag) :
  box_idle b ->
  let e := mkPointerEvent (if on_handle d then Handle else OtherElement)
             (fst (down_at d)) (snd (down_at d)) (fst (down_at d)) (snd (down_at d)) in
  box_dragging (fst (SaturationBox.onPointerDown b e (origin_at d)))
  /\ (if on_handle d
      then snd (SaturationBox.onPointerDown b e (origin_at d)) = []
      else exists x, snd (SaturationBox.onPointerDown b e (origin_at d)) = [DidChange x]).
Proof.
  intros (Hm & Hr & Hn) e. subst e.
  unfold SaturationBox.onPointerDown. cbn [target offsetX offsetY].
  destruct (on_handle d); cbn; rewrite Hm, Hr, Hn.
  - split; [|reflexivity]. split; [eexists; split; reflexivity | split; reflexivity].
  - split; [|eexists; reflexivity]. split; [eexists; split; reflexivity | split; reflexivity].
Qed.

Lemma box_move (b : SaturationBox.t) (p : number * number) :
  box_dragging b ->
  box_dragging (fst (box_step b (move_event p)))
  /\ exists x, snd (box_step b (move_event p)) = [DidChange x].
Proof.
  intros ((m & Hm & Hmon) & Hr & Hn).
  cbn [box_step move_event]. unfold SaturationBox.onPointerMove.
  rewrite Hm, Hr. cbn [app fold_left]. unfold SaturationBox.moveCallback.
  rewrite Hmon. cbn.
  split; [|eexists; reflexivity].
  split; [exists m; split; assumption | split; assumption].
Qed.

Lemma box_moves (ps : list (number * number)) (b : SaturationBox.t) :
  box_dragging b ->
  box_dragging (fst (run box_step b (map move_event ps)))
  /\ length (snd (run box_step b (map move_event ps))) = length ps
  /\ Forall (fun out => exists x, out = [DidChange x])
            (snd (run box_step b (map move_event ps))).
Proof.
  revert b. induction ps as [|p ps IH]; intros b Hb; cbn [map run].
  - cbn. split; [exact Hb | split; [reflexivity | constructor]].
  - destruct (box_move p Hb) as [Hb1 Hout].
    destruct (box_step b (move_event p)) as [b1 out]. cbn [fst snd] in Hb1, Hout.
    destruct (IH b1 Hb1) as (Hb2 & Hlen & Hall).
    destruct (run box_step b1 (map move_event ps)) as [b2 outs].
    cbn [fst snd] in *. split; [exact Hb2|]. split; [cbn; congruence|].
    constructor; assumption.
Qed.

Lemma box_up (b : SaturationBox.t) :
  box_dragging b ->
  box_idle (fst (SaturationBox.onPointerUp b))
  /\ snd (SaturationBox.onPointerUp b) = [ColorFlushed].
Proof.
  intros (_ & _ & Hn). unfold SaturationBox.onPointerUp. rewrite Hn. cbn.
  split; [repeat split | reflexivity].
Qed.

Lemma box_drag (b : SaturationBox.t) (d : Drag) :
  box_idle b ->
  box_idle (fst (run box_step b (drag_events d)))
  /\ drag_shape d (snd (run box_step b (drag_events d))).
Proof.
  intro Hb. unfold drag_events. cbn [run box_step].
  destruct (box_down d Hb) as [Hb1 Hdown].
  destruct (SaturationBox.onPointerDown b _ (origin_at d)) as [b1 down].
  cbn [fst snd] in Hb1, Hdown.
  rewrite run_app.
  destruct (box_moves (moves d) Hb1) as (Hb2 & Hlen & Hall).
  destruct (run box_step b1 (map move_event (moves d))) as [b2 moved].
  cbn [fst snd] in *. cbn [run box_step].
  destruct (box_up Hb2) as [Hb3 Hup].
  destruct (SaturationBox.onPointerUp b2) as [b3 up]. cbn [fst snd] in *. subst up.
  split; [exact Hb3|].
  exists down, moved. repeat split; assumption.
Qed.

Lemma box_drags (ds : list Drag) (b : SaturationBox.t) :
  box_idle b -> box_idle (fst (run box_step b (flat_map drag_events ds))).
Proof.
  revert b. induction ds as [|d ds IH]; intros b Hb; cbn [flat_map].
  - exact Hb.
  - rewrite run_app. cbn [fst]. apply IH. apply (box_drag d Hb).
Qed.

(** *** The strips *)

Lemma strip_create_idle (k : Strip.Kind) (offsetHeight sliderHeight : number)
  (model : ColorPickerModel) :
  strip_idle (Strip.create k offsetHeight sliderHeight model).
Proof. destruct k; reflexivity. Qed.

Lemma strip_down (st : Strip.t) (d : Drag) :
  strip_idle st ->
  let e := mkPointerEvent (if on_handle d then Handle else OtherElement)
             (fst (down_at d)) (snd (down_at d)) (fst (down_at d)) (snd (down_at d)) in
  strip_dragging (fst (Strip.onPointerDown st e (origin_at d)))
  /\ (if on_handle d
      then snd (Strip.onPointerDown st e (origin_at d)) = []
      else exists x, snd (Strip.onPointerDown st e (origin_at d)) = [DidChange x]).
Proof.
  intros Hd e. subst e. unfold strip_idle in Hd.
  unfold Strip.onPointerDown. cbn [target offsetX offsetY].
  destruct (on_handle d); cbn; rewrite Hd.
  - split; [eexists; split; reflexivity | reflexivity].
  - split; [eexists; split; reflexivity | eexists; reflexivity].
Qed.

Lemma strip_move (st : Strip.t) (p : number * number) :
  strip_dragging st ->
  strip_dragging (fst (strip_step st (move_event p)))
  /\ exists x, snd (strip_step st (move_event p)) = [DidChange x].
Proof.
  intros (m & Hd & Hmon).
  cbn [strip_step move_event]. unfold Strip.onPointerMove.
  rewrite Hd. cbn [fold_left]. unfold Strip.moveCallback.
  rewrite Hmon. cbn.
  split; [exists m; split; assumption | eexists; reflexivity].
Qed.

Lemma strip_moves (ps : list (number * number)) (st : Strip.t) :
  strip_dragging st ->
  strip_dragging (fst (run strip_step st (map move_event ps)))
  /\ length (snd (run strip_step st (map move_event ps))) = length ps
  /\ Forall (fun out => exists x, out = [DidChange x])
            (snd (run strip_step st (map move_event ps))).
Proof.
  revert st. induction ps as [|p ps IH]; intros st Hst; cbn [map run].
  - cbn. split; [exact Hst | split; [reflexivity | constructor]].
  - destruct (strip_move p Hst) as [Hst1 Hout].
    destruct (strip_step st (move_event p)) as [st1 out]. cbn [fst snd] in Hst1, Hout.
    destruct (IH st1 Hst1) as (Hst2 & Hlen & Hall).
    destruct (run strip_step st1 (map move_event ps)) as [st2 outs].
    cbn [fst snd] in *. split; [exact Hst2|]. split; [cbn; congruence|].
    constructor; assumption.
Qed.

Lemma strip_up (st : Strip.t) :
  strip_dragging st ->
  strip_idle (fst (Strip.onPointerUp st))
  /\ snd (Strip.onPointerUp st) = [ColorFlushed].
Proof.
  intros (m & Hd & _). unfold Strip.onPointerUp. rewrite Hd. cbn.
  split; reflexivity.
Qed.

Lemma strip_drag (st : Strip.t) (d : Drag) :
  strip_idle st ->
  strip_idle (fst (run strip_step st (drag_events d)))
  /\ drag_shape d (snd (run strip_step st (drag_events d))).
Proof.
  intro Hst. unfold drag_events. cbn [run strip_step].
  destruct (strip_down d Hst) as [Hst1 Hdown].
  destruct (Strip.onPointerDown st _ (origin_at d)) as [st1 down].
  cbn [fst snd] in Hst1, Hdown.
  rewrite run_app.
  destruct (strip_moves (moves d) Hst1) as (Hst2 & Hlen & Hall).
  destruct (run strip_step st1 (map move_event (moves d))) as [st2 moved].
  cbn [fst snd] in *. cbn [run strip_step].
  destruct (strip_up Hst2) as [Hst3 Hup].
  destruct (Strip.onPointerUp st2) as [st3 up]. cbn [fst snd] in *. subst up.
  split; [exact Hst3|].
  exists down, moved. repeat split; assumption.
Qed.

Lemma strip_drags (ds : list Drag) (st : Strip.t) :
  strip_idle st -> strip_idle (fst (run strip_step st (flat_map drag_events ds))).
Proof.
  revert st. induction ds as [|d ds IH]; intros st Hst; cbn [flat_map].
  - exact Hst.
  - rewrite run_app. cbn [fst]. apply IH. apply (strip_drag d Hst).
Qed.

(** C3: on a box and on a strip (hue or opacity), whatever drags came
    before, a drag sequence fires onColorFlushed exactly once, as the
    only event of its pointer-up; the pointer-down fires one
    onDidChange, or nothing when it is on the handle, and every
    pointer-move fires one onDidChange. *)
Theorem flushed_once_on_pointer_up :
  (forall (offsetWidth offsetHeight : number) (model : ColorPickerModel)
          (before : list Drag) (d : Drag),
      let b := fst (run box_step (SaturationBox.create offsetWidth offsetHeight model)
                        (flat_map drag_events before)) in
      let fired := snd (run box_step b (drag_events d)) in
      drag_shape d fired /\ count_flushes fired = 1%nat)
  /\ (forall (k : Strip.Kind) (offsetHeight sliderHeight : number) (model : ColorPickerModel)
          (before : list Drag) (d : Drag),
      let st := fst (run strip_step (Strip.create k offsetHeight sliderHeight model)
                         (flat_map drag_events before)) in
      let fired := snd (run strip_step st (drag_events d)) in
      drag_shape d fired /\ count_flushes fired = 1%nat).
Proof.
  split.
  - intros w h model before d b fired.
    assert (Hshape : drag_shape d fired).
    { apply box_drag. apply box_drags. apply box_create_idle. }
    split; [exact Hshape | exact (shape_flushes_once Hshape)].
  - intros k oh sh model before d st fired.
    assert (Hshape : drag_shape d fired).
    { apply strip_drag. apply strip_drags. apply strip_create_idle. }
    split; [exact Hshape | exact (shape_flushes_once Hshape)].
Qed.

(** A drag of the box from outside the selection circle with two
    moves, gesture by gesture. *)
Example box_drag_fires :
  let d := mkDrag false ($50, $25) ($10, $10) [($110, $60); ($400, $(-5))] in
  map (map is_flush)
      (snd (run box_step (SaturationBox.create $200 $100 redModel) (drag_events d)))
  = [[false]; [false]; [false]; [true]].
Proof. reflexivity. Qed.

(** ** C6: colour changes of the model during a drag *)

(** C6, as stated, fails for the strips: a hue strip of height 100 with
    its pointer held down on the slider moves the slider from 0px to
    50px when the model's colour becomes cyan. *)
Lemma strip_follows_model_while_dragging :
  let st := fst (Strip.onPointerDown (Strip.create Strip.HueStrip $110 $10 redModel)
                   (mkPointerEvent Handle $0 $0 $20 $30) ($20, $30)) in
  strip_dragging st
  /\ Strip.slider_top st =n= $0
  /\ Strip.slider_top (Strip.onDidChangeColor st cyan) =n= $50
  /\ ~ (forall (st : Strip.t) (c : Color),
          strip_dragging st ->
          Strip.slider_top (Strip.onDidChangeColor st c) =n= Strip.slider_top st).
Proof.
  intro st.
  assert (Hdrag : strip_dragging st) by (eexists; split; reflexivity).
  split; [exact Hdrag|].
  split; [vm_compute; reflexivity|]. split; [vm_compute; reflexivity|].
  intro H. specialize (H st cyan Hdrag). vm_compute in H. discriminate H.
Qed.

(** C6, amended: the box ignores a colour change of the model while the
    monitor of its field is monitoring, and repaints when it has no
    monitor; a strip has no such check: on every colour change, during
    a drag or not, it moves its slider to the value of the new colour,
    and the opacity strip recomputes its overlay. *)
Theorem color_change_during_drag :
  (forall (b : SaturationBox.t) (m : GlobalPointerMoveMonitor) (c : Color),
      SaturationBox.monitor b = Some m -> isMonitoring m = true ->
      SaturationBox.onDidChangeColor b c = b)
  /\ (forall (st : Strip.t) (c : Color),
      Strip.slider_top (Strip.onDidChangeColor st c)
        = ($1 - Strip.getValue (Strip.kind st) c) * Strip.height st
      /\ Strip.drags (Strip.onDidChangeColor st c) = Strip.drags st
      /\ (Strip.kind st = Strip.OpacityStrip ->
          Strip.overlay (Strip.onDidChangeColor st c) = Some c))
  /\ (forall (b : SaturationBox.t) (c : Color),
      SaturationBox.monitor b = None ->
      SaturationBox.paints (SaturationBox.onDidChangeColor b c) = S (SaturationBox.paints b)).
Proof.
  split; [|split].
  - intros b m c Hm Hmon. unfold SaturationBox.onDidChangeColor.
    rewrite Hm, Hmon. reflexivity.
  - intros st c. unfold Strip.onDidChangeColor. cbn.
    destruct (Strip.kind st); cbn; repeat split; congruence.
  - intros b c Hm. unfold SaturationBox.onDidChangeColor. rewrite Hm. reflexivity.
Qed.

(** A box with the pointer held down outside its selection circle
    keeps its selection and its canvas when the model turns cyan. *)
Lemma color_change_during_drag_witness :
  let b := fst (SaturationBox.onPointerDown (SaturationBox.create $200 $100 redModel)
                  (mkPointerEvent OtherElement $50 $25 $60 $35) ($10, $10)) in
  SaturationBox.onDidChangeColor b cyan = b.
Proof.
  intro b. destruct color_change_during_drag as (Hbox & _ & _).
  apply (Hbox b (startMonitoring $10 $10) cyan); reflexivity.
Defined.

(** ** C1 and C2: the hover picker and the buffer *)

Lemma new_calls_app (before added : list Call) : new_calls before (before ++ added) = added.
Proof.
  unfold new_calls. induction before as [|c before IH]; [reflexivity | exact IH].
Qed.

Section HoverPicker.

(** What the continuation of a flushed listener does when the model
    has a presentation, whatever the flag was: the four calls on the
    editor, the range read back, the flag down again. *)
Lemma flushedContinues_edits (tracked : option Range) (p : HoverColorPicker)
  (pr : IColorPresentation) :
  presentation (hover_model p) = Some pr ->
  hover_flushedContinues tracked p
  = mkHover (match tracked with
             | Some r => r
             | None => edit_range (primaryEdit (range p) pr)
             end)
            false (hover_model p)
            ((((hover_calls p ++ [SetTrackedRange (edit_range (primaryEdit (range p) pr))])
                ++ [ExecuteEdits "colorpicker" (textEdits (range p) pr)])
                ++ [PushUndoStop]) ++ [GetTrackedRange]).
Proof.
  intro H. unfold hover_flushedContinues, _updateEditorModel.
  cbn [range hover_model]. rewrite H. reflexivity.
Qed.

(** Without a presentation it raises the flag and throws. *)
Lemma flushedContinues_throws (tracked : option Range) (p : HoverColorPicker) :
  presentation (hover_model p) = None ->
  hover_flushedContinues tracked p
  = mkHover (range p) true (hover_model p) (hover_calls p).
Proof.
  intro H. unfold hover_flushedContinues, _updateEditorModel.
  cbn [range hover_model]. rewrite H. reflexivity.
Qed.

Lemma flag_down_step (p : HoverColorPicker) (e : HoverEvent) :
  flushesFindPresentation p [e] = true ->
  editorUpdatedByColorPicker p = false ->
  editorUpdatedByColorPicker (hover_step p e) = false.
Proof.
  intros Hf H. destruct e; cbn; try exact H.
  - cbn in Hf. destruct (presentation (hover_model p)) as [pr|] eqn:Hp; [|discriminate Hf].
    rewrite (flushedContinues_edits tracked p Hp). reflexivity.
  - unfold hover_onDidChangeModelContent. rewrite H. exact H.
Qed.

Lemma flushesFind_cons (p : HoverColorPicker) (e : HoverEvent) (es : list HoverEvent) :
  flushesFindPresentation p (e :: es) = true ->
  flushesFindPresentation p [e] = true
  /\ flushesFindPresentation (hover_step p e) es = true.
Proof.
  cbn. intro H. apply andb_prop in H as [H1 H2]. rewrite H1. split; [reflexivity | exact H2].
Qed.

Lemma flag_down_run (es : list HoverEvent) (p : HoverColorPicker) :
  flushesFindPresentation p es = true ->
  editorUpdatedByColorPicker p = false ->
  editorUpdatedByColorPicker (hover_run p es) = false.
Proof.
  revert p. induction es as [|e es IH]; intros p Hf H; [exact H|].
  apply flushesFind_cons in Hf as [H1 H2].
  cbn. apply IH; [exact H2 | apply flag_down_step; assumption].
Qed.

(** With the flag down and every edit succeeding, the picker hides
    once for every content change from elsewhere, and for nothing
    else. *)
Lemma hides_count_run (es : list HoverEvent) (p : HoverColorPicker) :
  flushesFindPresentation p es = true ->
  editorUpdatedByColorPicker p = false ->
  length (filter is_hide (hover_calls (hover_run p es)))
  = (length (filter is_hide (hover_calls p)) + length (filter is_external es))%nat.
Proof.
  revert p. induction es as [|e es IH]; intros p Hf H; [cbn; lia|].
  apply flushesFind_cons in Hf as [H1 H2].
  change (hover_run p (e :: es)) with (hover_run (hover_step p e) es).
  rewrite (IH _ H2 (flag_down_step p e H1 H)).
  destruct e; cbn [filter is_external length hover_step].
  - cbn. rewrite filter_app. cbn. rewrite app_nil_r. lia.
  - cbn. rewrite filter_app. cbn. rewrite app_nil_r. lia.
  - cbn. lia.
  - cbn in H1. destruct (presentation (hover_model p)) as [pr|] eqn:Hp; [|discriminate H1].
    rewrite (flushedContinues_edits tracked p Hp). cbn [hover_calls].
    rewrite !filter_app. cbn. rewrite !app_nil_r. lia.
  - unfold hover_onDidChangeModelContent. rewrite H. cbn.
    rewrite !filter_app, !length_app. cbn. lia.
Qed.

End HoverPicker.

(** C1: the provider answers the re-fetch of a flushed event with no
    presentation.  The listener raises the flag and throws before the
    edit, so no content change of its own comes to consume the flag:
    the next content change from elsewhere only lowers the flag and
    hides nothing; the change after that hides. *)
Theorem failed_edit_swallows_foreign_change :
  let p := hover_run (hover_create at_3_5_9 redModel)
             [Flushed; PresentationsArrive None; FlushedContinues None] in
  editorUpdatedByColorPicker p = true
  /\ hover_calls p = [GetColorPresentations red at_3_5_9]
  /\ hover_step p ExternalContentChange
     = mkHover at_3_5_9 false (set_colorPresentations redModel [])
               [GetColorPresentations red at_3_5_9]
  /\ hover_calls (hover_run p [ExternalContentChange; ExternalContentChange])
     = [GetColorPresentations red at_3_5_9; ContextHide; EditorFocus].
Proof. repeat split. Qed.

(** X18: in a hover picker in which every continuation of a flushed
    listener finds a presentation, after any events the flag is down
    and the picker has hidden once for every content change from
    elsewhere and for nothing else; the content-change event of the
    picker's own edit is consumed by the flag raised just before the
    edit and hides nothing; a content change from elsewhere hides the
    picker; and the flag is one-shot: once a content change has
    consumed it, the next content change hides. *)
Theorem own_edit_does_not_hide
  (r : Range) (m : ColorPickerModel) (es : list HoverEvent) :
  flushesFindPresentation (hover_create r m) es = true ->
  let p := hover_run (hover_create r m) es in
  editorUpdatedByColorPicker p = false
  /\ length (filter is_hide (hover_calls p)) = length (filter is_external es)
  /\ (forall (tracked : option Range) (pr : IColorPresentation),
        presentation (hover_model p) = Some pr ->
        let p' := hover_step p (FlushedContinues tracked) in
        let added := new_calls (hover_calls p) (hover_calls p') in
        filter is_edit added = [ExecuteEdits "colorpicker" (textEdits (range p) pr)]
        /\ filter is_hide added = []
        /\ editorUpdatedByColorPicker p' = false)
  /\ new_calls (hover_calls p) (hover_calls (hover_step p ExternalContentChange))
     = [ContextHide; EditorFocus]
  /\ (forall q : HoverColorPicker,
        let flagged := mkHover (range q) true (hover_model q) (hover_calls q) in
        let consumed := hover_onDidChangeModelContent flagged in
        consumed = mkHover (range q) false (hover_model q) (hover_calls q)
        /\ hover_calls (hover_onDidChangeModelContent consumed)
           = hover_calls q ++ [ContextHide; EditorFocus]).
Proof.
  intros Hf p.
  assert (Hflag : editorUpdatedByColorPicker p = false)
    by (apply flag_down_run; [exact Hf | reflexivity]).
  split; [exact Hflag|]. split; [|split; [|split]].
  - subst p. rewrite hides_count_run; [reflexivity | exact Hf | reflexivity].
  - intros tracked pr Hp p' added. subst p' added. cbn [hover_step].
    rewrite (flushedContinues_edits tracked p Hp). cbn [hover_calls editorUpdatedByColorPicker].
    rewrite <- !app_assoc, new_calls_app. cbn. repeat split.
  - cbn [hover_step]. unfold hover_onDidChangeModelContent. rewrite Hflag.
    unfold hover_hide, hover_record. cbn [hover_calls].
    rewrite <- app_assoc, new_calls_app. reflexivity.
  - intros q flagged consumed. subst flagged consumed. cbn.
    split; [reflexivity|]. rewrite <- app_assoc. reflexivity.
Qed.

(** Two drags' worth of events on the picker of a red #ff0000: a
    flush answered with a presentation, its own content change, then
    a content change from elsewhere. *)
Lemma own_edit_does_not_hide_witness :
  let es := [Flushed; PresentationsArrive (Some [hexRed]); FlushedContinues None;
             ExternalContentChange] in
  let p := hover_run (hover_create at_3_5_9 redModel) es in
  editorUpdatedByColorPicker p = false
  /\ length (filter is_hide (hover_calls p)) = 1%nat.
Proof.
  intros es p.
  destruct (@own_edit_does_not_hide at_3_5_9 redModel es eq_refl) as (H1 & H2 & _).
  split; [exact H1 | exact H2].
Defined.

(** C2: the provider answers the re-fetch of a flushed event with no
    presentation, or with none at all.  The flushed event is handled
    up to its fetch; then reading model.presentation.textEdit throws:
    nothing is tracked, no edit is applied, no undo stop is pushed, the
    stored range is not read back and the flag stays raised. *)
Theorem flush_without_presentation_throws :
  let p := hover_create at_3_5_9 redModel in
  (forall tracked : option Range,
      hover_onColorFlushed (Some []) tracked p
      = mkHover at_3_5_9 true (set_colorPresentations redModel [])
                [GetColorPresentations red at_3_5_9])
  /\ (forall tracked : option Range,
        hover_onColorFlushed None tracked p
        = mkHover at_3_5_9 true (set_colorPresentations redModel [])
                  [GetColorPresentations red at_3_5_9])
  /\ _updateEditorModel hover_record hover_onDidChangeModelContent
       None at_3_5_9 (set_colorPresentations redModel []) p
     = (TypeError, p).
Proof. repeat split. Qed.



(** ** C8: the standalone picker *)

Section StandalonePicker.






End StandalonePicker.




Example standalone_update_after_flush :
  let es := [SColorChanged cyan; SFlushed; SUpdateEditorModel true (Some [hexRed]) None] in
  standalone_calls (standalone_run (standalone_create at_3_5_9 redModel) es)
  = [GetColorPresentations red at_3_5_9;
     GetColorPresentations cyan at_3_5_9;
     GetColorPresentations cyan at_3_5_9;
     SetTrackedRange at_3_5_9;
     ExecuteEdits "colorpicker" [mkEdit at_3_5_9 "#ff0000" false];
     ContextHide;
     EditorFocus;
     PushUndoStop;
     GetTrackedRange].
Proof. reflexivity. Qed.

(** ** C4 and C5: the hide routine of the hover controller *)

Module HoverFacts.
Import ModesHoverController.

(** The guard of [_hideWidgets]. *)
Lemma hide_guarded (c : t) :
  _isMouseDown c = true -> _hoverClicked c = true -> contentColorPickerVisible c = true ->
  _hideWidgets c = c.
Proof. intros Hd Hc Hp. unfold _hideWidgets. rewrite Hd, Hc, Hp. reflexivity. Qed.

Lemma hide_unguarded (c : t) :
  _isMouseDown c && _hoverClicked c && contentColorPickerVisible c = false ->
  widgetsHidden (_hideWidgets c) = true
  /\ _hoverClicked (_hideWidgets c) = false
  /\ _isCurrentSticky (_hideWidgets c) = false.
Proof.
  intro H. unfold _hideWidgets. rewrite H. unfold widgetsHidden. cbn.
  destruct (_contentWidget c), (_glyphWidget c); repeat split.
Qed.

(** While the guard holds, nothing that happens during the gesture
    changes the controller. *)
Lemma guarded_step (c : t) (ev : Event) :
  _isMouseDown c = true -> _hoverClicked c = true -> contentColorPickerVisible c = true ->
  during_gesture ev = true ->
  step c ev = c.
Proof.
  intros Hd Hc Hp Hev. pose proof (hide_guarded c Hd Hc Hp) as Hhide.
  destruct ev; cbn in Hev; try discriminate Hev; cbn [step].
  - unfold _onEditorMouseMove. rewrite Hd, Hc.
    destruct (contentIsResizing c); reflexivity.
  - unfold _onKeyDown. rewrite Hhide.
    destruct (_isCurrentSticky c && negb (isEscape e)), (negb (isModifierKey e)); reflexivity.
  - unfold onMouseLeave, hideWidgetsEventHandler. rewrite Hhide.
    destruct (negb (_isCurrentSticky c) && negb (contentIsResizing c)),
      (negb (_isCurrentSticky c)); reflexivity.
  - unfold hideWidgetsEventHandler. rewrite Hhide.
    destruct (negb (_isCurrentSticky c)); reflexivity.
  - unfold _onEditorScrollChanged. rewrite Hhide.
    destruct (scrollTopChanged e || scrollLeftChanged e); reflexivity.
  - unfold _onWidgetBlur. rewrite Hhide. destruct (_isCurrentSticky c); reflexivity.
Qed.

Lemma guarded_run (evs : list Event) (c : t) :
  _isMouseDown c = true -> _hoverClicked c = true -> contentColorPickerVisible c = true ->
  forallb during_gesture evs = true ->
  run c evs = c.
Proof.
  intros Hd Hc Hp. induction evs as [|ev evs IH]; intro Hevs; [reflexivity|].
  cbn in Hevs. apply andb_prop in Hevs as [Hev Hevs].
  cbn. rewrite (guarded_step c ev Hd Hc Hp Hev). exact (IH Hevs).
Qed.

End HoverFacts.

(** C4, as stated, fails: the mouse goes down on a content hover
    without a colour picker, a key runs the hide routine, which clears
    the record of the click, and the hover is shown again, now with a
    colour picker.  The mouse button is still down, the last mouse-down
    landed on the content hover widget and the colour picker is
    visible, yet the hide routine hides the hover. *)
Lemma click_record_cleared_by_hide :
  let evs := [ModesHoverController.ShowContentHover at_3_5_9 None;
              ModesHoverController.ContentRendered false;
              ModesHoverController.MouseDown onContentHover;
              ModesHoverController.KeyDown (ModesHoverController.mkKeyEvent false false);
              ModesHoverController.ShowContentHover at_3_5_9 None;
              ModesHoverController.ContentRendered true] in
  let c := ModesHoverController.run (ModesHoverController.create true false) evs in
  ModesHoverController._isMouseDown c = true
  /\ ModesHoverController.lastMouseDownOnContentHover evs = true
  /\ ModesHoverController.contentColorPickerVisible c = true
  /\ ModesHoverController.widgetsHidden c = false
  /\ ModesHoverController._hoverClicked c = false
  /\ ModesHoverController.widgetsHidden (ModesHoverController._hideWidgets c) = true
  /\ ~ (forall evs : list ModesHoverController.Event,
          let c := ModesHoverController.run (ModesHoverController.create true false) evs in
          ModesHoverController._isMouseDown c = true ->
          ModesHoverController.lastMouseDownOnContentHover evs = true ->
          ModesHoverController.contentColorPickerVisible c = true ->
          ModesHoverController._hideWidgets c = c).
Proof.
  intros evs c. repeat (split; [reflexivity|]).
  intro H. specialize (H evs eq_refl eq_refl eq_refl). discriminate H.
Qed.

(** C4, amended: while the mouse button is down, the controller's
    record of a click on the hover is set and the colour picker is
    visible, the hide routine changes nothing; and after a mouse-down
    on the content hover widget with the colour picker visible,
    whatever calls the hide routine during the gesture (scroll, key,
    mouse leave, model change, blur) and any mouse move leave both
    widgets and the clicked and sticky flags as the mouse-down left
    them. *)
Theorem hide_spares_clicked_picker :
  (forall c : ModesHoverController.t,
      ModesHoverController._isMouseDown c = true ->
      ModesHoverController._hoverClicked c = true ->
      ModesHoverController.contentColorPickerVisible c = true ->
      ModesHoverController._hideWidgets c = c)
  /\ (forall (c : ModesHoverController.t) (e : ModesHoverController.IEditorMouseEvent)
             (evs : list ModesHoverController.Event),
      ModesHoverController._isHoverEnabled c = true ->
      ModesHoverController.contentColorPickerVisible c = true ->
      ModesHoverController.targetType e = ModesHoverController.CONTENT_WIDGET ->
      ModesHoverController.detail e = ModesHoverController.ContentHoverWidgetID ->
      forallb ModesHoverController.during_gesture evs = true ->
      let down := ModesHoverController.step c (ModesHoverController.MouseDown e) in
      down = ModesHoverController.set_mouse c true true
      /\ ModesHoverController.run down evs = down).
Proof.
  split; [exact HoverFacts.hide_guarded|].
  intros c e evs Hen Hp Hty Hdet Hevs down.
  assert (Hdown : down = ModesHoverController.set_mouse c true true).
  { subst down. cbn [ModesHoverController.step]. rewrite Hen.
    unfold ModesHoverController._onEditorMouseDown. cbn.
    rewrite Hty, Hdet. reflexivity. }
  split; [exact Hdown|].
  rewrite Hdown. apply HoverFacts.guarded_run; try reflexivity; [|exact Hevs].
  destruct c as [[w|] gw md hc en st cs]; cbn in *; [exact Hp | discriminate Hp].
Qed.

(** The mouse goes down on a hover that shows a colour picker; a
    scroll, a key, a mouse leave and a blur follow before it is
    released. *)
Lemma hide_spares_clicked_picker_witness :
  ModesHoverController.run clickedOnPicker
    [ModesHoverController.DidScrollChange scrolledDown;
     ModesHoverController.KeyDown (ModesHoverController.mkKeyEvent false false);
     ModesHoverController.MouseLeave;
     ModesHoverController.WidgetBlur]
  = clickedOnPicker
  /\ ModesHoverController._hideWidgets clickedOnPicker = clickedOnPicker.
Proof.
  destruct hide_spares_clicked_picker as [Hhide Hgesture]. split.
  - apply (Hgesture pickerShown onContentHover); reflexivity.
  - apply Hhide; reflexivity.
Defined.

(** C5, as stated, fails: with the mouse button down on a content
    hover that shows a colour picker, a scroll that changed the scroll
    top hides nothing. *)
Lemma scroll_spares_clicked_picker :
  ModesHoverController.step clickedOnPicker (ModesHoverController.DidScrollChange scrolledDown)
    = clickedOnPicker
  /\ ModesHoverController.widgetsHidden
       (ModesHoverController.step clickedOnPicker
          (ModesHoverController.DidScrollChange scrolledDown)) = false
  /\ ~ (forall (c : ModesHoverController.t) (e : ModesHoverController.IScrollEvent),
          ModesHoverController.scrollTopChanged e
            || ModesHoverController.scrollLeftChanged e = true ->
          ModesHoverController.widgetsHidden
            (ModesHoverController._onEditorScrollChanged c e) = true).
Proof.
  split; [reflexivity|]. split; [reflexivity|].
  intro H. specialize (H clickedOnPicker scrolledDown eq_refl). discriminate H.
Qed.

(** C5, amended: a scroll event in which the scroll top or the scroll
    left changed runs the hide routine whatever the sticky state; the
    routine hides both widgets and clears the clicked and sticky flags,
    unless the mouse button is down, the hover was clicked and its
    colour picker is visible, in which case nothing changes. *)
Theorem scroll_runs_hide_routine
  (c : ModesHoverController.t) (e : ModesHoverController.IScrollEvent) :
  ModesHoverController.scrollTopChanged e || ModesHoverController.scrollLeftChanged e = true ->
  let c' := ModesHoverController._onEditorScrollChanged c e in
  c' = ModesHoverController._hideWidgets c
  /\ (ModesHoverController._isMouseDown c && ModesHoverController._hoverClicked c
        && ModesHoverController.contentColorPickerVisible c = false ->
      ModesHoverController.widgetsHidden c' = true
      /\ ModesHoverController._hoverClicked c' = false
      /\ ModesHoverController._isCurrentSticky c' = false)
  /\ (ModesHoverController._isMouseDown c && ModesHoverController._hoverClicked c
        && ModesHoverController.contentColorPickerVisible c = true ->
      c' = c).
Proof.
  intros Hchanged c'. subst c'.
  unfold ModesHoverController._onEditorScrollChanged. rewrite Hchanged.
  split; [reflexivity|]. split.
  - apply HoverFacts.hide_unguarded.
  - intro H. apply andb_prop in H as [H Hp]. apply andb_prop in H as [Hd Hc].
    apply HoverFacts.hide_guarded; assumption.
Qed.

(** A sticky hover with a colour picker, shown by the command and not
    clicked, is hidden by a scroll. *)
Lemma scroll_runs_hide_routine_witness :
  let c := ModesHoverController.run (ModesHoverController.create true true)
             [ModesHoverController.ShowContentHover at_3_5_9 (Some true);
              ModesHoverController.ContentRendered true] in
  ModesHoverController._isCurrentSticky c = true
  /\ ModesHoverController.widgetsHidden c = false
  /\ ModesHoverController.widgetsHidden
       (ModesHoverController._onEditorScrollChanged c scrolledDown) = true.
Proof.
  intro c. split; [reflexivity|]. split; [reflexivity|].
  apply (scroll_runs_hide_routine c scrolledDown); reflexivity.
Defined.

(** ** C9: the accessible views of the hover *)

(** C9: getProvider of HoverAccessibleView and of HoverAccessibilityHelp
    throws exactly when there is neither an active nor a focused code
    editor; with an editor that has no hover controller it returns
    undefined and leaves the stored provider as it was. *)
Theorem getProvider_throws_without_editor
  (accessor : HoverAccessibility.ServicesAccessor)
  (stored : option HoverAccessibility.AdvancedContentProvider) :
  let service := HoverAccessibility.codeEditorService accessor in
  let noEditor := HoverAccessibility.getActiveCodeEditor service = None
                  /\ HoverAccessibility.getFocusedCodeEditor service = None in
  (HoverAccessibility.throws
     (fst (HoverAccessibility.HoverAccessibleView_getProvider accessor stored)) = true
   <-> noEditor)
  /\ (HoverAccessibility.throws
        (HoverAccessibility.HoverAccessibilityHelp_getProvider accessor) = true
      <-> noEditor)
  /\ (forall editor : HoverAccessibility.ICodeEditor,
        HoverAccessibility.or_else (HoverAccessibility.getActiveCodeEditor service)
                                   (HoverAccessibility.getFocusedCodeEditor service)
          = Some editor ->
        HoverAccessibility.HoverController_get accessor editor = None ->
        HoverAccessibility.HoverAccessibleView_getProvider accessor stored
          = (HoverAccessibility.Returns None, stored)
        /\ HoverAccessibility.HoverAccessibilityHelp_getProvider accessor
          = HoverAccessibility.Returns None).
Proof.
  intros service noEditor. subst noEditor service.
  unfold HoverAccessibility.HoverAccessibleView_getProvider,
    HoverAccessibility.HoverAccessibilityHelp_getProvider.
  destruct accessor as [[active focused] get]. cbn.
  destruct active as [a|]; cbn.
  - split; [|split].
    + destruct (get a); cbn; (split; [discriminate | intros [H _]; discriminate H]).
    + destruct (get a); cbn; (split; [discriminate | intros [H _]; discriminate H]).
    + intros editor He Hget. injection He as <-. rewrite Hget. split; reflexivity.
  - destruct focused as [f|]; cbn.
    + split; [|split].
      * destruct (get f); cbn; (split; [discriminate | intros [_ H]; discriminate H]).
      * destruct (get f); cbn; (split; [discriminate | intros [_ H]; discriminate H]).
      * intros editor He Hget. injection He as <-. rewrite Hget. split; reflexivity.
    + split; [|split].
      * split; [intros _; split; reflexivity | reflexivity].
      * split; [intros _; split; reflexivity | reflexivity].
      * intros editor He. discriminate He.
Qed.

(** No active editor, a focused editor 7 without hover controller:
    both calls return undefined. *)
Lemma getProvider_throws_without_editor_witness :
  let accessor := HoverAccessibility.mkAccessor
                    (HoverAccessibility.mkEditorService None (Some 7%nat))
                    (fun _ => None) in
  HoverAccessibility.HoverAccessibleView_getProvider accessor None
    = (HoverAccessibility.Returns None, None)
  /\ HoverAccessibility.HoverAccessibilityHelp_getProvider accessor
    = HoverAccessibility.Returns None.
Proof.
  intro accessor.
  destruct (getProvider_throws_without_editor accessor None) as (_ & _ & H).
  apply (H 7%nat); reflexivity.
Defined.

Example getProvider_throws :
  HoverAccessibility.HoverAccessibilityHelp_getProvider
    (HoverAccessibility.mkAccessor (HoverAccessibility.mkEditorService None None)
                                   (fun e => Some e))
  = HoverAccessibility.Throws "No active or focused code editor".
Proof. reflexivity. Qed.


(** * Further properties *)

(** ** The hover controller *)

Module StickyFacts.
Import ModesHoverController.

Lemma sticky_step (c : t) (ev : Event) :
  _isCurrentSticky c = true -> passes_sticky ev = true -> step c ev = c.
Proof.
  intros Hs Hev. destruct ev; cbn in Hev; try discriminate Hev; cbn [step].
  - unfold _onEditorMouseMove. rewrite Hs.
    destruct (contentIsResizing c); [reflexivity|].
    destruct (_isMouseDown c && _hoverClicked c); [reflexivity|].
    destruct (_isHoverSticky c); cbn;
      repeat match goal with |- context [if ?b then _ else _] => destruct b end;
      reflexivity.
  - unfold _onKeyDown. rewrite Hs. cbn.
    destruct (isEscape e); cbn in *; [|reflexivity].
    rewrite Hev. reflexivity.
  - unfold onMouseLeave. rewrite Hs. reflexivity.
  - unfold hideWidgetsEventHandler. rewrite Hs. reflexivity.
Qed.

Lemma hide_idempotent (c : t) : _hideWidgets (_hideWidgets c) = _hideWidgets c.
Proof.
  unfold _hideWidgets.
  destruct (_isMouseDown c && _hoverClicked c && contentColorPickerVisible c) eqn:G.
  - rewrite G. reflexivity.
  - cbn. rewrite andb_false_r. cbn.
    destruct (_contentWidget c), (_glyphWidget c); reflexivity.
Qed.

Lemma hide_after_release (c : t) :
  _isMouseDown c = false ->
  widgetsHidden (_hideWidgets c) = true
  /\ _hoverClicked (_hideWidgets c) = false
  /\ _isCurrentSticky (_hideWidgets c) = false.
Proof.
  intro H. unfold _hideWidgets. rewrite H. cbn. unfold widgetsHidden. cbn.
  destruct (_contentWidget c), (_glyphWidget c); repeat split.
Qed.

Lemma untouched_eq (c : t) : untouched c -> c = mk None None false false false (_isHoverSticky c) false.
Proof.
  destruct c as [cw gw md hc en hs cs]. unfold untouched. cbn.
  intros (-> & -> & -> & -> & -> & ->). reflexivity.
Qed.

Lemma untouched_step (c : t) (ev : Event) :
  untouched c -> is_show_command ev = false -> step c ev = c.
Proof.
  intros U Hev. rewrite (untouched_eq U). generalize (_isHoverSticky c). intro hs.
  destruct ev; cbn in Hev; try discriminate Hev; cbn; try reflexivity.
  - unfold _onEditorMouseMove. cbn.
    destruct hs; cbn;
      repeat match goal with
             | |- context [if ?b then _ else _] => destruct b
             | |- context [match ?x with _ => _ end] => destruct x
             end; reflexivity.
  - unfold _onKeyDown. cbn. destruct (negb (isModifierKey e)); reflexivity.
  - unfold _onEditorScrollChanged. cbn.
    destruct (scrollTopChanged e || scrollLeftChanged e); reflexivity.
Qed.

Lemma sticky_origin_step (c : t) (ev : Event) :
  _isCurrentSticky c = false -> is_sticky_command ev = false ->
  _isCurrentSticky (step c ev) = false.
Proof.
  intros Hs Hev.
  assert (Hhide : _isCurrentSticky (_hideWidgets c) = false).
  { unfold _hideWidgets. destruct (_ && _ && _); [exact Hs | reflexivity]. }
  destruct ev; cbn [step].
  - destruct (_isHoverEnabled c); [|exact Hs]. unfold _onEditorMouseDown.
    repeat match goal with |- context [if ?b then _ else _] => destruct b end;
      cbn; try exact Hs; unfold _hideWidgets; cbn;
      repeat match goal with |- context [if ?b then _ else _] => destruct b end;
      cbn; try exact Hs; reflexivity.
  - destruct (_isHoverEnabled c); exact Hs.
  - unfold _onEditorMouseMove.
    repeat match goal with
           | |- context [if ?b then c else _] => destruct b; [exact Hs|]
           end.
    rewrite Hs.
    destruct (targetType e), (detail e) as [| |[|]|]; cbn;
      try exact Hhide;
      destruct (_isHoverEnabled c), (target_range e), (target_line e),
        (_contentWidget c), (_glyphWidget c); cbn; try exact Hs; reflexivity.
  - unfold _onKeyDown.
    repeat match goal with |- context [if ?b then _ else _] => destruct b end;
      try exact Hs; exact Hhide.
  - unfold onMouseLeave, hideWidgetsEventHandler.
    repeat match goal with |- context [if ?b then _ else _] => destruct b end;
      try exact Hs; exact Hhide.
  - unfold hideWidgetsEventHandler.
    destruct (negb (_isCurrentSticky c)); [exact Hhide | exact Hs].
  - unfold _onEditorScrollChanged.
    destruct (_ || _); [exact Hhide | exact Hs].
  - unfold _onWidgetBlur. rewrite Hs. exact Hs.
  - cbn in Hev. unfold showContentHover.
    destruct sticky as [[|]|]; [discriminate Hev | |];
      destruct (_contentWidget c); reflexivity.
  - exact Hs.
Qed.

End StickyFacts.

(** X1: a sticky hover stays as it is through mouse moves, the mouse
    leaving the editor, a change of model and every key other than a
    plain Escape; a plain Escape, a blur of the widget and a scroll
    that changed a scroll position run the hide routine. *)
Theorem sticky_hover_stays (c : ModesHoverController.t) :
  ModesHoverController._isCurrentSticky c = true ->
  (forall evs : list ModesHoverController.Event,
      forallb passes_sticky evs = true -> ModesHoverController.run c evs = c)
  /\ (forall k : ModesHoverController.IKeyboardEvent,
        ModesHoverController.isEscape k = true ->
        ModesHoverController.isModifierKey k = false ->
        ModesHoverController.step c (ModesHoverController.KeyDown k)
        = ModesHoverController._hideWidgets c)
  /\ ModesHoverController.step c ModesHoverController.WidgetBlur
     = ModesHoverController._hideWidgets c
  /\ (forall e : ModesHoverController.IScrollEvent,
        ModesHoverController.scrollTopChanged e
          || ModesHoverController.scrollLeftChanged e = true ->
        ModesHoverController.step c (ModesHoverController.DidScrollChange e)
        = ModesHoverController._hideWidgets c).
Proof.
  intro Hs. split; [|split; [|split]].
  - induction evs as [|ev evs IH]; intro Hevs; [reflexivity|].
    cbn in Hevs. apply andb_prop in Hevs as [Hev Hevs].
    cbn. rewrite (StickyFacts.sticky_step c ev Hs Hev). exact (IH Hevs).
  - intros k He Hm. cbn. unfold ModesHoverController._onKeyDown.
    rewrite Hs, He, Hm. reflexivity.
  - cbn. unfold ModesHoverController._onWidgetBlur. rewrite Hs. reflexivity.
  - intros e He. cbn. unfold ModesHoverController._onEditorScrollChanged.
    rewrite He. reflexivity.
Qed.

(** A sticky hover shown by the command: the mouse moves over text and
    leaves, a letter is typed, the model changes; Escape then hides. *)
Lemma sticky_hover_stays_witness :
  ModesHoverController.run stickyShown
    [ModesHoverController.MouseMove onText;
     ModesHoverController.MouseLeave;
     ModesHoverController.KeyDown (ModesHoverController.mkKeyEvent false false);
     ModesHoverController.DidChangeModel]
  = stickyShown
  /\ ModesHoverController.widgetsHidden
       (ModesHoverController.step stickyShown
          (ModesHoverController.KeyDown (ModesHoverController.mkKeyEvent true false)))
     = true.
Proof.
  destruct (sticky_hover_stays stickyShown eq_refl) as (Hstay & Hesc & _ & _).
  split.
  - apply Hstay. reflexivity.
  - rewrite Hesc; reflexivity.
Defined.

(** X2: with the hover option disabled, whatever reaches the controller
    other than the command that shows the hover leaves it as
    constructed: no widget is created or shown, no mouse button is
    recorded. *)
Theorem disabled_hover_never_shows (sticky : bool) (evs : list ModesHoverController.Event) :
  existsb is_show_command evs = false ->
  ModesHoverController.run (ModesHoverController.create false sticky) evs
  = ModesHoverController.create false sticky.
Proof.
  assert (U : untouched (ModesHoverController.create false sticky))
    by (repeat split).
  revert U. generalize (ModesHoverController.create false sticky). intros c U.
  induction evs as [|ev evs IH]; intro Hevs; [reflexivity|].
  cbn in Hevs. apply orb_false_elim in Hevs as [Hev Hevs].
  cbn. rewrite (StickyFacts.untouched_step ev U Hev). exact (IH Hevs).
Qed.

Lemma disabled_hover_never_shows_witness :
  ModesHoverController.run (ModesHoverController.create false true)
    [ModesHoverController.MouseMove onText;
     ModesHoverController.MouseDown onText;
     ModesHoverController.ContentRendered true;
     ModesHoverController.DidScrollChange scrolledDown]
  = ModesHoverController.create false true.
Proof. apply disabled_hover_never_shows. reflexivity. Defined.

(** X3: with the hover enabled, a mouse-down that is neither on a
    hover widget nor on any overlay widget hides both widgets and
    clears the clicked and sticky flags, whatever the state: also when
    the hover is sticky, and when an earlier mouse-down was on a hover
    that shows a colour picker.  A mouse-down on another overlay
    widget keeps the record of the click and runs the hide routine
    with its guard: a clicked hover with a visible colour picker
    stays as it is. *)
Theorem mouse_down_elsewhere_hides
  (c : ModesHoverController.t) (e : ModesHoverController.IEditorMouseEvent) :
  ModesHoverController._isHoverEnabled c = true ->
  let c' := ModesHoverController.step c (ModesHoverController.MouseDown e) in
  (away_from_widgets e = true ->
   ModesHoverController.widgetsHidden c' = true
   /\ ModesHoverController._isMouseDown c' = true
   /\ ModesHoverController._hoverClicked c' = false
   /\ ModesHoverController._isCurrentSticky c' = false)
  /\ (on_other_widget e = true ->
      c' = ModesHoverController._hideWidgets
             (ModesHoverController.set_mouse c true (ModesHoverController._hoverClicked c))
      /\ (ModesHoverController._hoverClicked c = true ->
          ModesHoverController.contentColorPickerVisible c = true ->
          c' = ModesHoverController.set_mouse c true true)).
Proof.
  intros Hen c'. subst c'. cbn [ModesHoverController.step]. rewrite Hen. split.
  - intro Haway. unfold away_from_widgets in Haway.
    apply andb_prop in Haway as [Haway Hg]. apply andb_prop in Haway as [Hc Ho].
    apply negb_true_iff in Hc, Ho, Hg.
    unfold ModesHoverController._onEditorMouseDown. rewrite Hc, Ho, Hg. cbn.
    unfold ModesHoverController._hideWidgets, ModesHoverController.widgetsHidden. cbn.
    destruct (ModesHoverController._contentWidget c),
      (ModesHoverController._glyphWidget c); repeat split.
  - intro Hother. unfold on_other_widget in Hother.
    apply andb_prop in Hother as [Hother Hor]. apply andb_prop in Hother as [Hc Hg].
    apply negb_true_iff in Hc, Hg.
    assert (Hkeep : negb (ModesHoverController.is_overlay_widget
                            (ModesHoverController.targetType e))
                    && negb (ModesHoverController.is_glyph_hover_id
                               (ModesHoverController.detail e)) = false).
    { destruct (ModesHoverController.is_overlay_widget (ModesHoverController.targetType e)),
        (ModesHoverController.is_glyph_hover_id (ModesHoverController.detail e));
        cbn in Hor |- *; congruence. }
    unfold ModesHoverController._onEditorMouseDown. rewrite Hc, Hg, Hkeep.
    split; [reflexivity|].
    intros Hclicked Hpicker. rewrite Hclicked.
    apply HoverFacts.hide_guarded; [reflexivity | reflexivity|].
    destruct c as [[w|] gw md hc en st cs]; cbn in *; [exact Hpicker | discriminate Hpicker].
Qed.

(** The mouse button is down on a hover with a colour picker; a second
    mouse-down on the text hides the hover, one on an overlay widget
    does not. *)
Lemma mouse_down_elsewhere_hides_witness :
  ModesHoverController.widgetsHidden clickedOnPicker = false
  /\ ModesHoverController.widgetsHidden
       (ModesHoverController.step clickedOnPicker (ModesHoverController.MouseDown onText))
     = true
  /\ ModesHoverController.step clickedOnPicker (ModesHoverController.MouseDown onOverlay)
     = clickedOnPicker.
Proof.
  split; [reflexivity|]. split.
  - apply (@mouse_down_elsewhere_hides clickedOnPicker onText eq_refl). reflexivity.
  - apply (@mouse_down_elsewhere_hides clickedOnPicker onOverlay eq_refl); reflexivity.
Defined.

(** X4: the hide routine is idempotent, and once the mouse button is
    released it hides both widgets and clears the clicked and sticky
    flags whatever the state was. *)
Theorem hide_is_idempotent_and_effective_after_mouse_up :
  (forall c : ModesHoverController.t,
      ModesHoverController._hideWidgets (ModesHoverController._hideWidgets c)
      = ModesHoverController._hideWidgets c)
  /\ (forall (c : ModesHoverController.t) (e : ModesHoverController.IEditorMouseEvent),
        ModesHoverController._isHoverEnabled c = true ->
        let c' := ModesHoverController._hideWidgets
                    (ModesHoverController.step c (ModesHoverController.MouseUp e)) in
        ModesHoverController.widgetsHidden c' = true
        /\ ModesHoverController._hoverClicked c' = false
        /\ ModesHoverController._isCurrentSticky c' = false).
Proof.
  split; [exact StickyFacts.hide_idempotent|].
  intros c e Hen c'. subst c'. cbn [ModesHoverController.step]. rewrite Hen.
  apply StickyFacts.hide_after_release. reflexivity.
Qed.

(** The picker that a scroll could not hide during the click is hidden
    by the same scroll after the mouse-up. *)
Lemma hide_is_idempotent_and_effective_after_mouse_up_witness :
  ModesHoverController.widgetsHidden
    (ModesHoverController.run clickedOnPicker
       [ModesHoverController.DidScrollChange scrolledDown]) = false
  /\ ModesHoverController.widgetsHidden
       (ModesHoverController._hideWidgets
          (ModesHoverController.step clickedOnPicker
             (ModesHoverController.MouseUp onContentHover))) = true.
Proof.
  split; [reflexivity|].
  destruct hide_is_idempotent_and_effective_after_mouse_up as [_ H].
  apply (H clickedOnPicker onContentHover). reflexivity.
Defined.

(** X5: the hover is sticky only through the command: after any events
    among which no command asked for a sticky hover, the controller is
    not sticky. *)
Theorem sticky_only_by_command (enabled sticky : bool)
  (evs : list ModesHoverController.Event) :
  existsb is_sticky_command evs = false ->
  ModesHoverController._isCurrentSticky
    (ModesHoverController.run (ModesHoverController.create enabled sticky) evs) = false.
Proof.
  assert (H0 : ModesHoverController._isCurrentSticky
                 (ModesHoverController.create enabled sticky) = false) by reflexivity.
  revert H0. generalize (ModesHoverController.create enabled sticky).
  induction evs as [|ev evs IH]; intros c Hc Hevs; [exact Hc|].
  cbn in Hevs. apply orb_false_elim in Hevs as [Hev Hevs].
  cbn. apply IH; [|exact Hevs]. apply StickyFacts.sticky_origin_step; assumption.
Qed.

Lemma sticky_only_by_command_witness :
  ModesHoverController._isCurrentSticky
    (ModesHoverController.run (ModesHoverController.create true true)
       [ModesHoverController.ShowContentHover at_3_5_9 None;
        ModesHoverController.ContentRendered true;
        ModesHoverController.MouseMove onContentHover]) = false.
Proof. apply sticky_only_by_command. reflexivity. Defined.

(** ** The handles of the surfaces *)

Local Open Scope Q_scope.
Unset Implicit Arguments.

(** Rounding keeps the sign. *)
Lemma round64_nonpositive (x : Q) :
  x <= 0 -> round64 x = NegInfinity \/ exists r, round64 x = Fin r /\ r <= 0.
Proof.
  intro Hx. unfold round64. pose proof (Qred_correct x) as E. set (x' := Qred x) in *.
  destruct (Qcompare_spec x' 0) as [C|C|C]; [right; exists 0; split; [reflexivity | lra] | | lra].
  destruct (Qle_bool (pow2 1024) (roundPositive (- x'))); [left; reflexivity|].
  right. exists (Qred (- roundPositive (- x'))). split; [reflexivity|].
  pose proof (Qred_correct (- roundPositive (- x'))) as E2.
  destruct (roundPositive_bounds (- x')) as (_ & _ & N); lra.
Qed.

Lemma round64_positive (x : Q) :
  0 < x -> round64 x = PosInfinity \/ exists r, round64 x = Fin r /\ 0 <= r.
Proof.
  intro Hx. unfold round64. pose proof (Qred_correct x) as E. set (x' := Qred x) in *.
  destruct (Qcompare_spec x' 0) as [C|C|C]; [lra | lra |].
  destruct (Qle_bool (pow2 1024) (roundPositive x')); [left; reflexivity|].
  right. exists (Qred (roundPositive x')). split; [reflexivity|].
  pose proof (Qred_correct (roundPositive x')) as E2.
  destruct (roundPositive_bounds x' C) as (_ & _ & N). lra.
Qed.

Lemma round64_at_least_1 (x : Q) :
  1 <= x -> round64 x = PosInfinity \/ exists r, round64 x = Fin r /\ 1 <= r.
Proof.
  intro Hx. destruct (round64_positive x) as [H|(r & Hr & _)]; [lra | left; exact H|].
  right. exists r. split; [exact Hr|].
  exact (round64_mono 1 x 1 r ltac:(lra) Hx round64_1 Hr).
Qed.

(** A number of magnitude below 2^(e+1) is rounded with an error of at
    most 2^(e-53), whatever its sign. *)
Lemma round64_near (x : Q) (e : Z) :
  Qabs x < pow2 (e + 1) -> (-1022 <= e <= 1022)%Z ->
  exists r, round64 x = Fin r /\ Qabs (r - x) <= pow2 (e - 53).
Proof.
  intros Hx He. destruct (Qlt_le_dec x 0) as [Hneg|Hpos].
  - assert (Hax : Qabs x == - x) by (apply Qabs_neg; lra).
    unfold round64. pose proof (Qred_correct x) as E. set (x' := Qred x) in *.
    destruct (Qcompare_spec x' 0) as [C|C|C]; [lra | | lra].
    assert (Hp : 0 < - x') by lra.
    destruct (roundPositive_bounds (- x') Hp) as (U & _ & N).
    pose proof (roundPositive_error (- x') Hp) as Err.
    assert (Hl : (ilog2 (- x') <= e)%Z) by (apply ilog2_lt; lra).
    assert (Hu : (ulpExponent (- x') <= e - 52)%Z) by (unfold ulpExponent; lia).
    assert (U' : roundPositive (- x') <= pow2 (e + 1)).
    { apply Qle_trans with (pow2 (ulpExponent (- x') + 53)); [exact U | apply pow2_le; lia]. }
    assert (Hfin : Qle_bool (pow2 1024) (roundPositive (- x')) = false).
    { destruct (Qle_bool (pow2 1024) (roundPositive (- x'))) eqn:F; [|reflexivity].
      apply Qle_bool_iff in F. exfalso.
      assert (pow2 (e + 1) < pow2 1024) by (apply pow2_lt; lia). lra. }
    rewrite Hfin. exists (Qred (- roundPositive (- x'))). split; [reflexivity|].
    pose proof (Qred_correct (- roundPositive (- x'))) as E2.
    assert (Err' : Qabs (roundPositive (- x') - - x') <= pow2 (e - 53)).
    { apply Qle_trans with (pow2 (ulpExponent (- x') - 1)); [exact Err | apply pow2_le; lia]. }
    apply Qabs_Qle_condition in Err'. apply Qabs_Qle_condition. lra.
  - assert (Hax : Qabs x == x) by (apply Qabs_pos; exact Hpos).
    destruct (round64_nonneg x e) as (r & Hr & _ & _ & Herr); [exact Hpos | lra | exact He |].
    exists r. split; assumption.
Qed.

Lemma Qclamp_cases (hi x : Q) :
  0 < hi ->
  (x <= 0 /\ Qclamp 0 hi x == 0) \/ (hi <= x /\ Qclamp 0 hi x == hi)
  \/ (0 <= x /\ x <= hi /\ Qclamp 0 hi x == x).
Proof.
  intro H. unfold Qclamp. destruct (Qle_bool x 0) eqn:E0.
  - apply Qle_bool_iff in E0. left. lra.
  - apply Qle_bool_false in E0. destruct (Qle_bool hi x) eqn:E1.
    + apply Qle_bool_iff in E1. right. left. lra.
    + apply Qle_bool_false in E1. right. right. lra.
Qed.

(** The clamp of a finite number, and of the infinities. *)
Lemma clamp_finite (q : Q) :
  exists r : Q,
    Math_max $0 (Math_min $1 $q) = $r /\ r == Qclamp 0 1 q /\ 0 <= r /\ r <= 1.
Proof.
  unfold Qclamp. cbn. destruct (Qle_bool 1 q) eqn:E1.
  - apply Qle_bool_iff in E1. cbn. exists 1. split; [reflexivity|].
    destruct (Qle_bool q 0) eqn:E0; [apply Qle_bool_iff in E0; lra|]. lra.
  - apply Qle_bool_false in E1. destruct (Qle_bool 0 q) eqn:E0.
    + apply Qle_bool_iff in E0. exists q. split; [reflexivity|].
      destruct (Qle_bool q 0) eqn:E0'; [apply Qle_bool_iff in E0'; lra|]. lra.
    + apply Qle_bool_false in E0. exists 0. split; [reflexivity|].
      destruct (Qle_bool q 0) eqn:E0'; [lra|]. apply Qle_bool_false in E0'. lra.
Qed.

Lemma quotient_sign (a b : Q) :
  0 < b -> (a / b <= 0 <-> a <= 0) /\ (1 <= a / b <-> b <= a) /\ a / b * b == a.
Proof.
  intro Hb. assert (E : a / b * b == a) by (field; lra).
  set (d := a / b) in *.
  assert (Z0 : 0 * b == 0) by ring. assert (Z1 : 1 * b == b) by ring.
  split; [|split; [|exact E]]; split; intro H.
  - assert (d * b <= 0 * b) by (apply Qmult_le_compat_r; [exact H | lra]). lra.
  - apply Qnot_lt_le. intro C.
    assert (0 * b < d * b) by (apply Qmult_lt_compat_r; [exact Hb | exact C]). lra.
  - assert (1 * b <= d * b) by (apply Qmult_le_compat_r; [exact H | lra]). lra.
  - apply Qnot_lt_le. intro C.
    assert (d * b < 1 * b) by (apply Qmult_lt_compat_r; [exact Hb | exact C]). lra.
Qed.

(** The clamp of a quotient by a positive dimension, as the code
    computes it, against the exact clamp. *)
Lemma clamped_quotient (a b : Q) :
  0 < b ->
  exists c : Q,
    Math_max $0 (Math_min $1 ($a / $b)%js) = $c /\ 0 <= c /\ c <= 1
    /\ Qabs (c - Qclamp 0 1 (a / b)) <= (1 # 9007199254740992).
Proof.
  intro Hb. cbn [JS.div].
  assert (Eb : Qeq_bool b 0 = false).
  { destruct (Qeq_bool b 0) eqn:E; [apply Qeq_bool_iff in E; lra | reflexivity]. }
  rewrite Eb.
  destruct (Qclamp_cases 1 (a / b) ltac:(lra)) as [[C Hc]|[[C Hc]|(C0 & C1 & Hc)]].
  - destruct (round64_nonpositive (a / b) C) as [H|(r & H & Hr)]; rewrite H.
    + exists 0. split; [reflexivity|]. split; [lra|]. split; [lra|].
      apply Qabs_Qle_condition. lra.
    + destruct (clamp_finite r) as (c & Ec & Hcr & c0 & c1). exists c.
      split; [exact Ec|]. split; [exact c0|]. split; [exact c1|].
      destruct (Qclamp_cases 1 r ltac:(lra)) as [[D Hd]|[[D Hd]|(D0 & D1 & Hd)]];
        apply Qabs_Qle_condition; lra.
  - destruct (round64_at_least_1 (a / b) C) as [H|(r & H & Hr)]; rewrite H.
    + exists 1. split; [reflexivity|]. split; [lra|]. split; [lra|].
      apply Qabs_Qle_condition. lra.
    + destruct (clamp_finite r) as (c & Ec & Hcr & c0 & c1). exists c.
      split; [exact Ec|]. split; [exact c0|]. split; [exact c1|].
      destruct (Qclamp_cases 1 r ltac:(lra)) as [[D Hd]|[[D Hd]|(D0 & D1 & Hd)]];
        apply Qabs_Qle_condition; lra.
  - destruct (round64_unit (a / b) C0 C1) as (q & H & q0 & q1 & Herr). rewrite H.
    destruct (clamp_finite q) as (c & Ec & Hcq & c0 & c1). exists c.
    split; [exact Ec|]. split; [exact c0|]. split; [exact c1|].
    apply Qabs_bound in Herr.
    destruct (Qclamp_cases 1 q ltac:(lra)) as [[D Hd]|[[D Hd]|(D0 & D1 & Hd)]];
      apply Qabs_Qle_condition; lra.
Qed.

Lemma clamped_complement (a b : Q) :
  0 < b ->
  exists c : Q,
    Math_max $0 (Math_min $1 ($1 - $a / $b)%js) = $c /\ 0 <= c /\ c <= 1
    /\ Qabs (c - Qclamp 0 1 (1 - a / b)) <= (1 # 4503599627370496).
Proof.
  intro Hb. cbn [JS.div].
  assert (Eb : Qeq_bool b 0 = false).
  { destruct (Qeq_bool b 0) eqn:E; [apply Qeq_bool_iff in E; lra | reflexivity]. }
  rewrite Eb.
  destruct (Qlt_le_dec 0 (a / b)) as [P|N]; [destruct (Qlt_le_dec (a / b) 1) as [L|G]|].
  - (* inside *)
    destruct (round64_unit (a / b) ltac:(lra) ltac:(lra)) as (q & H & q0 & q1 & Herr).
    rewrite H. cbn [JS.sub].
    destruct (round64_unit (1 - q) ltac:(lra) ltac:(lra)) as (u & Hu & u0 & u1 & Huerr).
    rewrite Hu. apply Qabs_bound in Herr, Huerr.
    destruct (clamp_finite u) as (c & Ec & Hcu & c0 & c1). exists c.
    split; [exact Ec|]. split; [exact c0|]. split; [exact c1|].
    destruct (Qclamp_cases 1 u ltac:(lra)) as [[D Hd]|[[D Hd]|(D0 & D1 & Hd)]];
      destruct (Qclamp_cases 1 (1 - a / b) ltac:(lra)) as [[F Hf]|[[F Hf]|(F0 & F1 & Hf)]];
      apply Qabs_Qle_condition; lra.
  - (* beyond the far border *)
    assert (Hz : Qclamp 0 1 (1 - a / b) == 0).
    { destruct (Qclamp_cases 1 (1 - a / b) ltac:(lra)) as [[F Hf]|[[F Hf]|(F0 & F1 & Hf)]]; lra. }
    destruct (round64_at_least_1 (a / b) G) as [H|(r & H & Hr)]; rewrite H; cbn [JS.sub].
    + exists 0. split; [reflexivity|]. split; [lra|]. split; [lra|].
      apply Qabs_Qle_condition. lra.
    + destruct (round64_nonpositive (1 - r) ltac:(lra)) as [H2|(r2 & H2 & Hr2)]; rewrite H2.
      * exists 0. split; [reflexivity|]. split; [lra|]. split; [lra|].
        apply Qabs_Qle_condition. lra.
      * destruct (clamp_finite r2) as (c & Ec & Hcr & c0 & c1). exists c.
        split; [exact Ec|]. split; [exact c0|]. split; [exact c1|].
        destruct (Qclamp_cases 1 r2 ltac:(lra)) as [[D Hd]|[[D Hd]|(D0 & D1 & Hd)]];
          apply Qabs_Qle_condition; lra.
  - (* before the near border *)
    assert (Hz : Qclamp 0 1 (1 - a / b) == 1).
    { destruct (Qclamp_cases 1 (1 - a / b) ltac:(lra)) as [[F Hf]|[[F Hf]|(F0 & F1 & Hf)]]; lra. }
    destruct (round64_nonpositive (a / b) N) as [H|(r & H & Hr)]; rewrite H; cbn [JS.sub].
    + exists 1. split; [reflexivity|]. split; [lra|]. split; [lra|].
      apply Qabs_Qle_condition. lra.
    + destruct (round64_at_least_1 (1 - r) ltac:(lra)) as [H2|(r2 & H2 & Hr2)]; rewrite H2.
      * exists 1. split; [reflexivity|]. split; [lra|]. split; [lra|].
        apply Qabs_Qle_condition. lra.
      * destruct (clamp_finite r2) as (c & Ec & Hcr & c0 & c1). exists c.
        split; [exact Ec|]. split; [exact c0|]. split; [exact c1|].
        destruct (Qclamp_cases 1 r2 ltac:(lra)) as [[D Hd]|[[D Hd]|(D0 & D1 & Hd)]];
          apply Qabs_Qle_condition; lra.
Qed.

(** The exact clamps, scaled by the dimension. *)
Lemma Qclamp_scaled (a b : Q) :
  0 < b ->
  Qclamp 0 1 (a / b) * b == Qclamp 0 b a
  /\ b - Qclamp 0 1 (1 - a / b) * b == Qclamp 0 b a
  /\ (1 - Qclamp 0 1 (1 - a / b)) * b == Qclamp 0 b a.
Proof.
  intro Hb. destruct (quotient_sign a b Hb) as (S0 & S1 & E).
  set (d := a / b) in *.
  assert (G : b - Qclamp 0 1 (1 - d) * b == (1 - Qclamp 0 1 (1 - d)) * b) by ring.
  split; [|split; [rewrite G|]];
    destruct (Qclamp_cases b a Hb) as [[C Hc]|[[C Hc]|(C0 & C1 & Hc)]];
    try (destruct (Qclamp_cases 1 d ltac:(lra)) as [[D Hd]|[[D Hd]|(D0 & D1 & Hd)]]);
    try (destruct (Qclamp_cases 1 (1 - d) ltac:(lra)) as [[F Hf]|[[F Hf]|(F0 & F1 & Hf)]]);
    rewrite Hc; try rewrite Hd; try rewrite Hf;
    try (assert (d <= 0) by (apply S0; lra));
    try (assert (1 <= d) by (apply S1; lra));
    try (assert (a <= 0) by (apply S0; lra));
    try (assert (b <= a) by (apply S1; lra));
    try lra; try nra.
Qed.

(** The product of a number of the unit interval and a dimension below
    4096. *)
Lemma scaled_by_dimension (c b : Q) :
  0 <= c -> c <= 1 -> 0 < b -> b < 4096 ->
  exists p : Q, ($c * $b)%js = $p /\ Qabs (p - c * b) <= (1 # 4398046511104).
Proof.
  intros c0 c1 b0 b1. cbn [JS.mul].
  destruct (round64_near (c * b) 11) as (p & Hp & Herr).
  - change (pow2 (11 + 1)) with 4096. rewrite Qabs_pos by nra. nra.
  - lia.
  - exists p. split; [exact Hp | exact Herr].
Qed.

(** X6: on a surface of positive size below 4096 pixels the handle
    follows the pointer and stops at the border, up to the rounding of
    the arithmetic: after a pointer position the selection circle of
    the box is within 2^-39 of a pixel of the pointer's coordinates
    clamped to the width and the height, and the slider of a strip
    within 2^-39 of a pixel of the pointer's top clamped to the
    height. *)
Theorem handles_follow_pointer :
  (forall (b : SaturationBox.t) (w h left top : Q),
      SaturationBox.width b = $w -> SaturationBox.height b = $h ->
      0 < w -> w < 4096 -> 0 < h -> h < 4096 ->
      let b' := fst (SaturationBox.onDidChangePosition b $left $top) in
      exists x y : Q,
        SaturationBox.selection_left b' = $x
        /\ SaturationBox.selection_top b' = $y
        /\ Qabs (x - Qclamp 0 w left) <= (1 # 549755813888)
        /\ Qabs (y - Qclamp 0 h top) <= (1 # 549755813888))
  /\ (forall (st : Strip.t) (h top : Q),
      Strip.height st = $h -> 0 < h -> h < 4096 ->
      exists y : Q,
        Strip.slider_top (fst (Strip.onDidChangeTop st $top)) = $y
        /\ Qabs (y - Qclamp 0 h top) <= (1 # 549755813888)).
Proof.
  split.
  - intros b w h left top Hw Hh w0 w1 h0 h1 b'. subst b'.
    unfold SaturationBox.onDidChangePosition, SaturationBox.paintSelection.
    cbn [fst SaturationBox.selection_left SaturationBox.selection_top
         SaturationBox.width SaturationBox.height].
    rewrite Hw, Hh.
    destruct (clamped_quotient left w w0) as (s & Es & s0 & s1 & Hs).
    destruct (clamped_complement top h h0) as (v & Ev & v0 & v1 & Hv).
    rewrite Es, Ev.
    destruct (scaled_by_dimension s w s0 s1 w0 w1) as (x & Ex & Hx).
    destruct (scaled_by_dimension v h v0 v1 h0 h1) as (p & Ep & Hp).
    rewrite Ex, Ep. cbn [JS.sub].
    apply Qabs_bound in Hs, Hv, Hx, Hp.
    destruct (Qclamp_scaled left w w0) as (L1 & _ & _).
    destruct (Qclamp_scaled top h h0) as (_ & T2 & _).
    destruct (round64_near (h - p) 12) as (y & Ey & Hy).
    { change (pow2 (12 + 1)) with 8192.
      assert (0 <= v * h) by nra. assert (v * h <= h) by nra.
      apply Qabs_case; intros; lra. }
    { lia. }
    exists x, y. split; [reflexivity|]. split; [exact Ey|].
    apply Qabs_bound in Hy.
    change (pow2 (12 - 53)) with (1 # 2199023255552) in Hy.
    set (cl := Qclamp 0 1 (left / w)) in *. set (ct := Qclamp 0 1 (1 - top / h)) in *.
    assert (A1 : - (w * (1 # 9007199254740992)) <= s * w - cl * w
                 /\ s * w - cl * w <= w * (1 # 9007199254740992)) by nra.
    assert (A2 : - (h * (1 # 4503599627370496)) <= v * h - ct * h
                 /\ v * h - ct * h <= h * (1 # 4503599627370496)) by nra.
    split; apply Qabs_Qle_condition; lra.
  - intros st h top Hh h0 h1.
    unfold Strip.onDidChangeTop, Strip.updateSliderPosition.
    cbn [fst Strip.slider_top Strip.height]. rewrite Hh.
    destruct (clamped_complement top h h0) as (v & Ev & v0 & v1 & Hv).
    rewrite Ev. cbn [JS.sub].
    destruct (round64_unit (1 - v) ltac:(lra) ltac:(lra)) as (z & Ez & z0 & z1 & Hz).
    rewrite Ez.
    destruct (scaled_by_dimension z h z0 z1 h0 h1) as (y & Ey & Hy).
    exists y. split; [exact Ey|].
    apply Qabs_bound in Hv, Hz, Hy.
    destruct (Qclamp_scaled top h h0) as (_ & _ & T3).
    set (ct := Qclamp 0 1 (1 - top / h)) in *.
    assert (A : - (h * (3 # 9007199254740992)) <= z * h - (1 - ct) * h
                /\ z * h - (1 - ct) * h <= h * (3 # 9007199254740992)) by nra.
    apply Qabs_Qle_condition. lra.
Qed.

(** A box of 200 by 100 pixels: a pointer inside, and one beyond the
    right and the lower border. *)
Lemma handles_follow_pointer_witness :
  let b := SaturationBox.create $200 $100 redModel in
  (exists x y : Q,
     SaturationBox.selection_left
       (fst (SaturationBox.onDidChangePosition b $116 $58)) = $x
     /\ SaturationBox.selection_top
          (fst (SaturationBox.onDidChangePosition b $116 $58)) = $y
     /\ Qabs (x - Qclamp 0 200 116) <= (1 # 549755813888)
     /\ Qabs (y - Qclamp 0 100 58) <= (1 # 549755813888))
  /\ (exists x y : Q,
        SaturationBox.selection_left
          (fst (SaturationBox.onDidChangePosition b $260 $130)) = $x
        /\ SaturationBox.selection_top
             (fst (SaturationBox.onDidChangePosition b $260 $130)) = $y
        /\ Qabs (x - Qclamp 0 200 260) <= (1 # 549755813888)
        /\ Qabs (y - Qclamp 0 100 130) <= (1 # 549755813888)).
Proof.
  intro b. destruct handles_follow_pointer as [Hbox _]. split.
  - exact (Hbox b 200 100 116 58 eq_refl eq_refl eq_refl eq_refl eq_refl eq_refl).
  - exact (Hbox b 200 100 260 130 eq_refl eq_refl eq_refl eq_refl eq_refl eq_refl).
Defined.

(** The same box in numbers: binary64 rounds 116 / 200 * 200 just
    below 116 and 100 - (1 - 58 / 100) * 100 just below 58, and a
    pointer beyond the border stops the circle on it. *)
Example handle_positions :
  let b := SaturationBox.create $200 $100 redModel in
  SaturationBox.selection_left
    (fst (SaturationBox.onDidChangePosition b $116 $58))
  = $(8162774324609023 # 70368744177664)
  /\ SaturationBox.selection_top
       (fst (SaturationBox.onDidChangePosition b $116 $58))
     = $(8162774324609023 # 140737488355328)
  /\ SaturationBox.selection_left
       (fst (SaturationBox.onDidChangePosition b $260 $130)) = $200
  /\ SaturationBox.selection_top
       (fst (SaturationBox.onDidChangePosition b $260 $130)) = $100.
Proof. vm_compute. repeat split; reflexivity. Qed.

Set Implicit Arguments.
Local Close Scope Q_scope.

(** ** The registry of accessible views *)

Module RegistryFacts.
Import AccessibleViewRegistry.

Lemma indexOf_absent (x : nat) (r : t) : ~ In x r -> indexOf x r = (-1)%Z.
Proof.
  induction r as [|y r IH]; intro H; [reflexivity|].
  cbn. destruct (Nat.eqb_spec x y) as [->|_].
  - exfalso. apply H. left. reflexivity.
  - rewrite IH; [reflexivity|]. intro Hin. apply H. right. exact Hin.
Qed.

Lemma indexOf_first (x : nat) (r1 r2 : t) :
  ~ In x r1 -> indexOf x (r1 ++ x :: r2) = Z.of_nat (length r1).
Proof.
  induction r1 as [|y r1 IH]; intro H.
  - cbn. rewrite Nat.eqb_refl. reflexivity.
  - cbn [app indexOf]. destruct (Nat.eqb_spec x y) as [->|_].
    + exfalso. apply H. left. reflexivity.
    + rewrite IH by (intro Hin; apply H; right; exact Hin).
      destruct (Z.eqb_spec (Z.of_nat (length r1)) (-1)) as [E|_]; [lia|].
      cbn [length]. lia.
Qed.

Lemma dispose_first (x : nat) (r1 r2 : t) :
  ~ In x r1 -> dispose x (r1 ++ x :: r2) = r1 ++ r2.
Proof.
  intro H. unfold dispose. rewrite (@indexOf_first x r1 r2 H).
  destruct (Z.eqb_spec (Z.of_nat (length r1)) (-1)) as [E|_]; [lia|]. cbn [negb].
  unfold splice1. rewrite Nat2Z.id.
  rewrite firstn_app, firstn_all, Nat.sub_diag. cbn [firstn]. rewrite app_nil_r.
  change (S (length r1)) with (1 + length r1)%nat.
  rewrite <- (Nat.add_comm (length r1) 1), skipn_app.
  rewrite skipn_all2 by lia.
  replace (length r1 + 1 - length r1)%nat with 1%nat by lia. reflexivity.
Qed.

End RegistryFacts.

(** X7: disposing a registration removes the first entry of the
    implementation and keeps the others in their order; when the
    implementation is not registered nothing changes.  So a
    registration followed by its disposal restores the registry when
    the implementation was not registered before, and otherwise
    removes the earlier entry and leaves the new one at the end. *)
Theorem dispose_removes_first_registration :
  (forall (x : nat) (r1 r2 : AccessibleViewRegistry.t),
      ~ In x r1 ->
      AccessibleViewRegistry.dispose x (r1 ++ x :: r2) = r1 ++ r2)
  /\ (forall (x : nat) (r : AccessibleViewRegistry.t),
        ~ In x r -> AccessibleViewRegistry.dispose x r = r)
  /\ (forall (x : nat) (r : AccessibleViewRegistry.t),
        ~ In x r ->
        AccessibleViewRegistry.dispose x (AccessibleViewRegistry.register x r) = r)
  /\ (forall (x : nat) (r1 r2 : AccessibleViewRegistry.t),
        ~ In x r1 ->
        AccessibleViewRegistry.dispose x
          (AccessibleViewRegistry.register x (r1 ++ x :: r2))
        = r1 ++ r2 ++ [x]).
Proof.
  split; [exact RegistryFacts.dispose_first|]. split; [|split].
  - intros x r H. unfold AccessibleViewRegistry.dispose.
    rewrite (@RegistryFacts.indexOf_absent x r H). reflexivity.
  - intros x r H.
    exact (eq_trans (@RegistryFacts.dispose_first x r [] H) (app_nil_r r)).
  - intros x r1 r2 H. unfold AccessibleViewRegistry.register.
    rewrite <- app_assoc.
    exact (@RegistryFacts.dispose_first x r1 (r2 ++ [x]) H).
Qed.

(** The implementation 5 registered between 3 and 8, then once more:
    disposing the second registration removes the first entry. *)
Lemma dispose_removes_first_registration_witness :
  AccessibleViewRegistry.dispose 5%nat
    (AccessibleViewRegistry.register 5%nat [3; 5; 8]%nat) = [3; 8; 5]%nat
  /\ AccessibleViewRegistry.dispose 5%nat
       (AccessibleViewRegistry.register 5%nat [3; 8]%nat)
     = [3; 8]%nat.
Proof.
  destruct dispose_removes_first_registration as (_ & _ & Hfresh & Htwice). split.
  - apply (Htwice 5%nat [3%nat] [8%nat]). intros [E|[]]. discriminate E.
  - apply (Hfresh 5%nat). intros [E|[E|[]]]; discriminate E.
Defined.

(** X8: for an index inside the list, alertAccessibleViewFocusChange
    alerts exactly when the neighbour in the direction of the change
    exists, and then announces the neighbour's position counted from
    one, together with the length; without an index or a length it
    alerts nothing. *)
Theorem alert_announces_neighbour (index length : Z) (type : FocusChange) :
  (0 <= index < length)%Z ->
  let n := neighbour index type in
  ((0 <= n < length)%Z ->
   alertAccessibleViewFocusChange (Some index) (Some length) type
   = Some ("Focused " ++ decimal (n + 1) ++ " of " ++ decimal length)%string)
  /\ (~ (0 <= n < length)%Z ->
      alertAccessibleViewFocusChange (Some index) (Some length) type = None)
  /\ alertAccessibleViewFocusChange None (Some length) type = None
  /\ alertAccessibleViewFocusChange (Some index) None type = None.
Proof.
  intros Hi n. subst n. unfold alertAccessibleViewFocusChange, neighbour.
  destruct type.
  - destruct (Z.leb_spec (index + 1 + 1) length) as [L|L].
    + repeat split; try reflexivity. intro H. lia.
    + repeat split; try reflexivity. intro H. lia.
  - unfold Z.gtb. destruct (Z.compare_spec (index + 1 - 1) 0) as [E|L|G].
    + repeat split; try reflexivity. intro H. lia.
    + repeat split; try reflexivity. intro H. lia.
    + repeat split; try reflexivity.
      * intros _. replace (index - 1 + 1)%Z with (index + 1 - 1)%Z by lia. reflexivity.
      * intro H. lia.
Qed.

(** On the second of five items: forward announces 3 of 5, backward
    1 of 5; on the first item backward announces nothing. *)
Lemma alert_announces_neighbour_witness :
  alertAccessibleViewFocusChange (Some 1%Z) (Some 5%Z) FocusNext = Some "Focused 3 of 5"%string
  /\ alertAccessibleViewFocusChange (Some 1%Z) (Some 5%Z) FocusPrevious
     = Some "Focused 1 of 5"%string
  /\ alertAccessibleViewFocusChange (Some 0%Z) (Some 5%Z) FocusPrevious = None.
Proof.
  split; [|split].
  - apply (alert_announces_neighbour (index := 1) (length := 5) FocusNext); cbn; lia.
  - apply (alert_announces_neighbour (index := 1) (length := 5) FocusPrevious); cbn; lia.
  - apply (alert_announces_neighbour (index := 0) (length := 5) FocusPrevious); cbn; lia.
Defined.

(** ** The colour participants of the hover *)

Section ParticipantFacts.

Variable DocumentColorProvider : Type.
Variable modelOf : IColorInformation -> DocumentColorProvider -> ColorPickerModel.
Variable containsRange : Range -> Range -> bool.

Lemma firstColorData_none (detector : ColorDetector DocumentColorProvider)
  (ds : list IModelDecoration) :
  existsb (hasColorData detector) ds = false -> firstColorData detector ds = None.
Proof.
  induction ds as [|d ds IH]; intro H; [reflexivity|].
  cbn in H. apply orb_false_elim in H as [Hd Hds]. cbn.
  unfold hasColorData in Hd.
  destruct (isColorDecoration detector d); cbn in *; [|exact (IH Hds)].
  destruct (getColorData detector (getStartPosition (decoration_range d)));
    [discriminate Hd | exact (IH Hds)].
Qed.

Lemma firstColorData_first (detector : ColorDetector DocumentColorProvider)
  (before after : list IModelDecoration) (d : IModelDecoration)
  (colorData : IColorData DocumentColorProvider) :
  existsb (hasColorData detector) before = false ->
  isColorDecoration detector d = true ->
  getColorData detector (getStartPosition (decoration_range d)) = Some colorData ->
  firstColorData detector (before ++ d :: after) = Some colorData.
Proof.
  intros Hb Hd Hdata. induction before as [|b before IH].
  - cbn. rewrite Hd, Hdata. reflexivity.
  - cbn in Hb. apply orb_false_elim in Hb as [Hb0 Hb]. cbn.
    unfold hasColorData in Hb0.
    destruct (isColorDecoration detector b); cbn in *; [|exact (IH Hb)].
    destruct (getColorData detector (getStartPosition (decoration_range b)));
      [discriminate Hb0 | exact (IH Hb)].
Qed.

Lemma firstColorData_some (detector : ColorDetector DocumentColorProvider)
  (ds : list IModelDecoration) :
  existsb (hasColorData detector) ds = true ->
  exists colorData, firstColorData detector ds = Some colorData.
Proof.
  induction ds as [|d ds IH]; intro H; [discriminate H|].
  cbn in H. cbn. unfold hasColorData in H.
  destruct (isColorDecoration detector d); cbn in *; [|exact (IH H)].
  destruct (getColorData detector (getStartPosition (decoration_range d))) as [cd|];
    [exists cd; reflexivity | exact (IH H)].
Qed.

Lemma findColor_acc (defaultColorInfo : IColorInformation)
  (colors : list (IColorData DocumentColorProvider))
  (found : option (IColorData DocumentColorProvider)) :
  existsb (containsDefault containsRange defaultColorInfo) colors = false ->
  fold_left
    (fun found colorData =>
       if containsRange (info_range (colorInfo colorData)) (info_range defaultColorInfo)
       then Some colorData else found)
    colors found = found.
Proof.
  revert found. induction colors as [|c colors IH]; intros found H; [reflexivity|].
  cbn in H. apply orb_false_elim in H as [Hc Hcs]. cbn.
  unfold containsDefault in Hc. rewrite Hc. exact (IH found Hcs).
Qed.

Lemma findColor_last (defaultColorInfo : IColorInformation)
  (before after : list (IColorData DocumentColorProvider))
  (colorData : IColorData DocumentColorProvider) :
  containsDefault containsRange defaultColorInfo colorData = true ->
  existsb (containsDefault containsRange defaultColorInfo) after = false ->
  findColor containsRange defaultColorInfo (before ++ colorData :: after) = Some colorData.
Proof.
  intros Hc Hafter. unfold findColor. rewrite fold_left_app. cbn [fold_left].
  unfold containsDefault in Hc. rewrite Hc. apply findColor_acc. exact Hafter.
Qed.

End ParticipantFacts.

(** X9: ColorHoverParticipant._computeAsync answers with at most one
    colour hover; it answers with one exactly when the editor has a
    model and a colour detector and some decoration of the line is a
    colour decoration with colour data, and the hover is then the one
    of the first such decoration, at the range of its colour. *)
Theorem computeAsync_first_color_decoration
  (DocumentColorProvider : Type)
  (modelOf : IColorInformation -> DocumentColorProvider -> ColorPickerModel)
  (hasModel : bool) (colorDetector : option (ColorDetector DocumentColorProvider))
  (lineDecorations : list IModelDecoration) :
  let parts := _computeAsync modelOf hasModel colorDetector lineDecorations in
  (length parts <= 1)%nat
  /\ (parts <> [] <->
      hasModel = true
      /\ exists detector, colorDetector = Some detector
                          /\ existsb (hasColorData detector) lineDecorations = true)
  /\ (forall detector before d after colorData,
        hasModel = true -> colorDetector = Some detector ->
        lineDecorations = before ++ d :: after ->
        existsb (hasColorData detector) before = false ->
        isColorDecoration detector d = true ->
        getColorData detector (getStartPosition (decoration_range d)) = Some colorData ->
        parts = [mkColorHoverPart true (info_range (colorInfo colorData))
                   (modelOf (colorInfo colorData) (provider colorData))
                   (provider colorData)]).
Proof.
  intro parts. subst parts. unfold _computeAsync.
  split; [|split].
  - destruct hasModel; cbn; [|lia]. destruct colorDetector as [det|]; cbn; [|lia].
    destruct (firstColorData det lineDecorations); cbn; lia.
  - destruct hasModel; cbn.
    + destruct colorDetector as [det|].
      * destruct (existsb (hasColorData det) lineDecorations) eqn:E.
        -- destruct (firstColorData_some det lineDecorations E) as [cd ->].
           split; [intros _; split; [reflexivity | exists det; split; [reflexivity | exact E]]
                  | intros _; discriminate].
        -- rewrite (firstColorData_none det lineDecorations E).
           split; [intro H; exfalso; apply H; reflexivity|].
           intros (_ & det' & Hdet & Hex). injection Hdet as <-. congruence.
      * split; [intro H; exfalso; apply H; reflexivity|].
        intros (_ & det' & Hdet & _). discriminate Hdet.
    + split; [intro H; exfalso; apply H; reflexivity | intros [H _]; discriminate H].
  - intros det before d after cd -> -> -> Hbefore Hd Hdata. cbn.
    rewrite (firstColorData_first det before after d Hbefore Hd Hdata). reflexivity.
Qed.

(** X10: the colour participant never forgets its picker: after any
    calls of renderHoverParts, isColorPickerVisible holds exactly when
    it held before or one of the calls had a part to render on an
    editor with a model. *)
Theorem color_picker_stays_visible
  (DocumentColorProvider : Type)
  (participant : ColorHoverParticipant)
  (calls : list (RenderCall DocumentColorProvider)) :
  isColorPickerVisible (render_all participant calls)
  = isColorPickerVisible participant || existsb (@renders DocumentColorProvider) calls.
Proof.
  revert participant. induction calls as [|[hasModel parts] calls IH]; intro participant.
  - cbn. rewrite orb_false_r. reflexivity.
  - cbn [render_all fold_left existsb]. fold (render_all (DocumentColorProvider := DocumentColorProvider)).
    change (fold_left _ calls ?p) with (render_all p calls).
    rewrite IH. unfold renders at 2. cbn [fst snd].
    destruct parts as [|first rest]; cbn.
    + rewrite andb_false_r. reflexivity.
    + destruct hasModel; cbn; [rewrite orb_true_r; reflexivity | reflexivity].
Qed.

(** X11: StandaloneColorPickerParticipant.createColorHover answers null
    exactly when the editor has no model or no colour detector;
    otherwise the hover is built for the last colour of the document
    whose range contains the default range, with foundInEditor true,
    and for the default colour and provider, with foundInEditor false,
    when no colour of the document contains it. *)
Theorem standalone_hover_uses_last_containing_color
  (DocumentColorProvider : Type)
  (modelOf : IColorInformation -> DocumentColorProvider -> ColorPickerModel)
  (containsRange : Range -> Range -> bool)
  (hasModel : bool) (colorDetector : option (ColorDetector DocumentColorProvider))
  (colors : list (IColorData DocumentColorProvider))
  (defaultColorInfo : IColorInformation) (defaultColorProvider : DocumentColorProvider) :
  let answer := standalone_createColorHover modelOf containsRange hasModel colorDetector
                  colors defaultColorInfo defaultColorProvider in
  (answer = None <-> hasModel = false \/ colorDetector = None)
  /\ (hasModel = true -> colorDetector <> None ->
      (forall before colorData after,
          colors = before ++ colorData :: after ->
          containsDefault containsRange defaultColorInfo colorData = true ->
          existsb (containsDefault containsRange defaultColorInfo) after = false ->
          answer = Some (createColorHover modelOf (colorInfo colorData) (provider colorData),
                         true))
      /\ (existsb (containsDefault containsRange defaultColorInfo) colors = false ->
          answer = Some (createColorHover modelOf defaultColorInfo defaultColorProvider,
                         false))).
Proof.
  intro answer. subst answer. unfold standalone_createColorHover. split.
  - destruct hasModel; cbn.
    + destruct colorDetector; split; try discriminate.
      * intros [H|H]; discriminate H.
      * intros _. right. reflexivity.
      * reflexivity.
    + split; [intros _; left; reflexivity | reflexivity].
  - intros -> Hdet. cbn. destruct colorDetector as [det|]; [|contradiction]. split.
    + intros before cd after -> Hc Hafter.
      rewrite (findColor_last containsRange defaultColorInfo before after cd Hc Hafter).
      reflexivity.
    + intro Hnone. unfold findColor.
      rewrite (findColor_acc containsRange defaultColorInfo colors None Hnone).
      reflexivity.
Qed.

(** A line with a plain decoration 1 and the colour decoration 2: one
    hover, at the range 3:5-9 of the colour. *)
Lemma computeAsync_first_color_decoration_witness :
  _computeAsync (fun _ _ => redModel) true (Some sampleDetector)
    [mkDecoration 1 (mkRange 3 1 3 4); mkDecoration 2 at_3_5_9]
  = [mkColorHoverPart true at_3_5_9 redModel 7%nat].
Proof.
  destruct (computeAsync_first_color_decoration (fun _ _ => redModel) true
              (Some sampleDetector)
              [mkDecoration 1 (mkRange 3 1 3 4); mkDecoration 2 at_3_5_9])
    as (_ & _ & H).
  apply (H sampleDetector [mkDecoration 1 (mkRange 3 1 3 4)] (mkDecoration 2 at_3_5_9) []
           redAt_3_5_9); reflexivity.
Defined.

(** Two colours of the document contain the default range 3:6-8: the
    hover is built for the second. *)
Lemma standalone_hover_uses_last_containing_color_witness :
  let wide := mkColorData (mkColorInfo (mkRange 3 1 3 20) opaqueRed) 4%nat in
  standalone_createColorHover (fun _ _ => redModel) sameLineContains true
    (Some sampleDetector) [wide; redAt_3_5_9]
    (mkColorInfo (mkRange 3 6 3 8) opaqueRed) 0%nat
  = Some (mkColorHover at_3_5_9 redModel 7%nat, true).
Proof.
  intro wide.
  destruct (standalone_hover_uses_last_containing_color (fun _ _ => redModel)
              sameLineContains true (Some sampleDetector) [wide; redAt_3_5_9]
              (mkColorInfo (mkRange 3 6 3 8) opaqueRed) 0%nat) as [_ H].
  destruct (H eq_refl) as [Hlast _]; [discriminate|].
  apply (Hlast [wide] redAt_3_5_9 []); reflexivity.
Defined.

(** ** The model of references *)

Module ReferencesFacts.
Import References.

Lemma lastOf_app {A} (l : list A) (x : A) : lastOf (l ++ [x]) = Some x.
Proof.
  destruct l as [|y l]; [reflexivity|]. cbn [app lastOf]. f_equal. apply last_last.
Qed.

Lemma lastOf_none {A} (l : list A) : lastOf l = None -> l = [].
Proof. destruct l; [reflexivity | discriminate]. Qed.

Lemma lastOf_some {A} (l : list A) (x : A) : lastOf l = Some x -> exists l', l = l' ++ [x].
Proof.
  intro H. destruct l as [|y l]; [discriminate|].
  destruct (@exists_last _ (y :: l)) as (l' & a & E); [discriminate|].
  rewrite E in H. rewrite lastOf_app in H. injection H as <-.
  exists l'. exact E.
Qed.

Section OverURI.

Variable URI : Type.
Variable compare : URI -> URI -> Z.
Variable isEqual : URI -> URI -> bool.
Variable compareRangesUsingStarts : Range -> Range -> Z.
Variable lastId : nat.

(** Appending a reference to the last group, which may be a group
    just created and still empty. *)
Lemma partitioned_append (gs : list (FileReferences URI)) (cur : FileReferences URI)
  (refs : list (OneReference URI)) (r : OneReference URI) :
  concat (map (@children URI) gs) ++ children cur = refs ->
  Forall (fun g => children g <> []) gs ->
  (forall i g, nth_error (gs ++ [cur]) i = Some g ->
               Forall (fun r => parent r = i) (children g)) ->
  map (@id URI) refs = seq (S lastId) (length refs) ->
  parent r = length gs -> id r = (lastId + length refs + 1)%nat ->
  partitioned lastId (gs ++ [mkFile (file_uri cur) (children cur ++ [r])]) (refs ++ [r]).
Proof.
  intros H1 H2 H3 H4 Hp Hid. repeat split.
  - rewrite map_app, concat_app. cbn. rewrite app_nil_r, app_assoc, H1. reflexivity.
  - apply Forall_app. split; [exact H2|]. constructor; [|constructor].
    cbn. destruct (children cur); discriminate.
  - intros i g Hi.
    destruct (Nat.lt_ge_cases i (length gs)) as [Hlt|Hge].
    + rewrite nth_error_app1 in Hi by exact Hlt.
      apply (H3 i g). rewrite nth_error_app1 by exact Hlt. exact Hi.
    + rewrite nth_error_app2 in Hi by exact Hge.
      destruct (i - length gs)%nat as [|k] eqn:Ek.
      * cbn in Hi. injection Hi as <-. cbn.
        assert (i = length gs) by lia. subst i.
        apply Forall_app. split.
        -- apply (H3 (length gs) cur). rewrite nth_error_app2 by lia.
           rewrite Nat.sub_diag. reflexivity.
        -- constructor; [exact Hp | constructor].
      * cbn in Hi. destruct k; discriminate Hi.
  - rewrite map_app, length_app, seq_app, H4. cbn. rewrite Hid.
    do 3 f_equal. lia.
Qed.

Lemma addLink_partitioned (providersFirst : option (LocationLink URI))
  (gs : list (FileReferences URI)) (refs : list (OneReference URI))
  (link : LocationLink URI) :
  partitioned lastId gs refs ->
  partitioned lastId (fst (References.addLink compare isEqual compareRangesUsingStarts lastId providersFirst (gs, refs) link))
              (snd (References.addLink compare isEqual compareRangesUsingStarts lastId providersFirst (gs, refs) link))
  /\ fst (References.addLink compare isEqual compareRangesUsingStarts lastId providersFirst (gs, refs) link) <> [].
Proof.
  intros (H1 & H2 & H3 & H4). unfold References.addLink.
  destruct (lastOf gs) as [cur|] eqn:Elast.
  - destruct (lastOf_some _ Elast) as [gs' ->].
    destruct (isEqual (file_uri cur) (link_uri link)).
    + rewrite lastOf_app.
      assert (Hcur : children cur <> []).
      { apply Forall_app in H2 as [_ H2]. inversion H2. assumption. }
      destruct (lastOf (children cur)) as [prev|] eqn:Eprev;
        [|apply lastOf_none in Eprev; contradiction].
      destruct (negb _).
      * cbn [fst snd]. rewrite removelast_last, length_app. cbn [length].
        split; [|destruct gs'; discriminate].
        apply partitioned_append.
        -- rewrite map_app, concat_app in H1. cbn in H1. rewrite app_nil_r in H1. exact H1.
        -- apply Forall_app in H2 as [H2 _]. exact H2.
        -- exact H3.
        -- exact H4.
        -- cbn. lia.
        -- reflexivity.
      * cbn [fst snd]. split; [repeat split; assumption | destruct gs'; discriminate].
    + rewrite lastOf_app. cbn [children lastOf].
      cbn [fst snd]. rewrite removelast_last, length_app. cbn [length].
      split; [|destruct (gs' ++ [cur]); discriminate].
      change [mkFile (link_uri link) ([] ++ [?r])]
        with [mkFile (file_uri (mkFile (link_uri link) []))
                (children (mkFile (link_uri link) []) ++ [r])].
      apply partitioned_append.
      * cbn. rewrite app_nil_r. exact H1.
      * exact H2.
      * intros i g Hi.
        destruct (Nat.lt_ge_cases i (length (gs' ++ [cur]))) as [Hlt|Hge].
        -- rewrite nth_error_app1 in Hi by exact Hlt. exact (H3 i g Hi).
        -- rewrite nth_error_app2 in Hi by exact Hge.
           destruct (i - length (gs' ++ [cur]))%nat as [|k]; cbn in Hi.
           ++ injection Hi as <-. constructor.
           ++ destruct k; discriminate Hi.
      * exact H4.
      * cbn. lia.
      * reflexivity.
  - apply lastOf_none in Elast. subst gs. cbn [app lastOf last children].
    cbn [fst snd removelast app length].
    split; [|discriminate].
    cbn in H1. subst refs.
    match goal with |- partitioned _ [mkFile _ [?r]] _ =>
      pose proof (@partitioned_append [] (mkFile (link_uri link) []) [] r) as P
    end.
    cbn in P. apply P; try reflexivity.
    + constructor.
    + intros i g Hi. destruct i as [|[|i]]; cbn in Hi; try discriminate Hi.
      injection Hi as <-. constructor.
Qed.

Lemma fold_addLink_partitioned (providersFirst : option (LocationLink URI))
  (links : list (LocationLink URI))
  (gs : list (FileReferences URI)) (refs : list (OneReference URI)) :
  partitioned lastId gs refs ->
  partitioned lastId (fst (fold_left (References.addLink compare isEqual compareRangesUsingStarts lastId providersFirst) links (gs, refs)))
              (snd (fold_left (References.addLink compare isEqual compareRangesUsingStarts lastId providersFirst) links (gs, refs)))
  /\ (links <> [] -> fst (fold_left (References.addLink compare isEqual compareRangesUsingStarts lastId providersFirst) links (gs, refs)) <> []).
Proof.
  revert gs refs. induction links as [|link links IH]; intros gs refs H.
  - cbn. split; [exact H | intro C; contradiction].
  - cbn [fold_left].
    destruct (addLink_partitioned providersFirst link H) as [H' Hne].
    destruct (References.addLink compare isEqual compareRangesUsingStarts lastId providersFirst (gs, refs) link) as [gs' refs'].
    cbn [fst snd] in H', Hne.
    destruct (IH gs' refs' H') as [IH1 IH2]. split; [exact IH1|].
    intros _. destruct links as [|l2 links]; [exact Hne | apply IH2; discriminate].
Qed.

Lemma sort_nil (links : list (LocationLink URI)) :
  sort compare compareRangesUsingStarts links = [] -> links = [].
Proof.
  destruct links as [|l links]; [reflexivity|].
  unfold sort. cbn [sortBy fold_right]. intro H. exfalso.
  destruct (fold_right _ _ links) as [|y rest]; cbn in H; [discriminate H|].
  destruct (_ <=? _)%Z; discriminate H.
Qed.

Lemma at_index_nat {A} (l : list A) (k : nat) : at_index l (Z.of_nat k) = nth_error l k.
Proof.
  unfold at_index. destruct (Z.ltb_spec (Z.of_nat k) 0) as [H|_]; [lia|].
  rewrite Nat2Z.id. reflexivity.
Qed.

Lemma at_index_last {A} (l : list A) :
  at_index l (Z.of_nat (length l) - 1) = nth_error l (length l - 1).
Proof.
  destruct l as [|x l]; [reflexivity|].
  replace (Z.of_nat (length (x :: l)) - 1)%Z with (Z.of_nat (length (x :: l) - 1))
    by (cbn [length]; lia).
  apply at_index_nat.
Qed.

Lemma remainder_nat (a b : nat) :
  b <> 0%nat -> remainder (Z.of_nat a) (Z.of_nat b) = Some (Z.of_nat (a mod b)).
Proof.
  intro Hb. unfold remainder.
  destruct (Z.eqb_spec (Z.of_nat b) 0) as [E|_]; [lia|].
  rewrite Z.rem_mod_nonneg by lia. rewrite Nat2Z.inj_mod. reflexivity.
Qed.

Lemma nodup_ids_in_group (gs : list (FileReferences URI)) (g : FileReferences URI) :
  NoDup (map (@id URI) (concat (map (@children URI) gs))) ->
  In g gs -> NoDup (map (@id URI) (children g)).
Proof.
  induction gs as [|g0 gs IH]; intros Hnd Hin; [destruct Hin|].
  cbn in Hnd. rewrite map_app in Hnd. destruct Hin as [->|Hin].
  - exact (NoDup_app_remove_r _ _ Hnd).
  - apply IH; [exact (NoDup_app_remove_l _ _ Hnd) | exact Hin].
Qed.

Lemma indexOf_nth (l : list (OneReference URI)) (j : nat) (r : OneReference URI) :
  NoDup (map (@id URI) l) -> nth_error l j = Some r -> indexOf r l = Z.of_nat j.
Proof.
  revert j. induction l as [|x l IH]; intros j Hnd Hj; [destruct j; discriminate Hj|].
  cbn in Hnd. inversion Hnd as [|? ? Hnotin Hnd']; subst.
  destruct j as [|j]; cbn in Hj.
  - injection Hj as ->. cbn. rewrite Nat.eqb_refl. reflexivity.
  - cbn [indexOf]. destruct (Nat.eqb_spec (id r) (id x)) as [E|_].
    + exfalso. apply Hnotin. rewrite <- E. apply in_map.
      exact (nth_error_In _ _ Hj).
    + rewrite (IH j Hnd' Hj).
      destruct (Z.eqb_spec (Z.of_nat j) (-1)) as [C|_]; lia.
Qed.

(** Where a reference of a partitioned model is: its group, its place
    in the group, and what the code reads of it. *)
Lemma locate (gs : list (FileReferences URI)) (refs : list (OneReference URI))
  (r : OneReference URI) :
  partitioned lastId gs refs -> In r refs ->
  exists i g j,
    nth_error gs i = Some g /\ nth_error (children g) j = Some r.
Proof.
  intros (H1 & _) Hin. rewrite <- H1 in Hin.
  apply in_concat in Hin as (l & Hl & Hr).
  apply in_map_iff in Hl as (g & <- & Hg).
  destruct (In_nth_error _ _ Hg) as [i Hi].
  destruct (In_nth_error _ _ Hr) as [j Hj].
  exists i, g, j. split; assumption.
Qed.

Lemma located (gs : list (FileReferences URI)) (refs : list (OneReference URI))
  (i j : nat) (g : FileReferences URI) (r : OneReference URI) :
  partitioned lastId gs refs ->
  nth_error gs i = Some g -> nth_error (children g) j = Some r ->
  parent r = i /\ indexOf r (children g) = Z.of_nat j /\ In r refs.
Proof.
  intros (H1 & _ & H3 & H4) Hi Hj. split; [|split].
  - pose proof (H3 i g Hi) as Hall. rewrite Forall_forall in Hall.
    apply Hall. exact (nth_error_In _ _ Hj).
  - apply indexOf_nth; [|exact Hj].
    apply (nodup_ids_in_group gs); [|exact (nth_error_In _ _ Hi)].
    rewrite H1, H4. apply seq_NoDup.
  - rewrite <- H1. apply in_concat. exists (children g). split.
    + apply in_map. exact (nth_error_In _ _ Hi).
    + exact (nth_error_In _ _ Hj).
Qed.

Lemma eqb_of_nat (a b : nat) : (Z.of_nat a =? Z.of_nat b)%Z = Nat.eqb a b.
Proof.
  destruct (Z.eqb_spec (Z.of_nat a) (Z.of_nat b)), (Nat.eqb_spec a b); try reflexivity; lia.
Qed.

Lemma ltb_of_nat (a b : nat) : (Z.of_nat a <? Z.of_nat b)%Z = Nat.ltb a b.
Proof.
  destruct (Z.ltb_spec (Z.of_nat a) (Z.of_nat b)), (Nat.ltb_spec a b); try reflexivity; lia.
Qed.

Lemma gtb_of_nat (a : nat) : (Z.of_nat a >? 0)%Z = Nat.ltb 0 a.
Proof.
  rewrite Z.gtb_ltb. exact (ltb_of_nat 0 a).
Qed.

(** The next reference, read by positions. *)
Lemma next_value (m : t URI) (i j : nat) (g : FileReferences URI) (r : OneReference URI) :
  partitioned lastId (groups m) (references m) ->
  nth_error (groups m) i = Some g -> nth_error (children g) j = Some r ->
  nextOrPreviousReference m r true
  = if Nat.eqb (length (groups m)) 1 || Nat.ltb (j + 1) (length (children g))
    then nth_error (children g) ((j + 1) mod length (children g))
    else match nth_error (groups m) ((i + 1) mod length (groups m)) with
         | Some g' => nth_error (children g') 0
         | None => None
         end.
Proof.
  intros P Hi Hj. destruct (@located _ _ i j g r P Hi Hj) as (Hp & Hidx & _).
  assert (Hn : length (children g) <> 0%nat).
  { intro E. apply length_zero_iff_nil in E. rewrite E in Hj. destruct j; discriminate Hj. }
  assert (HG : length (groups m) <> 0%nat).
  { intro E. apply length_zero_iff_nil in E. rewrite E in Hi. destruct i; discriminate Hi. }
  unfold nextOrPreviousReference. rewrite Hp, Hi, Hidx. cbn [negb andb orb].
  rewrite orb_false_r.
  change 1%Z with (Z.of_nat 1). rewrite eqb_of_nat.
  replace (Z.of_nat j + Z.of_nat 1)%Z with (Z.of_nat (j + 1)) by lia.
  rewrite ltb_of_nat.
  destruct (Nat.eqb (length (groups m)) 1 || Nat.ltb (j + 1) (length (children g))).
  - rewrite remainder_nat by exact Hn. apply at_index_nat.
  - replace (Z.of_nat i + Z.of_nat 1)%Z with (Z.of_nat (i + 1)) by lia.
    rewrite remainder_nat by exact HG. rewrite at_index_nat.
    destruct (nth_error (groups m) ((i + 1) mod length (groups m))); [|reflexivity].
    exact (at_index_nat _ 0).
Qed.

(** The previous reference, read by positions. *)
Lemma previous_value (m : t URI) (i j : nat) (g : FileReferences URI) (r : OneReference URI) :
  partitioned lastId (groups m) (references m) ->
  nth_error (groups m) i = Some g -> nth_error (children g) j = Some r ->
  nextOrPreviousReference m r false
  = if Nat.eqb (length (groups m)) 1 || Nat.ltb 0 j
    then nth_error (children g) ((j + length (children g) - 1) mod length (children g))
    else match nth_error (groups m) ((i + length (groups m) - 1) mod length (groups m)) with
         | Some g' => nth_error (children g') (length (children g') - 1)
         | None => None
         end.
Proof.
  intros P Hi Hj. destruct (@located _ _ i j g r P Hi Hj) as (Hp & Hidx & _).
  assert (Hn : length (children g) <> 0%nat).
  { intro E. apply length_zero_iff_nil in E. rewrite E in Hj. destruct j; discriminate Hj. }
  assert (HG : length (groups m) <> 0%nat).
  { intro E. apply length_zero_iff_nil in E. rewrite E in Hi. destruct i; discriminate Hi. }
  unfold nextOrPreviousReference. rewrite Hp, Hi, Hidx. cbn [negb andb orb].
  rewrite orb_false_r.
  change 1%Z with (Z.of_nat 1). rewrite eqb_of_nat, gtb_of_nat.
  destruct (Nat.eqb (length (groups m)) 1 || Nat.ltb 0 j).
  - replace (Z.of_nat j + Z.of_nat (length (children g)) - Z.of_nat 1)%Z
      with (Z.of_nat (j + length (children g) - 1)) by lia.
    rewrite remainder_nat by exact Hn. apply at_index_nat.
  - replace (Z.of_nat i + Z.of_nat (length (groups m)) - Z.of_nat 1)%Z
      with (Z.of_nat (i + length (groups m) - 1)) by lia.
    rewrite remainder_nat by exact HG. rewrite at_index_nat.
    destruct (nth_error (groups m) ((i + length (groups m) - 1) mod length (groups m)));
      [|reflexivity].
    exact (at_index_last _).
Qed.

Lemma mod_succ (j n : nat) :
  (j < n)%nat -> (j + 1) mod n = if Nat.ltb (j + 1) n then (j + 1)%nat else 0%nat.
Proof.
  intro H. destruct (Nat.ltb_spec (j + 1) n) as [L|L].
  - apply Nat.mod_small. exact L.
  - replace (j + 1)%nat with n by lia. apply Nat.Div0.mod_same.
Qed.

Lemma mod_pred (j n : nat) :
  (j < n)%nat -> (j + n - 1) mod n = if Nat.ltb 0 j then (j - 1)%nat else (n - 1)%nat.
Proof.
  intro H. destruct (Nat.ltb_spec 0 j) as [L|L].
  - replace (j + n - 1)%nat with (j - 1 + 1 * n)%nat by lia.
    rewrite Nat.Div0.mod_add. apply Nat.mod_small. lia.
  - replace (j + n - 1)%nat with (n - 1)%nat by lia. apply Nat.mod_small. lia.
Qed.

Lemma nth_error_lt {A} (l : list A) (k : nat) :
  (k < length l)%nat -> exists x, nth_error l k = Some x.
Proof.
  intro H. destruct (nth_error l k) as [x|] eqn:E; [exists x; reflexivity|].
  apply nth_error_None in E. lia.
Qed.

Lemma next_then_previous (m : t URI) (i j : nat) (g : FileReferences URI)
  (r : OneReference URI) :
  partitioned lastId (groups m) (references m) ->
  nth_error (groups m) i = Some g -> nth_error (children g) j = Some r ->
  exists r', nextOrPreviousReference m r true = Some r'
             /\ In r' (references m)
             /\ nextOrPreviousReference m r' false = Some r.
Proof.
  intros P Hi Hj.
  assert (Hjn : (j < length (children g))%nat) by (apply nth_error_Some; congruence).
  assert (HiG : (i < length (groups m))%nat) by (apply nth_error_Some; congruence).
  rewrite (@next_value m i j g r P Hi Hj).
  destruct (Nat.eqb_spec (length (groups m)) 1) as [G1|G1]; cbn [orb].
  - (* one group: cycling within the file *)
    assert (Hlt : ((j + 1) mod length (children g) < length (children g))%nat)
      by (apply Nat.mod_upper_bound; lia).
    destruct (@nth_error_lt _ _ _ Hlt) as [r' Hr']. exists r'.
    split; [exact Hr'|]. split; [exact (proj2 (proj2 (@located _ _ _ _ _ _ P Hi Hr')))|].
    rewrite (@previous_value m i _ g r' P Hi Hr').
    destruct (Nat.eqb_spec (length (groups m)) 1) as [_|C]; [|contradiction]. cbn [orb].
    rewrite <- Hj. f_equal. rewrite (@mod_pred _ _ Hlt), (@mod_succ _ _ Hjn).
    destruct (Nat.ltb_spec (j + 1) (length (children g))) as [L|L].
    + destruct (Nat.ltb_spec 0 (j + 1)); lia.
    + cbn. lia.
  - destruct (Nat.ltb_spec (j + 1) (length (children g))) as [L|L].
    + (* the next child of the same file *)
      rewrite Nat.mod_small by exact L.
      destruct (@nth_error_lt _ _ _ L) as [r' Hr']. exists r'.
      split; [exact Hr'|]. split; [exact (proj2 (proj2 (@located _ _ _ _ _ _ P Hi Hr')))|].
      rewrite (@previous_value m i _ g r' P Hi Hr').
      destruct (Nat.ltb_spec 0 (j + 1)) as [_|C]; [|lia]. rewrite orb_true_r.
      rewrite <- Hj. f_equal.
      replace (j + 1 + length (children g) - 1)%nat
        with (j + 1 * length (children g))%nat by lia.
      rewrite Nat.Div0.mod_add. apply Nat.mod_small. exact Hjn.
    + (* the first child of the next file *)
      assert (Hlt : ((i + 1) mod length (groups m) < length (groups m))%nat)
        by (apply Nat.mod_upper_bound; lia).
      destruct (@nth_error_lt _ _ _ Hlt) as [g' Hg']. rewrite Hg'.
      assert (Hne : children g' <> []).
      { destruct P as (_ & P2 & _). rewrite Forall_forall in P2.
        apply P2. exact (nth_error_In _ _ Hg'). }
      destruct (children g') as [|r' rest] eqn:Ec; [contradiction|].
      exists r'. split; [reflexivity|].
      assert (Hr' : nth_error (children g') 0 = Some r') by (rewrite Ec; reflexivity).
      split; [exact (proj2 (proj2 (@located _ _ _ _ _ _ P Hg' Hr')))|].
      rewrite (@previous_value m _ _ g' r' P Hg' Hr').
      destruct (Nat.eqb_spec (length (groups m)) 1) as [C|_]; [contradiction|]. cbn [orb Nat.ltb Nat.leb].
      assert (Hback : ((i + 1) mod length (groups m) + length (groups m) - 1)
                        mod length (groups m) = i).
      { rewrite (@mod_pred _ _ Hlt), (@mod_succ _ _ HiG).
        destruct (Nat.ltb_spec (i + 1) (length (groups m))) as [L'|L'].
        - destruct (Nat.ltb_spec 0 (i + 1)); lia.
        - cbn. lia. }
      rewrite Hback, Hi. rewrite <- Hj. f_equal. lia.
Qed.

Lemma previous_then_next (m : t URI) (i j : nat) (g : FileReferences URI)
  (r : OneReference URI) :
  partitioned lastId (groups m) (references m) ->
  nth_error (groups m) i = Some g -> nth_error (children g) j = Some r ->
  exists r', nextOrPreviousReference m r false = Some r'
             /\ In r' (references m)
             /\ nextOrPreviousReference m r' true = Some r.
Proof.
  intros P Hi Hj.
  assert (Hjn : (j < length (children g))%nat) by (apply nth_error_Some; congruence).
  assert (HiG : (i < length (groups m))%nat) by (apply nth_error_Some; congruence).
  rewrite (@previous_value m i j g r P Hi Hj).
  destruct (Nat.eqb_spec (length (groups m)) 1) as [G1|G1]; cbn [orb].
  - assert (Hlt : ((j + length (children g) - 1) mod length (children g)
                   < length (children g))%nat)
      by (apply Nat.mod_upper_bound; lia).
    destruct (@nth_error_lt _ _ _ Hlt) as [r' Hr']. exists r'.
    split; [exact Hr'|]. split; [exact (proj2 (proj2 (@located _ _ _ _ _ _ P Hi Hr')))|].
    rewrite (@next_value m i _ g r' P Hi Hr').
    destruct (Nat.eqb_spec (length (groups m)) 1) as [_|C]; [|contradiction]. cbn [orb].
    rewrite <- Hj. f_equal. rewrite (@mod_succ _ _ Hlt), (@mod_pred _ _ Hjn).
    destruct (Nat.ltb_spec 0 j) as [L|L].
    + destruct (Nat.ltb_spec (j - 1 + 1) (length (children g))); lia.
    + destruct (Nat.ltb_spec (length (children g) - 1 + 1) (length (children g))); lia.
  - destruct (Nat.ltb_spec 0 j) as [L|L].
    + (* the previous child of the same file *)
      replace (j + length (children g) - 1)%nat
        with (j - 1 + 1 * length (children g))%nat by lia.
      rewrite Nat.Div0.mod_add. rewrite Nat.mod_small by lia.
      assert (Hlt : (j - 1 < length (children g))%nat) by lia.
      destruct (@nth_error_lt _ _ _ Hlt) as [r' Hr']. exists r'.
      split; [exact Hr'|]. split; [exact (proj2 (proj2 (@located _ _ _ _ _ _ P Hi Hr')))|].
      rewrite (@next_value m i _ g r' P Hi Hr').
      destruct (Nat.ltb_spec (j - 1 + 1) (length (children g))) as [_|C]; [|lia].
      rewrite orb_true_r. rewrite <- Hj. f_equal.
      rewrite Nat.mod_small by lia. lia.
    + (* the last child of the previous file *)
      assert (Hlt : ((i + length (groups m) - 1) mod length (groups m)
                     < length (groups m))%nat)
        by (apply Nat.mod_upper_bound; lia).
      destruct (@nth_error_lt _ _ _ Hlt) as [g' Hg']. rewrite Hg'.
      assert (Hne : children g' <> []).
      { destruct P as (_ & P2 & _). rewrite Forall_forall in P2.
        apply P2. exact (nth_error_In _ _ Hg'). }
      assert (Hlast : (length (children g') - 1 < length (children g'))%nat).
      { destruct (children g'); [contradiction | cbn; lia]. }
      destruct (@nth_error_lt _ _ _ Hlast) as [r' Hr']. exists r'.
      split; [exact Hr'|]. split; [exact (proj2 (proj2 (@located _ _ _ _ _ _ P Hg' Hr')))|].
      rewrite (@next_value m _ _ g' r' P Hg' Hr').
      destruct (Nat.eqb_spec (length (groups m)) 1) as [C|_]; [contradiction|]. cbn [orb].
      destruct (Nat.ltb_spec (length (children g') - 1 + 1) (length (children g')))
        as [C|_]; [lia|].
      assert (Hback : ((i + length (groups m) - 1) mod length (groups m) + 1)
                        mod length (groups m) = i).
      { rewrite (@mod_succ _ _ Hlt), (@mod_pred _ _ HiG).
        destruct (Nat.ltb_spec 0 i) as [L'|L'].
        - destruct (Nat.ltb_spec (i - 1 + 1) (length (groups m))); lia.
        - destruct (Nat.ltb_spec (length (groups m) - 1 + 1) (length (groups m))); lia. }
      rewrite Hback, Hi. rewrite <- Hj. f_equal. lia.
Qed.

End OverURI.

End ReferencesFacts.

(** X12: whatever the links, the comparisons and the counter of the id
    generator, the constructor of ReferencesModel leaves the groups as
    a partition of the references in their order: no group is empty,
    every reference points to the group that holds it, and the
    references carry, in their order, the ids that the generator gives
    out after its counter, so that no two references of the model
    share an id.  The model is empty, and has no first reference,
    exactly when there was no link. *)
Theorem references_are_partitioned
  (URI : Type) (compare : URI -> URI -> Z) (isEqual : URI -> URI -> bool)
  (compareRangesUsingStarts : Range -> Range -> Z) (lastId : nat)
  (links : list (References.LocationLink URI)) (title : string) :
  let m := References.create compare isEqual compareRangesUsingStarts lastId links title in
  partitioned lastId (References.groups m) (References.references m)
  /\ NoDup (map (@References.id URI) (References.references m))
  /\ (References.isEmpty m = true <-> links = [])
  /\ (References.firstReference m = None <-> links = []).
Proof.
  intro m.
  assert (Hdistinct : partitioned lastId (References.groups m) (References.references m) ->
                      NoDup (map (@References.id URI) (References.references m))).
  { intros (_ & _ & _ & H4). rewrite H4. apply seq_NoDup. }
  cut (partitioned lastId (References.groups m) (References.references m)
       /\ (References.isEmpty m = true <-> links = [])
       /\ (References.firstReference m = None <-> links = [])).
  { intros (P & H). split; [exact P|]. split; [exact (Hdistinct P) | exact H]. }
  clear Hdistinct. subst m. unfold References.create.
  assert (P0 : partitioned lastId (@nil (References.FileReferences URI)) [])
    by (repeat split; [constructor | intros i g Hi; destruct i; discriminate Hi]).
  destruct links as [|l ls].
  - cbn. split; [exact P0|]. split; split; reflexivity.
  - destruct (@ReferencesFacts.fold_addLink_partitioned URI compare isEqual
                compareRangesUsingStarts lastId (hd_error (l :: ls))
                (References.sort compare compareRangesUsingStarts (l :: ls)) [] [] P0)
      as [P Hne].
    assert (Hsorted : References.sort compare compareRangesUsingStarts (l :: ls) <> []).
    { intro E. apply ReferencesFacts.sort_nil in E. discriminate E. }
    specialize (Hne Hsorted).
    destruct (fold_left _ _ _) as [gs refs]. cbn [fst snd] in P, Hne.
    cbn [References.groups References.references].
    split; [exact P|].
    destruct gs as [|g gs]; [contradiction|].
    assert (Hrefs : refs <> []).
    { destruct P as (P1 & P2 & _). inversion P2 as [|? ? Hg _]; subst.
      cbn. destruct (References.children g); [contradiction | discriminate]. }
    split.
    + unfold References.isEmpty. cbn. split; discriminate.
    + unfold References.firstReference. cbn [References.references].
      destruct (find _ refs); [split; discriminate|].
      destruct refs; [contradiction|]. cbn. split; discriminate.
Qed.

(** X13: in a model as constructed, the next reference of a reference
    of the model and its previous reference are references of the
    model, and each of the two moves undoes the other. *)
Theorem next_and_previous_reference_are_inverse
  (URI : Type) (compare : URI -> URI -> Z) (isEqual : URI -> URI -> bool)
  (compareRangesUsingStarts : Range -> Range -> Z) (lastId : nat)
  (links : list (References.LocationLink URI)) (title : string)
  (reference : References.OneReference URI) :
  let m := References.create compare isEqual compareRangesUsingStarts lastId links title in
  In reference (References.references m) ->
  (exists r, References.nextOrPreviousReference m reference true = Some r
             /\ In r (References.references m)
             /\ References.nextOrPreviousReference m r false = Some reference)
  /\ (exists r, References.nextOrPreviousReference m reference false = Some r
                /\ In r (References.references m)
                /\ References.nextOrPreviousReference m r true = Some reference).
Proof.
  intros m Hin.
  assert (P : partitioned lastId (References.groups m) (References.references m)).
  { subst m. unfold References.create.
    assert (P0 : partitioned lastId (@nil (References.FileReferences URI)) [])
      by (repeat split; [constructor | intros i g Hi; destruct i; discriminate Hi]).
    destruct (@ReferencesFacts.fold_addLink_partitioned URI compare isEqual
                compareRangesUsingStarts lastId (hd_error links)
                (References.sort compare compareRangesUsingStarts links) [] [] P0)
      as [P _].
    destruct (fold_left _ _ _) as [gs refs]. exact P. }
  destruct (@ReferencesFacts.locate URI lastId _ _ reference P Hin) as (i & g & j & Hi & Hj).
  split.
  - exact (@ReferencesFacts.next_then_previous URI lastId m i j g reference P Hi Hj).
  - exact (@ReferencesFacts.previous_then_next URI lastId m i j g reference P Hi Hj).
Qed.

(** In the sample of five links the last reference, alone in the third
    file, has the first reference of the first file as its next, and
    is the previous of that one. *)
Lemma next_and_previous_reference_are_inverse_witness :
  let last := References.mkReference 4 false 2 3%nat (mkRange 1 1 1 2) in
  exists r, References.nextOrPreviousReference sampleReferences last true = Some r
            /\ References.id r = 1%nat
            /\ References.nextOrPreviousReference sampleReferences r false = Some last.
Proof.
  intro last.
  destruct (@next_and_previous_reference_are_inverse nat compareNumbers Nat.eqb
              compareStarts 0%nat fiveLinks "References" last) as [(r & Hr & _ & Hback) _].
  - cbn. right. right. right. left. reflexivity.
  - exists r. split; [exact Hr|]. split; [|exact Hback].
    cbn in Hr. injection Hr as <-. reflexivity.
Defined.

Module NearestFacts.
Import References.

Lemma insertBy_In {A} (cmp : A -> A -> Z) (x y : A) (l : list A) :
  In y (insertBy cmp x l) <-> y = x \/ In y l.
Proof.
  induction l as [|z l IH]; cbn.
  - split; intros [H|H]; auto.
  - destruct (cmp x z <=? 0)%Z; cbn.
    + split; intros [H|H]; auto.
    + rewrite IH. split; intros [H|[H|H]]; auto.
Qed.

Lemma sortBy_In {A} (cmp : A -> A -> Z) (y : A) (l : list A) :
  In y (sortBy cmp l) <-> In y l.
Proof.
  induction l as [|x l IH]; [reflexivity|].
  cbn [sortBy fold_right]. fold (sortBy cmp l).
  rewrite insertBy_In, IH. cbn. split; intros [H|H]; auto.
Qed.

Lemma sortBy_nil {A} (cmp : A -> A -> Z) (l : list A) : sortBy cmp l = [] <-> l = [].
Proof.
  split; [|intros ->; reflexivity].
  destruct l as [|x l]; [reflexivity|]. intro H.
  assert (Hin : In x (sortBy cmp (x :: l))) by (apply sortBy_In; left; reflexivity).
  rewrite H in Hin. destruct Hin.
Qed.

(** The order of the comparator of nearestReference: a longer common
    prefix first, then a smaller distance. *)
Lemma compareNearest_le (a b : Nearest) :
  (compareNearest a b <=? 0)%Z = true
  <-> (prefixLen b < prefixLen a
       \/ (prefixLen a = prefixLen b /\ offsetDist a <= offsetDist b))%Z.
Proof.
  unfold compareNearest. rewrite !Z.gtb_ltb.
  destruct (Z.ltb_spec (prefixLen b) (prefixLen a)); [cbn; split; [intros _|]; auto|].
  destruct (Z.ltb_spec (prefixLen a) (prefixLen b)); [cbn; split; [discriminate | lia]|].
  destruct (Z.ltb_spec (offsetDist a) (offsetDist b)); [cbn; split; [intros _; lia|]; auto|].
  destruct (Z.ltb_spec (offsetDist b) (offsetDist a)); cbn; split; try discriminate; try lia;
    intros _; lia.
Qed.

(** The first of the sorted entries is not after any entry. *)
Lemma sortBy_head_least (l : list Nearest) (h : Nearest) (rest : list Nearest) :
  sortBy compareNearest l = h :: rest ->
  forall e, In e l -> (compareNearest h e <=? 0)%Z = true.
Proof.
  revert h rest. induction l as [|x l IH]; intros h rest Hs e He; [destruct He|].
  cbn [sortBy fold_right] in Hs. fold (sortBy compareNearest l) in Hs.
  destruct (sortBy compareNearest l) as [|h' rest'] eqn:Es.
  - apply sortBy_nil in Es. subst l. cbn in Hs. injection Hs as <- <-.
    destruct He as [<-|[]]. apply compareNearest_le. lia.
  - cbn in Hs. destruct (compareNearest x h' <=? 0)%Z eqn:Ex.
    + injection Hs as <- <-. destruct He as [<-|He].
      * apply compareNearest_le. lia.
      * pose proof (IH h' rest' eq_refl e He) as Hhe.
        apply compareNearest_le in Ex, Hhe. apply compareNearest_le. lia.
    + injection Hs as Hh _. subst h'. destruct He as [<-|He].
      * assert (Hn : ~ (prefixLen h < prefixLen x
                        \/ (prefixLen x = prefixLen h /\ offsetDist x <= offsetDist h))%Z).
        { intro C. apply compareNearest_le in C. congruence. }
        apply compareNearest_le. lia.
      * exact (IH h rest' eq_refl e He).
Qed.

Lemma mapWithIndex_In {A B} (f : nat -> A -> B) (l : list A) (start : nat) (e : B) :
  In e (mapWithIndex f start l) ->
  exists k x, nth_error l k = Some x /\ e = f (start + k)%nat x.
Proof.
  revert start. induction l as [|y l IH]; intros start H; [destruct H|].
  cbn in H. destruct H as [<-|H].
  - exists 0%nat, y. split; [reflexivity | f_equal; lia].
  - destruct (IH (S start) H) as (k & x & Hk & ->).
    exists (S k), x. split; [exact Hk | f_equal; lia].
Qed.

Lemma In_mapWithIndex {A B} (f : nat -> A -> B) (l : list A) (start : nat) (x : A) :
  In x l -> exists k, In (f k x) (mapWithIndex f start l).
Proof.
  revert start. induction l as [|y l IH]; intros start H; [destruct H|].
  destruct H as [->|H].
  - exists start. left. reflexivity.
  - destruct (IH (S start) H) as [k Hk]. exists k. right. exact Hk.
Qed.

End NearestFacts.

(** X14: nearestReference answers undefined exactly when the model has
    no reference; otherwise it answers with a reference of the model
    whose resource shares the longest prefix with the given resource,
    and which, among the references with a prefix as long, is at the
    smallest distance from the position (lines weighing 100 columns). *)
Theorem nearest_reference_is_best
  (URI : Type) (toString : URI -> string) (commonPrefixLength : string -> string -> Z)
  (m : References.t URI) (resource : URI) (position : References.Position) :
  let key := References.nearestOf toString commonPrefixLength resource position 0 in
  let answer := References.nearestReference toString commonPrefixLength m resource position in
  (answer = None <-> References.references m = [])
  /\ (forall r, answer = Some r ->
        In r (References.references m)
        /\ forall r', In r' (References.references m) ->
             (References.prefixLen (key r') <= References.prefixLen (key r))%Z
             /\ (References.prefixLen (key r') = References.prefixLen (key r) ->
                 (References.offsetDist (key r) <= References.offsetDist (key r'))%Z)).
Proof.
  intros key answer. subst answer. unfold References.nearestReference.
  set (entries := References.mapWithIndex
                    (References.nearestOf toString commonPrefixLength resource position)
                    0 (References.references m)).
  destruct (References.sortBy References.compareNearest entries) as [|h rest] eqn:Es.
  - apply NearestFacts.sortBy_nil in Es. split.
    + split; [intros _|reflexivity].
      destruct (References.references m) as [|r refs]; [reflexivity|].
      subst entries. discriminate Es.
    + intros r H. discriminate H.
  - assert (Hh : In h entries).
    { apply (NearestFacts.sortBy_In References.compareNearest). rewrite Es. left. reflexivity. }
    destruct (NearestFacts.mapWithIndex_In _ _ _ _ Hh) as (k & x & Hk & Hhx).
    cbn in Hhx. subst h. cbn [References.idx References.nearestOf].
    rewrite ReferencesFacts.at_index_nat, Hk. split.
    + split; [discriminate|]. intro E. rewrite E in Hk. destruct k; discriminate Hk.
    + intros r Hr. injection Hr as <-. split; [exact (nth_error_In _ _ Hk)|].
      intros r' Hr'.
      destruct (NearestFacts.In_mapWithIndex
                  (References.nearestOf toString commonPrefixLength resource position)
                  _ 0 _ Hr') as [k' Hk'].
      pose proof (NearestFacts.sortBy_head_least _ Es _ Hk') as Hle.
      apply NearestFacts.compareNearest_le in Hle. subst key. cbn in *. lia.
Qed.

(** Resource 2 and the position 4:1: of the two references in that
    resource the one at 5:1 is nearer than the one at 1:1. *)
Lemma nearest_reference_is_best_witness :
  exists r,
    References.nearestReference resourceName prefixLength sampleReferences 2%nat
      (References.mkPosition 4 1) = Some r
    /\ References.id r = 3%nat
    /\ In r (References.references sampleReferences).
Proof.
  destruct (nearest_reference_is_best resourceName prefixLength sampleReferences 2%nat
              (References.mkPosition 4 1)) as [_ H].
  eexists. split; [reflexivity|]. split; [reflexivity|].
  apply (H _ eq_refl).
Defined.

(** ** The preview of a reference *)

Lemma substring_skip (a s : string) (n : nat) :
  String.substring (String.length a) n (a ++ s) = String.substring 0 n s.
Proof. induction a as [|c a IH]; [reflexivity | exact IH]. Qed.

Lemma substring_prefix (b s : string) :
  String.substring 0 (String.length b) (b ++ s) = b.
Proof.
  induction b as [|c b IH].
  - destruct s; reflexivity.
  - cbn. rewrite IH. reflexivity.
Qed.

Lemma length_append (a b : string) :
  String.length (a ++ b) = (String.length a + String.length b)%nat.
Proof. induction a as [|c a IH]; [reflexivity | cbn; rewrite IH; reflexivity]. Qed.

Lemma trimStart_clean (isWhitespace : Ascii.ascii -> bool) (s : string) :
  startsClean isWhitespace (trimStart isWhitespace s).
Proof.
  induction s as [|c s IH]; [exact I|]. cbn.
  destruct (isWhitespace c) eqn:E; [exact IH | exact E].
Qed.

(** X15: the preview of a reference with a text model is the text
    before the range without its leading whitespace, the text of the
    range, and the text after it; its highlight delimits exactly the
    text of the range, and what precedes the highlight does not start
    with whitespace.  Without a text model there is no preview. *)
Theorem preview_highlights_the_range
  (getValueInRange : Range -> string) (wordStartColumn : nat -> Z -> nat)
  (isWhitespace : Ascii.ascii -> bool) (range : Range) (n : Z) :
  preview getValueInRange wordStartColumn isWhitespace false range n = None
  /\ exists p,
       preview getValueInRange wordStartColumn isWhitespace true range n = Some p
       /\ js_substring (preview_value p) (highlight_start p) (highlight_end p)
          = getValueInRange range
       /\ (highlight_start p <= highlight_end p <= String.length (preview_value p))%nat
       /\ startsClean isWhitespace (js_substring (preview_value p) 0 (highlight_start p)).
Proof.
  split; [reflexivity|]. eexists. split; [reflexivity|].
  cbn [preview_value highlight_start highlight_end]. unfold js_substring.
  set (before := trimStart isWhitespace _).
  set (inside := getValueInRange range).
  set (after := trimEnd isWhitespace _).
  split; [|split].
  - replace (String.length before + String.length inside - String.length before)%nat
      with (String.length inside) by lia.
    rewrite substring_skip. apply substring_prefix.
  - rewrite !length_append. lia.
  - rewrite Nat.sub_0_r, substring_prefix. apply trimStart_clean.
Qed.

(** ** The hover picker as a whole *)

Section PickerFacts.


Lemma box_control_onDidChangeColor (b : SaturationBox.t) (c : Color) :
  SaturationBox.monitor (SaturationBox.onDidChangeColor b c) = SaturationBox.monitor b
  /\ SaturationBox.replaced (SaturationBox.onDidChangeColor b c) = SaturationBox.replaced b
  /\ SaturationBox.pointerUpListeners (SaturationBox.onDidChangeColor b c)
     = SaturationBox.pointerUpListeners b.
Proof.
  unfold SaturationBox.onDidChangeColor.
  destruct (SaturationBox.monitor b) as [m|] eqn:Hm; [destruct (isMonitoring m)|];
    cbn; auto.
Qed.

Lemma strip_drags_onDidChangeColor (st : Strip.t) (c : Color) :
  Strip.drags (Strip.onDidChangeColor st c) = Strip.drags st.
Proof. unfold Strip.onDidChangeColor. cbn. destruct (Strip.kind st); reflexivity. Qed.

Lemma control_setColor (c : Color) (w : HoverPicker) :
  control (setColor c w) = control w.
Proof.
  unfold control, editsApplied, undoStops, hidesRequested, setColor.
  cbn [sync saturationBox opacityStrip hueStrip awaiting].
  destruct (box_control_onDidChangeColor (saturationBox w) c) as (-> & -> & ->).
  rewrite !strip_drags_onDidChangeColor.
  cbn. rewrite !filter_app. cbn. rewrite !app_nil_r. reflexivity.
Qed.

Lemma control_flushColor (w : HoverPicker) :
  control (flushColor w)
  = (fst (control w), S (awaiting w)).
Proof.
  unfold control, editsApplied, undoStops, hidesRequested, flushColor.
  cbn. rewrite !filter_app. cbn. rewrite !app_nil_r. reflexivity.
Qed.

Lemma control_boxChangePosition (left top : number) (w : HoverPicker) :
  control (boxChangePosition left top w) = control w.
Proof.
  unfold boxChangePosition. cbn. rewrite control_setColor. reflexivity.
Qed.

Lemma control_stripChangeTop (k : Strip.Kind) (top : number) (w : HoverPicker) :
  control (stripChangeTop k top w) = control w.
Proof.
  unfold stripChangeTop. cbn. destruct k; cbn; rewrite control_setColor; reflexivity.
Qed.

Lemma control_fold {A} (f : HoverPicker -> A -> HoverPicker) (l : list A) :
  (forall w a, control (f w a) = control w) ->
  forall w, control (fold_left f l w) = control w.
Proof.
  intro H. induction l as [|a l IH]; intro w; [reflexivity|].
  cbn. rewrite IH. apply H.
Qed.

Lemma control_boxMoveCallback (e : PointerEvent) (w : HoverPicker)
  (m : GlobalPointerMoveMonitor) :
  control (boxMoveCallback e w m) = control w.
Proof.
  unfold boxMoveCallback. destruct (isMonitoring m); [|reflexivity].
  apply control_boxChangePosition.
Qed.

Lemma control_stripMoveCallback (k : Strip.Kind) (e : PointerEvent) (w : HoverPicker)
  (m : GlobalPointerMoveMonitor) :
  control (stripMoveCallback k e w m) = control w.
Proof.
  unfold stripMoveCallback. destruct (isMonitoring m); [|reflexivity].
  apply control_stripChangeTop.
Qed.

(** Pointer-moves change colours and handles, never the monitors, the
    listeners or what the picker did to the editor. *)
Lemma control_documentPointerMove (e : PointerEvent) (w : HoverPicker) :
  control (documentPointerMove e w) = control w.
Proof.
  unfold documentPointerMove.
  rewrite (control_fold _ _ (control_stripMoveCallback Strip.HueStrip e)).
  rewrite (control_fold _ _ (control_stripMoveCallback Strip.OpacityStrip e)).
  apply (control_fold _ _ (control_boxMoveCallback e)).
Qed.

Lemma control_boxPointerDown (e : PointerEvent) (origin : number * number) (w : HoverPicker)
  (f : bool * nat * nat * nat) (a : nat) :
  is_element (target e) = true ->
  control w = ((None, [], 0%nat), [], [], f, a) ->
  control (boxPointerDown e origin w)
  = ((Some (startMonitoring (fst origin) (snd origin)), [], 1%nat), [], [], f, a).
Proof.
  intros He H. unfold boxPointerDown. rewrite He. cbn [negb].
  unfold control, editsApplied, undoStops, hidesRequested in H.
  assert (Hm : SaturationBox.monitor (saturationBox w) = None) by congruence.
  rewrite Hm.
  destruct (negb (is_handle (target e))).
  - match goal with
    | |- context [boxChangePosition ?l ?t ?w1] =>
        pose proof (control_boxChangePosition l t w1) as H2;
        set (w2 := boxChangePosition l t w1) in *; clearbody w2
    end.
    unfold control, editsApplied, undoStops, hidesRequested in H2 |- *. cbn in H2 |- *. congruence.
  - unfold control, editsApplied, undoStops, hidesRequested. cbn. congruence.
Qed.

Lemma control_stripPointerDown (k : Strip.Kind) (e : PointerEvent) (origin : number * number)
  (w : HoverPicker) (f : bool * nat * nat * nat) (a : nat) :
  is_element (target e) = true ->
  control w = ((None, [], 0%nat), [], [], f, a) ->
  control (stripPointerDown k e origin w)
  = ((None, [], 0%nat),
     match k with Strip.OpacityStrip => [startMonitoring (fst origin) (snd origin)]
                | Strip.HueStrip => [] end,
     match k with Strip.HueStrip => [startMonitoring (fst origin) (snd origin)]
                | Strip.OpacityStrip => [] end,
     f, a).
Proof.
  intros He H. unfold stripPointerDown. rewrite He. cbn [negb].
  unfold control, editsApplied, undoStops, hidesRequested in H.
  assert (Ho : Strip.drags (opacityStrip w) = []) by congruence.
  assert (Hh : Strip.drags (hueStrip w) = []) by congruence.
  destruct (negb (is_handle (target e))).
  - match goal with
    | |- context [stripChangeTop k ?t ?w1] =>
        pose proof (control_stripChangeTop k t w1) as H2;
        set (w2 := stripChangeTop k t w1) in *; clearbody w2
    end.
    destruct k; unfold control, editsApplied, undoStops, hidesRequested in H2 |- *; cbn in H2 |- *.
    + assert (E : Strip.drags (hueStrip w2) = []) by congruence.
      rewrite E. cbn. congruence.
    + assert (E : Strip.drags (opacityStrip w2) = []) by congruence.
      rewrite E. cbn. congruence.
  - destruct k; unfold control, editsApplied, undoStops, hidesRequested; cbn; rewrite ?Ho, ?Hh; cbn; congruence.
Qed.

Lemma control_flushes_box (n : nat) (w : HoverPicker) :
  control (fold_left (onBoxFired) (repeat ColorFlushed n) w)
  = (fst (control w), (n + awaiting w)%nat).
Proof.
  revert w. induction n as [|n IH]; intro w; [reflexivity|].
  cbn [repeat fold_left onBoxFired]. rewrite IH, control_flushColor.
  cbn [fst awaiting flushColor]. f_equal. lia.
Qed.

Lemma control_flushes_strip (k : Strip.Kind) (n : nat) (w : HoverPicker) :
  control (fold_left (onStripFired k) (repeat ColorFlushed n) w)
  = (fst (control w), (n + awaiting w)%nat).
Proof.
  revert w. induction n as [|n IH]; intro w; [reflexivity|].
  cbn [repeat fold_left onStripFired]. rewrite IH, control_flushColor.
  cbn [fst awaiting flushColor]. f_equal. lia.
Qed.

(** A pointer-up ends every drag and suspends one flushed listener
    for every pending pointer-up listener. *)
Lemma control_documentPointerUp (w : HoverPicker)
  (m : option GlobalPointerMoveMonitor) (rep od hd : list GlobalPointerMoveMonitor)
  (n : nat) (f : bool * nat * nat * nat) (a : nat) :
  control w = ((m, rep, n), od, hd, f, a) ->
  control (documentPointerUp w)
  = ((match n with O => option_map stopMonitoring m | S _ => None end, [], 0%nat),
     [], [], f, (length hd + (length od + (n + a)))%nat).
Proof.
  intro H. unfold documentPointerUp.
  destruct (SaturationBox.onPointerUp (saturationBox w)) as [b fired] eqn:Eb.
  set (w1 := fold_left (onBoxFired) fired (withBox w b)).
  assert (H1 : control w1
               = ((match n with O => option_map stopMonitoring m | S _ => None end,
                   [], 0%nat), od, hd, f, (n + a)%nat)).
  { unfold control, editsApplied, undoStops, hidesRequested in H.
    assert (En : SaturationBox.pointerUpListeners (saturationBox w) = n) by congruence.
    unfold SaturationBox.onPointerUp in Eb. cbn in Eb. rewrite En in Eb.
    destruct n as [|n]; injection Eb as <- <-; subst w1.
    - unfold control, editsApplied, undoStops, hidesRequested. cbn. congruence.
    - etransitivity; [exact (control_flushes_box (S n) _)|].
      unfold control, editsApplied, undoStops, hidesRequested. cbn. congruence. }
  clearbody w1. clear H Eb b fired.
  destruct (Strip.onPointerUp (opacityStrip w1)) as [st fired] eqn:Eo.
  set (w2 := fold_left (onStripFired Strip.OpacityStrip) fired
                       (withStrip Strip.OpacityStrip w1 st)).
  assert (H2 : control w2
               = ((match n with O => option_map stopMonitoring m | S _ => None end,
                   [], 0%nat), [], hd, f, (length od + (n + a))%nat)).
  { unfold control, editsApplied, undoStops, hidesRequested in H1.
    assert (Ed : Strip.drags (opacityStrip w1) = od) by congruence.
    unfold Strip.onPointerUp in Eo. rewrite Ed in Eo.
    destruct od as [|d od]; injection Eo as <- <-; subst w2.
    - unfold control, editsApplied, undoStops, hidesRequested. cbn. congruence.
    - etransitivity; [exact (control_flushes_strip _ (length (d :: od)) _)|].
      unfold control, editsApplied, undoStops, hidesRequested. cbn. congruence. }
  clearbody w2. clear H1 Eo st fired w1.
  destruct (Strip.onPointerUp (hueStrip w2)) as [st fired] eqn:Eh.
  unfold control, editsApplied, undoStops, hidesRequested in H2.
  assert (Ed : Strip.drags (hueStrip w2) = hd) by congruence.
  unfold Strip.onPointerUp in Eh. rewrite Ed in Eh.
  destruct hd as [|d hd]; injection Eh as <- <-.
  - unfold control, editsApplied, undoStops, hidesRequested. cbn. congruence.
  - etransitivity; [exact (control_flushes_strip _ (length (d :: hd)) _)|].
    unfold control, editsApplied, undoStops, hidesRequested. cbn. congruence.
Qed.

Lemma control_moves (ps : list (number * number)) (w : HoverPicker) :
  control (pickerRun w
             (map (fun p => DocumentPointerMove
                              (mkPointerEvent OtherElement $0 $0 (fst p) (snd p))) ps))
  = control w.
Proof.
  revert w. induction ps as [|p ps IH]; intro w; [reflexivity|].
  cbn [map pickerRun fold_left]. 
  change (control (pickerRun
                     (pickerStep w
                        (DocumentPointerMove
                           (mkPointerEvent OtherElement $0 $0 (fst p) (snd p))))
                     (map (fun p => DocumentPointerMove
                                      (mkPointerEvent OtherElement $0 $0 (fst p) (snd p))) ps))
          = control w).
  rewrite IH. apply control_documentPointerMove.
Qed.

(** A whole drag on an idle picker leaves it idle, with one more
    flushed listener suspended and nothing done to the editor. *)
Lemma control_drag (s : Surface) (d : Drag) (w : HoverPicker)
  (f : bool * nat * nat * nat) (a : nat) :
  control w = ((None, [], 0%nat), [], [], f, a) ->
  control (pickerRun w (dragOn s d)) = ((None, [], 0%nat), [], [], f, S a).
Proof.
  intro H. unfold dragOn, pickerRun. cbn [fold_left]. rewrite fold_left_app.
  cbn [fold_left pickerStep].
  assert (He : is_element (target (mkPointerEvent (if on_handle d then Handle else OtherElement)
                                     (fst (down_at d)) (snd (down_at d))
                                     (fst (down_at d)) (snd (down_at d)))) = true)
    by (destruct (on_handle d); reflexivity).
  destruct s.
  - rewrite (control_documentPointerUp
               (m := Some (startMonitoring (fst (origin_at d)) (snd (origin_at d))))
               (rep := []) (od := []) (hd := []) (n := 1%nat) (f := f) (a := a)).
    + reflexivity.
    + etransitivity; [apply control_moves|].
      apply control_boxPointerDown; assumption.
  - rewrite (control_documentPointerUp
               (m := None) (rep := [])
               (od := [startMonitoring (fst (origin_at d)) (snd (origin_at d))])
               (hd := []) (n := 0%nat) (f := f) (a := a)).
    + reflexivity.
    + etransitivity; [apply control_moves|].
      exact (control_stripPointerDown Strip.OpacityStrip _ (origin_at d) He H).
  - rewrite (control_documentPointerUp
               (m := None) (rep := []) (od := [])
               (hd := [startMonitoring (fst (origin_at d)) (snd (origin_at d))])
               (n := 0%nat) (f := f) (a := a)).
    + reflexivity.
    + etransitivity; [apply control_moves|].
      exact (control_stripPointerDown Strip.HueStrip _ (origin_at d) He H).
Qed.



(** Answers and edits from elsewhere leave the surfaces alone. *)
Lemma surfaces_answer (w : HoverPicker) (ev : PickerEvent) :
  match ev with
  | PresentationsAnswer _ | FlushAnswer _ _ | BufferChanged => True
  | _ => False
  end ->
  fst (fst (control (pickerStep w ev))) = fst (fst (control w)).
Proof.
  destruct ev; intro H; try contradiction; cbn [pickerStep]; try reflexivity.
  destruct (awaiting w); reflexivity.
Qed.

End PickerFacts.

(** *** The presentation index of the model never changes *)

Section SyncKeeps.

(** A reading of the picker that neither a colour change nor a flushed
    event alters. *)
Variable B : Type.
Variable g : HoverColorPicker -> B.
Hypothesis g_changed : forall p c, g (hover_step p (ColorChanged c)) = g p.
Hypothesis g_flushed : forall p, g (hover_step p Flushed) = g p.







End SyncKeeps.



(** A picker as constructed is idle and has done nothing yet. *)
Lemma control_createPicker (r : Range) (model : ColorPickerModel)
  (boxWidth boxHeight stripHeight sliderHeight : number) :
  control (createPicker r model boxWidth boxHeight stripHeight sliderHeight)
  = ((None, [], 0%nat), [], [], (false, 0%nat, 0%nat, 0%nat), 0%nat).
Proof.
  unfold control, createPicker, editsApplied, undoStops, hidesRequested. cbn.
  destruct (SaturationBox.create boxWidth boxHeight model) eqn:Eb.
  unfold SaturationBox.create, SaturationBox.layout in Eb. cbn in Eb.
  injection Eb as _ _ <- <- <- _ _ _.
  unfold Strip.create, Strip.layout, Strip.onDidChangeColor. reflexivity.
Qed.

(** Whatever the answers, whole drags leave the surfaces idle. *)
Lemma idle_interactions (acts : list Interaction) :
  forall (w : HoverPicker),
    fst (fst (control w)) = ((None, [], 0%nat), [], []) ->
    fst (fst (control (pickerRun w (flat_map (@eventsOf) acts))))
    = ((None, [], 0%nat), [], []).
Proof.
  induction acts as [|i acts IH]; intros w H; [exact H|].
  cbn [flat_map]. unfold pickerRun. rewrite fold_left_app.
  fold (pickerRun w (eventsOf i)).
  fold (pickerRun (pickerRun w (eventsOf i)) (flat_map (@eventsOf) acts)).
  apply IH.
  destruct i as [s d|answer|answer tracked|]; cbn [eventsOf].
  - destruct (control w) as [[surfaces f] a] eqn:Ec. cbn in H. subst surfaces.
    rewrite (control_drag s d Ec). reflexivity.
  - exact (eq_trans (@surfaces_answer w (PresentationsAnswer answer) I) H).
  - exact (eq_trans (@surfaces_answer w (FlushAnswer answer tracked) I) H).
  - exact (eq_trans (@surfaces_answer w BufferChanged I) H).
Qed.




(** *** The colour a drag leaves *)

Section DragFacts.


(** The colour of the model and the sizes of the surfaces. *)
Lemma look_flushes_box (n : nat) (w : HoverPicker) :
  color (pickerModel (fold_left (onBoxFired) (repeat ColorFlushed n) w))
  = color (pickerModel w)
  /\ geometry (fold_left (onBoxFired) (repeat ColorFlushed n) w) = geometry w.
Proof.
  revert w. induction n as [|n IH]; intro w; [split; reflexivity|].
  cbn [repeat fold_left onBoxFired]. destruct (IH (flushColor w)) as [-> ->].
  split; reflexivity.
Qed.

Lemma look_flushes_strip (k : Strip.Kind) (n : nat) (w : HoverPicker) :
  color (pickerModel (fold_left (onStripFired k) (repeat ColorFlushed n) w))
  = color (pickerModel w)
  /\ geometry (fold_left (onStripFired k) (repeat ColorFlushed n) w)
     = geometry w.
Proof.
  revert w. induction n as [|n IH]; intro w; [split; reflexivity|].
  cbn [repeat fold_left onStripFired]. destruct (IH (flushColor w)) as [-> ->].
  split; reflexivity.
Qed.

(** A pointer-up changes neither the colour nor the sizes. *)
Lemma look_documentPointerUp (w : HoverPicker) :
  color (pickerModel (documentPointerUp w)) = color (pickerModel w)
  /\ geometry (documentPointerUp w) = geometry w.
Proof.
  unfold documentPointerUp.
  destruct (SaturationBox.onPointerUp (saturationBox w)) as [b fired] eqn:Eb.
  set (w1 := fold_left (onBoxFired) fired (withBox w b)).
  assert (H1 : color (pickerModel w1) = color (pickerModel w) /\ geometry w1 = geometry w).
  { unfold SaturationBox.onPointerUp in Eb. cbn in Eb.
    destruct (SaturationBox.pointerUpListeners (saturationBox w)) as [|n];
      injection Eb as <- <-; subst w1.
    - split; reflexivity.
    - destruct (look_flushes_box (S n)
                  (withBox w (SaturationBox.set_monitor
                                (SaturationBox.set_monitor (saturationBox w)
                                   (option_map stopMonitoring
                                      (SaturationBox.monitor (saturationBox w)))
                                   [] (S n)) None [] 0))) as [E1 E2].
      split; [exact E1 | exact E2]. }
  clearbody w1. destruct H1 as [<- <-]. clear Eb b fired.
  destruct (Strip.onPointerUp (opacityStrip w1)) as [st fired] eqn:Eo.
  set (w2 := fold_left (onStripFired Strip.OpacityStrip) fired
                       (withStrip Strip.OpacityStrip w1 st)).
  assert (H2 : color (pickerModel w2) = color (pickerModel w1) /\ geometry w2 = geometry w1).
  { unfold Strip.onPointerUp in Eo.
    destruct (Strip.drags (opacityStrip w1)) as [|m ms];
      injection Eo as <- <-; subst w2.
    - split; reflexivity.
    - destruct (look_flushes_strip Strip.OpacityStrip (length (m :: ms))
                  (withStrip Strip.OpacityStrip w1
                     (Strip.set_drags (opacityStrip w1) false []))) as [E1 E2].
      split; [exact E1 | exact E2]. }
  clearbody w2. destruct H2 as [<- <-]. clear Eo st fired.
  destruct (Strip.onPointerUp (hueStrip w2)) as [st fired] eqn:Eh.
  unfold Strip.onPointerUp in Eh.
  destruct (Strip.drags (hueStrip w2)) as [|m ms]; injection Eh as <- <-.
  - split; reflexivity.
  - destruct (look_flushes_strip Strip.HueStrip (length (m :: ms))
                (withStrip Strip.HueStrip w2
                   (Strip.set_drags (hueStrip w2) false []))) as [E1 E2].
    split; [exact E1 | exact E2].
Qed.

Lemma box_size_onDidChangeColor (b : SaturationBox.t) (c : Color) :
  SaturationBox.width (SaturationBox.onDidChangeColor b c) = SaturationBox.width b
  /\ SaturationBox.height (SaturationBox.onDidChangeColor b c) = SaturationBox.height b.
Proof.
  unfold SaturationBox.onDidChangeColor.
  destruct (SaturationBox.monitor b) as [m|]; [destruct (isMonitoring m)|];
    split; reflexivity.
Qed.

Lemma strip_height_onDidChangeColor (st : Strip.t) (c : Color) :
  Strip.height (Strip.onDidChangeColor st c) = Strip.height st.
Proof. unfold Strip.onDidChangeColor. cbn. destruct (Strip.kind st); reflexivity. Qed.

Lemma geometry_setColor (c : Color) (w : HoverPicker) :
  geometry (setColor c w) = geometry w.
Proof.
  unfold geometry, setColor. cbn [saturationBox opacityStrip hueStrip].
  destruct (box_size_onDidChangeColor (saturationBox w) c) as [-> ->].
  rewrite !strip_height_onDidChangeColor. reflexivity.
Qed.

(** A position on the box sets the colour the body makes of it. *)
Lemma look_boxChangePosition (left top : number) (w : HoverPicker) :
  color (pickerModel (boxChangePosition left top w)) = pickedAt TheBox w left top
  /\ geometry (boxChangePosition left top w) = geometry w.
Proof.
  unfold boxChangePosition. cbn [SaturationBox.onDidChangePosition fold_left onBoxFired].
  split; [reflexivity|]. rewrite geometry_setColor. reflexivity.
Qed.

Lemma look_stripChangeTop (k : Strip.Kind) (left top : number) (w : HoverPicker) :
  color (pickerModel (stripChangeTop k top w))
  = pickedAt (match k with Strip.OpacityStrip => TheOpacityStrip
                         | Strip.HueStrip => TheHueStrip end) w left top
  /\ geometry (stripChangeTop k top w) = geometry w.
Proof.
  unfold stripChangeTop. cbn [Strip.onDidChangeTop fold_left onStripFired].
  destruct k; (split; [reflexivity|]); rewrite geometry_setColor; reflexivity.
Qed.

(** The pointer goes down on an idle picker. *)
Lemma look_pointerDown (s : Surface) (e : PointerEvent) (origin : number * number)
  (w : HoverPicker) (f : bool * nat * nat * nat) (a : nat) :
  is_element (target e) = true ->
  control w = ((None, [], 0%nat), [], [], f, a) ->
  let w' := pickerStep w (SurfacePointerDown s e origin) in
  control w' = draggingOn s origin f a
  /\ geometry w' = geometry w
  /\ color (pickerModel w')
     = if is_handle (target e) then color (pickerModel w)
       else pickedAt s w (offsetX e) (offsetY e).
Proof.
  intros He H w'. split.
  - subst w'. destruct s; cbn [pickerStep draggingOn].
    + apply control_boxPointerDown; assumption.
    + exact (control_stripPointerDown Strip.OpacityStrip e origin He H).
    + exact (control_stripPointerDown Strip.HueStrip e origin He H).
  - subst w'. destruct s; cbn [pickerStep].
    + unfold boxPointerDown. rewrite He. cbn [negb].
      destruct (is_handle (target e)); cbn [negb].
      * split; reflexivity.
      * match goal with
        | |- context [boxChangePosition ?l ?t ?w1] =>
            destruct (look_boxChangePosition l t w1) as [E1 E2];
            set (w2 := boxChangePosition l t w1) in *; clearbody w2
        end.
        split; [exact E2 | exact E1].
    + unfold stripPointerDown. rewrite He. cbn [negb].
      destruct (is_handle (target e)); cbn [negb].
      * split; reflexivity.
      * match goal with
        | |- context [stripChangeTop _ ?t ?w1] =>
            destruct (look_stripChangeTop Strip.OpacityStrip (offsetX e) t w1) as [E1 E2];
            set (w2 := stripChangeTop Strip.OpacityStrip t w1) in *;
            clearbody w2
        end.
        split; [exact E2 | exact E1].
    + unfold stripPointerDown. rewrite He. cbn [negb].
      destruct (is_handle (target e)); cbn [negb].
      * split; reflexivity.
      * match goal with
        | |- context [stripChangeTop _ ?t ?w1] =>
            destruct (look_stripChangeTop Strip.HueStrip (offsetX e) t w1) as [E1 E2];
            set (w2 := stripChangeTop Strip.HueStrip t w1) in *;
            clearbody w2
        end.
        split; [exact E2 | exact E1].
Qed.

Lemma boxMoveCallback_monitoring (e : PointerEvent) (w : HoverPicker) (left top : number) :
  boxMoveCallback e w (startMonitoring left top)
  = boxChangePosition (pageX e - left) (pageY e - top) w.
Proof. reflexivity. Qed.

Lemma stripMoveCallback_monitoring (k : Strip.Kind) (e : PointerEvent) (w : HoverPicker)
  (left top : number) :
  stripMoveCallback k e w (startMonitoring left top)
  = stripChangeTop k (pageY e - top) w.
Proof. reflexivity. Qed.

(** The pointer moves while one drag is in progress: only the dragged
    surface reacts, with the position measured from where its node
    was at the pointer-down. *)
Lemma look_pointerMove (s : Surface) (e : PointerEvent) (origin : number * number)
  (w : HoverPicker) (f : bool * nat * nat * nat) (a : nat) :
  control w = draggingOn s origin f a ->
  let w' := pickerStep w (DocumentPointerMove e) in
  control w' = draggingOn s origin f a
  /\ geometry w' = geometry w
  /\ color (pickerModel w')
     = pickedAt s w (pageX e - fst origin) (pageY e - snd origin).
Proof.
  intros H w'. split.
  - subst w'. cbn [pickerStep]. rewrite control_documentPointerMove. exact H.
  - subst w'. cbn [pickerStep]. unfold documentPointerMove.
    unfold control, draggingOn in H.
    destruct s.
    + assert (Hm : SaturationBox.monitor (saturationBox w)
                   = Some (startMonitoring (fst origin) (snd origin))) by congruence.
      assert (Hr : SaturationBox.replaced (saturationBox w) = []) by congruence.
      rewrite Hm, Hr. cbn [app fold_left].
      rewrite boxMoveCallback_monitoring.
      match goal with
      | |- context [boxChangePosition ?l ?t w] =>
          destruct (look_boxChangePosition l t w) as [E1 E2];
          pose proof (control_boxChangePosition l t w) as E3;
          set (w2 := boxChangePosition l t w) in *; clearbody w2
      end.
      unfold control in E3.
      assert (Ho : Strip.drags (opacityStrip w2) = []) by congruence.
      assert (Hh : Strip.drags (hueStrip w2) = []) by congruence.
      rewrite Ho. cbn [fold_left]. rewrite Hh. cbn [fold_left].
      split; [exact E2 | exact E1].
    + assert (Hm : SaturationBox.monitor (saturationBox w) = None) by congruence.
      assert (Hr : SaturationBox.replaced (saturationBox w) = []) by congruence.
      assert (Ho : Strip.drags (opacityStrip w)
                   = [startMonitoring (fst origin) (snd origin)]) by congruence.
      rewrite Hm, Hr. cbn [app fold_left]. rewrite Ho. cbn [fold_left].
      rewrite stripMoveCallback_monitoring.
      match goal with
      | |- context [stripChangeTop _ ?t w] =>
          destruct (look_stripChangeTop Strip.OpacityStrip (pageX e - fst origin) t w)
            as [E1 E2];
          pose proof (control_stripChangeTop Strip.OpacityStrip t w) as E3;
          set (w2 := stripChangeTop Strip.OpacityStrip t w) in *; clearbody w2
      end.
      unfold control in E3.
      assert (Hh : Strip.drags (hueStrip w2) = []) by congruence.
      rewrite Hh. cbn [fold_left].
      split; [exact E2 | exact E1].
    + assert (Hm : SaturationBox.monitor (saturationBox w) = None) by congruence.
      assert (Hr : SaturationBox.replaced (saturationBox w) = []) by congruence.
      assert (Ho : Strip.drags (opacityStrip w) = []) by congruence.
      assert (Hh : Strip.drags (hueStrip w)
                   = [startMonitoring (fst origin) (snd origin)]) by congruence.
      rewrite Hm, Hr. cbn [app fold_left]. rewrite Ho. cbn [fold_left].
      rewrite Hh. cbn [fold_left].
      rewrite stripMoveCallback_monitoring.
      exact (let '(conj E1 E2) :=
               look_stripChangeTop Strip.HueStrip (pageX e - fst origin)
                 (pageY e - snd origin) w in conj E2 E1).
Qed.

Lemma componentsKept_refl (s : Surface) (c : Color) : componentsKept s c c.
Proof. destruct s; cbn; repeat split. Qed.

Lemma componentsKept_trans (s : Surface) (c1 c2 c3 : Color) :
  componentsKept s c1 c2 -> componentsKept s c2 c3 -> componentsKept s c1 c3.
Proof.
  destruct s; cbn; intros H1 H2; repeat split;
    repeat match goal with H : _ /\ _ |- _ => destruct H end; congruence.
Qed.

Lemma componentsKept_pickedAt (s : Surface) (w : HoverPicker) (left top : number) :
  componentsKept s (color (pickerModel w)) (pickedAt s w left top).
Proof. destruct s; cbn; repeat split. Qed.

(** What a position is made into depends on the picker only through
    the sizes and the components the surface does not set. *)
Lemma pickedAt_basis (s : Surface) (w0 w : HoverPicker) (left top : number) :
  geometry w = geometry w0 ->
  componentsKept s (color (pickerModel w0)) (color (pickerModel w)) ->
  pickedAt s w left top = pickedAt s w0 left top.
Proof.
  unfold geometry. intros Hg Hk.
  assert (G1 : SaturationBox.width (saturationBox w) = SaturationBox.width (saturationBox w0))
    by congruence.
  assert (G2 : SaturationBox.height (saturationBox w) = SaturationBox.height (saturationBox w0))
    by congruence.
  assert (G3 : Strip.height (opacityStrip w) = Strip.height (opacityStrip w0)) by congruence.
  assert (G4 : Strip.height (hueStrip w) = Strip.height (hueStrip w0)) by congruence.
  destruct s; unfold pickedAt; cbn in Hk;
    repeat match goal with H : _ /\ _ |- _ => destruct H end;
    rewrite ?G1, ?G2, ?G3, ?G4; congruence.
Qed.

Lemma look_moves (s : Surface) (origin : number * number) (ps : list (number * number))
  (w : HoverPicker) (f : bool * nat * nat * nat) (a : nat) :
  control w = draggingOn s origin f a ->
  let w' := pickerRun w
              (map (fun p => DocumentPointerMove
                               (mkPointerEvent OtherElement $0 $0 (fst p) (snd p))) ps) in
  control w' = draggingOn s origin f a
  /\ geometry w' = geometry w
  /\ componentsKept s (color (pickerModel w)) (color (pickerModel w'))
  /\ color (pickerModel w')
     = match rev ps with
       | p :: _ => pickedAt s w (fst p - fst origin) (snd p - snd origin)
       | [] => color (pickerModel w)
       end.
Proof.
  intro H. induction ps as [|p ps IH] using rev_ind.
  - cbn. repeat split; [exact H | apply componentsKept_refl].
  - cbn zeta in IH |- *. rewrite map_app. unfold pickerRun in IH |- *.
    rewrite fold_left_app. cbn [map fold_left].
    destruct IH as (Hc & Hg & Hk & _).
    destruct (@look_pointerMove s (mkPointerEvent OtherElement $0 $0 (fst p) (snd p))
                origin _ f a Hc)
      as (Hc' & Hg' & Hcol).
    cbn [pageX pageY] in Hcol.
    rewrite (@pickedAt_basis s w _ _ _ Hg Hk) in Hcol.
    repeat split.
    + exact Hc'.
    + congruence.
    + rewrite Hcol. apply componentsKept_pickedAt.
    + rewrite rev_app_distr. cbn [rev app]. exact Hcol.
Qed.

(** A whole drag on an idle picker. *)
Lemma look_drag (s : Surface) (d : Drag) (w : HoverPicker)
  (f : bool * nat * nat * nat) (a : nat) :
  control w = ((None, [], 0%nat), [], [], f, a) ->
  let w' := pickerRun w (dragOn s d) in
  color (pickerModel w')
  = match lastPosition d with
    | Some p => pickedAt s w (fst p) (snd p)
    | None => color (pickerModel w)
    end
  /\ componentsKept s (color (pickerModel w)) (color (pickerModel w')).
Proof.
  intros H w'. subst w'. unfold dragOn, pickerRun. cbn [fold_left].
  rewrite fold_left_app. cbn [fold_left].
  set (down := mkPointerEvent (if on_handle d then Handle else OtherElement)
                 (fst (down_at d)) (snd (down_at d)) (fst (down_at d)) (snd (down_at d))).
  assert (He : is_element (target down) = true)
    by (subst down; destruct (on_handle d); reflexivity).
  destruct (@look_pointerDown s down (origin_at d) w f a He H) as (Hc1 & Hg1 & Hcol1).
  set (w1 := pickerStep w (SurfacePointerDown s down (origin_at d))) in *.
  assert (Hk1 : componentsKept s (color (pickerModel w)) (color (pickerModel w1))).
  { rewrite Hcol1. destruct (is_handle (target down));
      [apply componentsKept_refl | apply componentsKept_pickedAt]. }
  destruct (@look_moves s (origin_at d) (moves d) w1 f a Hc1) as (Hc2 & Hg2 & Hk2 & Hcol2).
  unfold pickerRun in Hc2, Hg2, Hk2, Hcol2.
  set (w2 := fold_left (pickerStep) _ w1) in *.
  cbn [pickerStep]. destruct (look_documentPointerUp w2) as [-> _].
  split.
  - rewrite Hcol2. unfold lastPosition. destruct (rev (moves d)) as [|p ps].
    + rewrite Hcol1. subst down. cbn [target offsetX offsetY].
      destruct (on_handle d); reflexivity.
    + cbn [fst snd]. apply pickedAt_basis; assumption.
  - exact (@componentsKept_trans s _ _ _ Hk1 Hk2).
Qed.

End DragFacts.

(** X17: after any earlier drags, answers and edits, a drag on a
    surface of the hover picker leaves the model with the colour of
    the last position of the pointer alone, as if the pointer had gone
    there at once: the positions passed on the way leave no trace, and
    a drag that begins on the handle and never moves leaves the colour
    as it was.  The box sets saturation and value and keeps hue and
    opacity, the opacity strip sets the opacity only, the hue strip
    the hue only. *)
Theorem drag_leaves_last_position
  (r : Range)
  (model : ColorPickerModel) (boxWidth boxHeight stripHeight sliderHeight : number)
  (acts : list Interaction) (s : Surface) (d : Drag) :
  let w0 := pickerRun
              (createPicker r model boxWidth boxHeight stripHeight sliderHeight)
              (flat_map (@eventsOf) acts) in
  let w := pickerRun w0 (dragOn s d) in
  color (pickerModel w)
  = match lastPosition d with
    | Some p => pickedAt s w0 (fst p) (snd p)
    | None => color (pickerModel w0)
    end
  /\ componentsKept s (color (pickerModel w0)) (color (pickerModel w)).
Proof.
  intros w0 w.
  pose proof (@idle_interactions acts
                (createPicker r model boxWidth boxHeight stripHeight sliderHeight)) as Hidle.
  rewrite control_createPicker in Hidle. specialize (Hidle eq_refl). fold w0 in Hidle.
  destruct (control w0) as [[surfaces f] a] eqn:Ec. cbn in Hidle. subst surfaces.
  exact (@look_drag s d w0 f a Ec).
Qed.
